(** * Gemini Business gateway: shallow embedding of the core subsystems

    Part I holds the definitions, one module per source file:
    - [Json], [Utf8], [StreamParser]
                              the incremental parser of the upstream stream,
                              src/core/gemini-client.js (curlStreamRequest)
    - [MD5], [Hash]           session fingerprints, src/utils/hash.js
    - [ProviderRow], [SessionRow], [LogRow], [Db]
                              the tables and the effects of the gateway
    - [Provider]              src/models/provider.js
    - [ProviderScheduler]     src/core/provider-scheduler.js
    - [Session]               src/models/session.js
    - [SessionMatcher]        src/core/session-matcher.js
    - [Utf16], [RequestExecutor]
                              src/core/request-executor.js
    - [Base64], [BearerToken] src/core/gemini-client.js (_buildBearerToken)
    - [Rfc4648], [TokenSpec]  the bearer token as the specification words
                              it, to be compared with the code
    - [Crypto]                src/utils/crypto.js
    - [Keys]                  src/utils/hash.js (randomString,
                              generateApiKey)
    - [ProviderJobs], [SessionJobs]
                              the periodic jobs and the other updates of
                              the provider and session models
    - [Streaming]             the handlers of the streaming path,
                              src/core/gemini-client.js and
                              src/core/request-executor.js
    - [Logging]               what a function adds to the request log
    - [ModelNames]            src/core/request-executor.js (_mapModel)

    Part II holds the theorems, one module of facts for each of them.

    Asynchronous code is a function from the world (tables, clock, what
    the environment will do next) to an outcome and a new world; an
    exception keeps what was done before it. Functions of the runtime and
    of libraries are parameters (JSON.parse, HMAC-SHA-256, the AES
    cipher), except MD5 and Base64, which are written out. *)

From Stdlib Require Import String Ascii Bool ZArith QArith Qround Lia Lqa Arith List
  DecimalString.
Import ListNotations.

Local Open Scope Z_scope.

#[local] Set Warnings "-notation-for-abbreviation".

(* ================================================================== *)
(** * Part I: definitions                                               *)
(* ================================================================== *)

(** ** Characters and JavaScript strings *)

(** A JavaScript string is modelled by the bytes of its UTF-8 text, one
    [ascii] each. The scanners below only ever compare a character with
    a few ASCII delimiters, which are single bytes that occur in no
    other character, so walking the bytes and walking the code units of
    the string tell the same. *)
Definition jstring := list ascii.

Definition str (s : string) : jstring := list_ascii_of_string s.

Definition dquote : ascii := "034"%char.
Definition backslash : ascii := "092"%char.
Definition CR : ascii := "013"%char.
Definition LF : ascii := "010"%char.
Definition TAB : ascii := "009"%char.
Definition lbrace : ascii := "{"%char.
Definition rbrace : ascii := "}"%char.
Definition lbracket : ascii := "["%char.
Definition rbracket : ascii := "]"%char.
Definition comma : ascii := ","%char.
Definition colon : ascii := ":"%char.
Definition space : ascii := " "%char.

Definition ch_eqb (a b : ascii) : bool := Ascii.eqb a b.

(** ** JSON texts (RFC 8259)

    The grammar of the texts the upstream sends, as relations on character
    lists. It is the meaning of a valid JSON object in the statements
    about the stream parser. *)

Module Json.

Definition is_ws (c : ascii) : bool :=
  ch_eqb c space || ch_eqb c TAB || ch_eqb c LF || ch_eqb c CR.

Definition ws (w : jstring) : Prop := forallb is_ws w = true.

Definition is_digit (c : ascii) : bool :=
  let n := nat_of_ascii c in (48 <=? n)%nat && (n <=? 57)%nat.

Definition is_hex (c : ascii) : bool :=
  let n := nat_of_ascii c in
  is_digit c || ((65 <=? n)%nat && (n <=? 70)%nat)
             || ((97 <=? n)%nat && (n <=? 102)%nat).

(** The characters that may follow a backslash in a string: the quote,
    the backslash, the slash and the letters b f n r t. *)
Definition is_escape (c : ascii) : bool :=
  ch_eqb c dquote || ch_eqb c backslash || ch_eqb c "/" || ch_eqb c "b"
  || ch_eqb c "f" || ch_eqb c "n" || ch_eqb c "r" || ch_eqb c "t".

(** The characters between the quotes of a string. *)
Inductive chars : jstring -> Prop :=
| chars_nil : chars []
| chars_plain c s :
    c <> dquote -> c <> backslash -> (32 <= nat_of_ascii c)%nat ->
    chars s -> chars (c :: s)
| chars_escape c s :
    is_escape c = true -> chars s -> chars (backslash :: c :: s)
| chars_unicode h1 h2 h3 h4 s :
    forallb is_hex [h1; h2; h3; h4] = true -> chars s ->
    chars (backslash :: "u"%char :: h1 :: h2 :: h3 :: h4 :: s).

Inductive string_text : jstring -> Prop :=
| string_intro body : chars body -> string_text (dquote :: body ++ [dquote]).

Definition digits (d : jstring) : Prop := d <> [] /\ forallb is_digit d = true.

(** number = [ minus ] int [ frac ] [ exp ] *)
Inductive number_text : jstring -> Prop :=
| number_intro sign int frac exp :
    (sign = [] \/ sign = ["-"%char]) ->
    (int = ["0"%char] \/ (digits int /\ hd "0"%char int <> "0"%char)) ->
    (frac = [] \/ exists d, digits d /\ frac = "."%char :: d) ->
    (exp = [] \/ exists e s d,
        (e = "e"%char \/ e = "E"%char) /\
        (s = [] \/ s = ["+"%char] \/ s = ["-"%char]) /\
        digits d /\ exp = e :: s ++ d) ->
    number_text (sign ++ int ++ frac ++ exp).

Inductive sort := Value | Element | Elements | Member | Members.

Inductive text : sort -> jstring -> Prop :=
| t_string s : string_text s -> text Value s
| t_number n : number_text n -> text Value n
| t_true : text Value (str "true")
| t_false : text Value (str "false")
| t_null : text Value (str "null")
| t_array_empty w : ws w -> text Value (lbracket :: w ++ [rbracket])
| t_array es : text Elements es -> text Value (lbracket :: es ++ [rbracket])
| t_object_empty w : ws w -> text Value (lbrace :: w ++ [rbrace])
| t_object ms : text Members ms -> text Value (lbrace :: ms ++ [rbrace])
| t_element w1 v w2 :
    ws w1 -> text Value v -> ws w2 -> text Element (w1 ++ v ++ w2)
| t_elements_one e : text Element e -> text Elements e
| t_elements_more e es :
    text Element e -> text Elements es -> text Elements (e ++ comma :: es)
| t_member w1 k w2 e :
    ws w1 -> string_text k -> ws w2 -> text Element e ->
    text Member (w1 ++ k ++ w2 ++ colon :: e)
| t_members_one m : text Member m -> text Members m
| t_members_more m ms :
    text Member m -> text Members ms -> text Members (m ++ comma :: ms).

(** A JSON object: a value that starts with a brace. *)
Inductive object : jstring -> Prop :=
| object_empty w : ws w -> object (lbrace :: w ++ [rbrace])
| object_members ms : text Members ms -> object (lbrace :: ms ++ [rbrace]).

End Json.

(** ** [Buffer.prototype.toString()]: UTF-8 decoding

    A string is kept as its UTF-8 text. Decoding a buffer therefore
    gives its bytes back where they are well formed, and the three bytes
    of U+FFFD for every ill-formed run: the decoder is the UTF-8 decoder
    of the Encoding standard, which the runtime follows, with the
    variables of the standard. *)

Module Utf8.

Record dstate := mkD {
  code_point : Z;
  bytes_seen : Z;
  bytes_needed : Z;
  lower_boundary : Z;
  upper_boundary : Z
}.

Definition start : dstate := mkD 0 0 0 0x80 0xBF.

Definition replacement : Z := 0xFFFD.

(** A byte read while no character is under way: what is emitted and the
    state for the next byte. *)
Definition lead (b : Z) : list Z * dstate :=
  if b <=? 0x7F then ([b], start)
  else if (0xC2 <=? b) && (b <=? 0xDF) then
    ([], mkD (Z.land b 0x1F) 0 1 0x80 0xBF)
  else if (0xE0 <=? b) && (b <=? 0xEF) then
    ([], mkD (Z.land b 0xF) 0 2
             (if b =? 0xE0 then 0xA0 else 0x80)
             (if b =? 0xED then 0x9F else 0xBF))
  else if (0xF0 <=? b) && (b <=? 0xF4) then
    ([], mkD (Z.land b 0x7) 0 3
             (if b =? 0xF0 then 0x90 else 0x80)
             (if b =? 0xF4 then 0x8F else 0xBF))
  else ([replacement], start).

(** The code points of a byte sequence. At the end of the bytes a
    character that is under way is an error; a byte outside the
    boundaries ends the character under way with an error and is read
    again as a first byte. *)
Fixpoint decode (st : dstate) (bs : list Z) : list Z :=
  match bs with
  | [] => if bytes_needed st =? 0 then [] else [replacement]
  | b :: rest =>
      if bytes_needed st =? 0 then
        let (out, st') := lead b in out ++ decode st' rest
      else if (lower_boundary st <=? b) && (b <=? upper_boundary st) then
        let cp := Z.lor (Z.shiftl (code_point st) 6) (Z.land b 0x3F) in
        if bytes_seen st + 1 =? bytes_needed st
        then cp :: decode start rest
        else decode (mkD cp (bytes_seen st + 1) (bytes_needed st) 0x80 0xBF)
                    rest
      else
        let (out, st') := lead b in replacement :: out ++ decode st' rest
  end.

(** The UTF-8 bytes of a code point. *)
Definition encode (cp : Z) : list Z :=
  if cp <? 0x80 then [cp]
  else if cp <? 0x800 then [0xC0 + cp / 64; 0x80 + cp mod 64]
  else if cp <? 0x10000 then
    [0xE0 + cp / 4096; 0x80 + cp / 64 mod 64; 0x80 + cp mod 64]
  else
    [0xF0 + cp / 262144; 0x80 + cp / 4096 mod 64; 0x80 + cp / 64 mod 64;
     0x80 + cp mod 64].

(** [data.toString()] for a [Buffer] holding the bytes [data]. *)
Definition toString (data : list ascii) : jstring :=
  map (fun b => ascii_of_nat (Z.to_nat b))
      (flat_map encode
         (decode start (map (fun c => Z.of_nat (nat_of_ascii c)) data))).

(** A chunk that ends and starts between two characters and holds no
    ill-formed byte. *)
Definition whole (data : list ascii) : Prop := toString data = data.

End Utf8.

(** ** The incremental parser of the upstream stream
    (src/core/gemini-client.js, [curlStreamRequest]) *)

Module StreamParser.

Section Parser.

(** [JSON.parse] is the runtime's; [None] stands for a thrown
    [SyntaxError]. *)
Context {J : Type}.
Variable JSON_parse : jstring -> option J.

(** The variables the [data] handler of [curlStreamRequest] closes over. *)
Record pstate := mkP {
  buffer : jstring;
  chunks : list J;
  inArray : bool;
  braceDepth : Z;
  currentObject : jstring;
  inString : bool;
  escapeNext : bool
}.

Definition initial : pstate :=
  mkP [] [] false 0 [] false false.

Definition set_buffer (st : pstate) (b : jstring) : pstate :=
  mkP b (chunks st) (inArray st) (braceDepth st) (currentObject st)
      (inString st) (escapeNext st).

(** How one turn of the [while] loop ends: [continue] or [break]. *)
Inductive flow := Continue | Break.

Definition is_separator (char : ascii) : bool :=
  ch_eqb char comma || ch_eqb char CR || ch_eqb char LF || ch_eqb char space.

(** One turn of the loop, after [char] was taken from the buffer. The
    branches are the source's [if]s in their order. *)
Definition step (st : pstate) (char : ascii) : pstate * flow :=
  let '(mkP buf chs inA depth cur inS esc) := st in
  if esc then
    (mkP buf chs inA depth (if depth >? 0 then cur ++ [char] else cur) inS false,
     Continue)
  else if ch_eqb char backslash && inS then
    (mkP buf chs inA depth (if depth >? 0 then cur ++ [char] else cur) inS true,
     Continue)
  else if ch_eqb char dquote && (depth >? 0) then
    (mkP buf chs inA depth (cur ++ [char]) (negb inS) esc, Continue)
  else if inS then
    (mkP buf chs inA depth (cur ++ [char]) inS esc, Continue)
  else if ch_eqb char lbracket && negb inA && (depth =? 0) then
    (mkP buf chs true depth cur inS esc, Continue)
  else if ch_eqb char rbracket && inA && (depth =? 0) then
    (st, Break)
  else if (depth =? 0) && is_separator char then
    (st, Continue)
  else if ch_eqb char lbrace then
    (mkP buf chs inA (depth + 1) (cur ++ [char]) inS esc, Continue)
  else if ch_eqb char rbrace then
    let depth' := depth - 1 in
    let cur' := cur ++ [char] in
    if (depth' =? 0) && (0 <? Z.of_nat (List.length cur')) then
      match JSON_parse cur' with
      | Some parsed => (mkP buf (chs ++ [parsed]) inA depth' [] inS esc, Continue)
      | None => (mkP buf chs inA depth' [] inS esc, Continue)
      end
    else
      (mkP buf chs inA depth' cur' inS esc, Continue)
  else if depth >? 0 then
    (mkP buf chs inA depth (cur ++ [char]) inS esc, Continue)
  else
    (st, Continue).

(** [while (buffer.length > 0) { char = buffer[0]; buffer = buffer.slice(1); ... }]:
    a [break] leaves the rest of the buffer for the next [data] event. *)
Fixpoint drain (st : pstate) (buf : jstring) : pstate :=
  match buf with
  | [] => set_buffer st []
  | char :: rest =>
      match step st char with
      | (st', Continue) => drain st' rest
      | (st', Break) => set_buffer st' rest
      end
  end.

(** [buffer += rawData], then the loop. *)
Definition received (st : pstate) (rawData : jstring) : pstate :=
  drain st (buffer st ++ rawData).

(** [curl.stdout.on('data', data => ...)]: every chunk is decoded on its
    own, [rawData = data.toString()]. *)
Definition on_data (st : pstate) (data : list ascii) : pstate :=
  received st (Utf8.toString data).

(** [currentObject.trim()] is truthy iff some character is not white space
    (the ASCII white space of ECMAScript). *)
Definition is_js_space (c : ascii) : bool :=
  ch_eqb c space || ch_eqb c TAB || ch_eqb c LF || ch_eqb c CR
  || ch_eqb c "011"%char || ch_eqb c "012"%char.

Definition trim_nonempty (s : jstring) : bool :=
  existsb (fun c => negb (is_js_space c)) s.

Inductive settled :=
| Resolve (objects : list J)
| Reject (message : jstring).

(** [curl.on('close', code => ...)] *)
Definition on_close (st : pstate) (code : Z) : settled :=
  if negb (code =? 0) then
    Reject (str ("curl exited with code "
                 ++ NilZero.string_of_int (Z.to_int code)))
  else if trim_nonempty (currentObject st) then
    match JSON_parse (currentObject st) with
    | Some parsed => Resolve (chunks st ++ [parsed])
    | None => Resolve (chunks st)
    end
  else Resolve (chunks st).

(** The promise of [curlStreamRequest] when the child process writes
    the byte chunks [datas] to its standard output, one [data] event
    each, and then exits with [code]. *)
Definition curlStreamRequest (datas : list (list ascii)) (code : Z) : settled :=
  on_close (fold_left on_data datas initial) code.

(** The loop run to the end of [t], or [None] when it breaks on the way;
    used to reason about [drain]. *)
Fixpoint scan (st : pstate) (t : jstring) : option pstate :=
  match t with
  | [] => Some st
  | char :: rest =>
      match step st char with
      | (st', Continue) => scan st' rest
      | (_, Break) => None
      end
  end.

(** A text is neutral when the loop, met inside an object and outside a
    string, copies it whole and ends where it began. *)
Definition neutral (t : jstring) : Prop :=
  forall buf chs inA d cur, d > 0 ->
    scan (mkP buf chs inA d cur false false) t =
    Some (mkP buf chs inA d (cur ++ t) false false).

(** The state between two objects of the array. *)
Definition top (buf : jstring) (chs : list J) : pstate :=
  mkP buf chs true 0 [] false false.

(** What the text of one object adds to [chunks]. *)
Definition parsed (o : jstring) : list J :=
  match JSON_parse o with Some v => [v] | None => [] end.

End Parser.

(** The characters that neither open or close an object nor start a
    string. *)
Definition is_plain (c : ascii) : bool :=
  negb (ch_eqb c dquote || ch_eqb c lbrace || ch_eqb c rbrace).

(** The body of the upstream's array: a run of separators, then each
    object followed by a run of separators. *)
Definition separators (s : jstring) : Prop := forallb is_separator s = true.

Definition item_ok (it : jstring * jstring) : Prop :=
  Json.object (fst it) /\ separators (snd it).

Definition array_body (s0 : jstring) (items : list (jstring * jstring)) : jstring :=
  s0 ++ flat_map (fun it => fst it ++ snd it) items.

Definition array_text (s0 : jstring) (items : list (jstring * jstring)) : jstring :=
  lbracket :: array_body s0 items ++ [rbracket].

(** Scenario 6 of the specification: the first object holds a closing
    brace and an opening brace inside a string. *)
Definition scenario6_first : jstring :=
  str "{" ++ [dquote] ++ str "a" ++ [dquote] ++ str ":" ++
  [dquote] ++ str "x},{" ++ [dquote] ++ str "}".

Definition scenario6_second : jstring :=
  str "{" ++ [dquote] ++ str "b" ++ [dquote] ++ str ":2}".

Definition scenario6_items : list (jstring * jstring) :=
  [ (scenario6_first, str " ,  " ++ [CR; LF] ++ str " ");
    (scenario6_second, []) ].

(** The text cut into chunks of one character. *)
Definition scenario6_datas : list jstring :=
  map (fun c => [c]) (array_text [] scenario6_items).

(** An answer in Chinese: the object holds the character U+4E2D, three
    bytes in UTF-8. *)
Definition zhong : jstring := ["228"%char; "184"%char; "173"%char].

Definition U_FFFD : jstring := ["239"%char; "191"%char; "189"%char].

Definition text_object (value : jstring) : jstring :=
  str "{" ++ [dquote] ++ str "text" ++ [dquote] ++ str ":"
  ++ [dquote] ++ value ++ [dquote] ++ str "}".

Definition zhong_items : list (jstring * jstring) :=
  [ (text_object zhong, []) ].

(** The bytes of the array in one chunk, cut after the first byte of
    the character, and cut into chunks of one byte. *)
Definition zhong_whole : list (list ascii) := [array_text [] zhong_items].

Definition zhong_cut : list (list ascii) :=
  [ firstn 11 (array_text [] zhong_items);
    skipn 11 (array_text [] zhong_items) ].

Definition zhong_bytewise : list (list ascii) :=
  map (fun c => [c]) (array_text [] zhong_items).

End StreamParser.

(** ** MD5 (RFC 1321)

    [crypto.createHash('md5').update(text).digest('hex')] is the
    runtime's. It is written out here on 32-bit words held in [Z], so that
    fingerprints can be computed and compared. A string stands for the
    bytes of its UTF-8 encoding. *)

Module MD5.

Definition add32 (a b : Z) : Z := (a + b) mod 2 ^ 32.
Definition not32 (a : Z) : Z := Z.lxor a 0xffffffff.
Definition rotl32 (x n : Z) : Z :=
  Z.lor (Z.shiftl x n mod 2 ^ 32) (Z.shiftr x (32 - n)).

Definition K : list Z :=
  [ 0xd76aa478; 0xe8c7b756; 0x242070db; 0xc1bdceee;
    0xf57c0faf; 0x4787c62a; 0xa8304613; 0xfd469501;
    0x698098d8; 0x8b44f7af; 0xffff5bb1; 0x895cd7be;
    0x6b901122; 0xfd987193; 0xa679438e; 0x49b40821;
    0xf61e2562; 0xc040b340; 0x265e5a51; 0xe9b6c7aa;
    0xd62f105d; 0x02441453; 0xd8a1e681; 0xe7d3fbc8;
    0x21e1cde6; 0xc33707d6; 0xf4d50d87; 0x455a14ed;
    0xa9e3e905; 0xfcefa3f8; 0x676f02d9; 0x8d2a4c8a;
    0xfffa3942; 0x8771f681; 0x6d9d6122; 0xfde5380c;
    0xa4beea44; 0x4bdecfa9; 0xf6bb4b60; 0xbebfbc70;
    0x289b7ec6; 0xeaa127fa; 0xd4ef3085; 0x04881d05;
    0xd9d4d039; 0xe6db99e5; 0x1fa27cf8; 0xc4ac5665;
    0xf4292244; 0x432aff97; 0xab9423a7; 0xfc93a039;
    0x655b59c3; 0x8f0ccc92; 0xffeff47d; 0x85845dd1;
    0x6fa87e4f; 0xfe2ce6e0; 0xa3014314; 0x4e0811a1;
    0xf7537e82; 0xbd3af235; 0x2ad7d2bb; 0xeb86d391 ].

Definition shifts : list Z :=
  [ 7; 12; 17; 22; 7; 12; 17; 22; 7; 12; 17; 22; 7; 12; 17; 22;
    5; 9; 14; 20; 5; 9; 14; 20; 5; 9; 14; 20; 5; 9; 14; 20;
    4; 11; 16; 23; 4; 11; 16; 23; 4; 11; 16; 23; 4; 11; 16; 23;
    6; 10; 15; 21; 6; 10; 15; 21; 6; 10; 15; 21; 6; 10; 15; 21 ].

(** Little-endian bytes of a number, [n] of them. *)
Fixpoint le_bytes (n : nat) (x : Z) : list Z :=
  match n with
  | O => []
  | S n' => x mod 256 :: le_bytes n' (x / 256)
  end.

Definition pad (msg : list Z) : list Z :=
  let len := Z.of_nat (List.length msg) in
  msg ++ [0x80] ++ repeat 0 (Z.to_nat ((55 - len) mod 64))
      ++ le_bytes 8 (8 * len).

Fixpoint words (bs : list Z) : list Z :=
  match bs with
  | b0 :: b1 :: b2 :: b3 :: rest =>
      (b0 + 256 * (b1 + 256 * (b2 + 256 * b3))) :: words rest
  | _ => []
  end.

Definition round (M : list Z) (st : Z * Z * Z * Z) (i : nat) : Z * Z * Z * Z :=
  let '(a, b, c, d) := st in
  let '(f, g) :=
    if (i <? 16)%nat then
      (Z.lor (Z.land b c) (Z.land (not32 b) d), i)
    else if (i <? 32)%nat then
      (Z.lor (Z.land d b) (Z.land (not32 d) c), ((5 * i + 1) mod 16)%nat)
    else if (i <? 48)%nat then
      (Z.lxor (Z.lxor b c) d, ((3 * i + 5) mod 16)%nat)
    else
      (Z.lxor c (Z.lor b (not32 d)), ((7 * i) mod 16)%nat) in
  let f' := add32 (add32 (add32 f a) (nth i K 0)) (nth g M 0) in
  (d, add32 b (rotl32 f' (nth i shifts 0)), b, c).

Definition block (st : Z * Z * Z * Z) (M : list Z) : Z * Z * Z * Z :=
  let '(a0, b0, c0, d0) := st in
  let '(a, b, c, d) := fold_left (round M) (seq 0 64) st in
  (add32 a0 a, add32 b0 b, add32 c0 c, add32 d0 d).

Fixpoint blocks (n : nat) (st : Z * Z * Z * Z) (ws : list Z) : Z * Z * Z * Z :=
  match n with
  | O => st
  | S n' =>
      match ws with
      | [] => st
      | _ => blocks n' (block st (firstn 16 ws)) (skipn 16 ws)
      end
  end.

Definition digest (msg : list Z) : list Z :=
  let ws := words (pad msg) in
  let '(a, b, c, d) :=
    blocks (List.length ws) (0x67452301, 0xefcdab89, 0x98badcfe, 0x10325476) ws in
  le_bytes 4 a ++ le_bytes 4 b ++ le_bytes 4 c ++ le_bytes 4 d.

Definition hex_digit (x : Z) : ascii :=
  nth (Z.to_nat x) (str "0123456789abcdef") "0"%char.

Definition hex (bytes : list Z) : jstring :=
  flat_map (fun b => [hex_digit (b / 16); hex_digit (b mod 16)]) bytes.

Definition byte_of (c : ascii) : Z := Z.of_nat (nat_of_ascii c).

End MD5.

(** ** Session fingerprints (src/utils/hash.js) *)

Module Hash.

(** [md5(text)] *)
Definition md5 (text : jstring) : jstring :=
  MD5.hex (MD5.digest (map MD5.byte_of text)).

(** [Array.prototype.join] *)
Fixpoint join (sep : jstring) (l : list jstring) : jstring :=
  match l with
  | [] => []
  | [x] => x
  | x :: rest => x ++ sep ++ join sep rest
  end.

(** A part of a message: [text] is [None] when the part has no such
    field (an inline-data part). *)
Record part := mkPart { text : option jstring }.

(** A message; [parts] is [None] when the field is missing or is not an
    array. *)
Record message := mkMessage { role : jstring; parts : option (list part) }.

(** [p.text] as a condition: a non-empty string. *)
Definition truthy_text (p : part) : bool :=
  match text p with
  | Some (_ :: _) => true
  | _ => false
  end.

Definition text_of (p : part) : jstring :=
  match text p with Some t => t | None => [] end.

Definition extractTextFromParts (ps : option (list part)) : jstring :=
  match ps with
  | None => []
  | Some ps => join [LF] (map text_of (filter truthy_text ps))
  end.

Definition jstring_eqb (a b : jstring) : bool :=
  if list_eq_dec ascii_dec a b then true else false.

Definition is_user (m : message) : bool := jstring_eqb (role m) (str "user").

(** [a.slice(0, 5)] and [a.slice(-5)] *)
Definition slice_first5 {A} (l : list A) : list A := firstn 5 l.
Definition slice_last5 {A} (l : list A) : list A :=
  skipn (List.length l - 5) l.

Record hashes := mkHashes { headHash : jstring; tailHash : jstring }.

(** [generateSessionHashes(messages)]. [random] is what [randomString(32)]
    draws; [messages] is [None] for a missing value. *)
Definition generateSessionHashes (random : jstring)
    (messages : option (list message)) : hashes :=
  match messages with
  | None | Some [] => mkHashes (md5 random) (md5 random)
  | Some messages =>
      let userMessages := filter is_user messages in
      match userMessages with
      | [] => mkHashes (md5 random) (md5 random)
      | _ =>
          let headMessages := slice_first5 userMessages in
          let headText :=
            join (str "|||")
                 (map (fun m => extractTextFromParts (parts m)) headMessages) in
          let tailMessages := slice_last5 userMessages in
          let tailText :=
            join (str "|||")
                 (map (fun m => extractTextFromParts (parts m)) tailMessages) in
          mkHashes (md5 headText) (md5 tailText)
      end
  end.

(** [getLastMessageText(messages)] *)
Definition getLastMessageText (messages : option (list message)) : jstring :=
  match messages with
  | None | Some [] => []
  | Some (m :: ms) => extractTextFromParts (parts (last ms m))
  end.

(** *** The fingerprints as the specification words them *)

(** The first and the last [k] elements of a list. *)
Definition first_n {A} (k : nat) (l : list A) : list A := firstn k l.
Definition last_n {A} (k : nat) (l : list A) : list A := rev (firstn k (rev l)).

(** The fingerprints of the texts of the user messages: MD5 of the first
    and of the last min(5, n) of them, joined with three bars. *)
Definition fingerprints (texts : list jstring) : hashes :=
  let k := Nat.min 5 (List.length texts) in
  mkHashes (md5 (join (str "|||") (first_n k texts)))
           (md5 (join (str "|||") (last_n k texts))).

(** The text of a message as the newline-join of the text fields of its
    parts, every field counted. *)
Definition text_fields (m : message) : list jstring :=
  match parts m with
  | None => []
  | Some ps =>
      flat_map (fun p => match text p with Some t => [t] | None => [] end) ps
  end.

Definition joined_text_fields (m : message) : jstring :=
  join [LF] (text_fields m).

(** The same with the empty text fields left out. *)
Definition nonempty_text_fields (m : message) : list jstring :=
  filter (fun t => negb (jstring_eqb t [])) (text_fields m).

Definition joined_nonempty_text_fields (m : message) : jstring :=
  join [LF] (nonempty_text_fields m).

(** A user message with an empty text part between two others. *)
Definition message_with_empty_part : message :=
  mkMessage (str "user")
    (Some [mkPart (Some (str "a")); mkPart (Some []); mkPart (Some (str "b"))]).

End Hash.

(** ** The persistent store and the effects of the gateway

    The tables are lists of rows in insertion order. Columns that no
    modelled function reads (names, credentials, creation stamps) are left
    out. Times are epoch milliseconds. *)

Module ProviderRow.

Inductive status_t := active | inactive | cooling | failed.

Definition status_eqb (a b : status_t) : bool :=
  match a, b with
  | active, active | inactive, inactive | cooling, cooling | failed, failed => true
  | _, _ => false
  end.

Record t := mk {
  id : Z;
  group_id : option Z;
  status : status_t;
  health_score : Z;
  current_load : Z;
  max_concurrent : Z;
  total_requests : Z;
  failed_requests : Z;
  consecutive_failures : Z;
  last_failure_at : option Z;
  last_success_at : option Z;
  cooldown_until : option Z
}.

End ProviderRow.

Module SessionRow.

Inductive status_t := active | expired | migrated.

Definition status_eqb (a b : status_t) : bool :=
  match a, b with
  | active, active | expired, expired | migrated, migrated => true
  | _, _ => false
  end.

Record t := mk {
  id : Z;
  provider_id : Z;
  user_id : option Z;
  context_hash_head : jstring;
  context_hash_tail : jstring;
  gemini_session_id : option jstring;
  message_count : Z;
  status : status_t;
  expires_at : option Z;
  last_accessed_at : Z
}.

End SessionRow.

Module LogRow.

Record t := mk {
  user_id : Z;
  api_key_id : Z;
  provider_id : option Z;
  session_id : option Z;
  model : jstring;
  request_type : jstring;
  input_tokens : Z;
  output_tokens : Z;
  latency_ms : Z;
  status_code : Z;
  error_message : option jstring
}.

End LogRow.

Module Db.

(** What the scheduler did to the load counters, in order. *)
Inductive event :=
| Acquired (provider_id : Z)
| Released (provider_id : Z).

(** The store together with what the environment will do next: which of
    the coming database statements are rejected, what [Math.random] and
    [randomString] will draw. The clock stands still during a call. *)
Record world := mkWorld {
  providers : list ProviderRow.t;
  sessions : list SessionRow.t;
  request_logs : list LogRow.t;
  next_session_id : Z;
  clock : Z;
  db_faults : list bool;
  randoms : list Q;
  entropy : list jstring;
  journal : list event
}.

Definition set_providers (w : world) (ps : list ProviderRow.t) : world :=
  mkWorld ps (sessions w) (request_logs w) (next_session_id w) (clock w)
          (db_faults w) (randoms w) (entropy w) (journal w).

Definition set_sessions (w : world) (ss : list SessionRow.t) : world :=
  mkWorld (providers w) ss (request_logs w) (next_session_id w) (clock w)
          (db_faults w) (randoms w) (entropy w) (journal w).

Definition set_request_logs (w : world) (ls : list LogRow.t) : world :=
  mkWorld (providers w) (sessions w) ls (next_session_id w) (clock w)
          (db_faults w) (randoms w) (entropy w) (journal w).

Definition set_next_session_id (w : world) (n : Z) : world :=
  mkWorld (providers w) (sessions w) (request_logs w) n (clock w)
          (db_faults w) (randoms w) (entropy w) (journal w).

Definition set_db_faults (w : world) (fs : list bool) : world :=
  mkWorld (providers w) (sessions w) (request_logs w) (next_session_id w)
          (clock w) fs (randoms w) (entropy w) (journal w).

Definition set_randoms (w : world) (rs : list Q) : world :=
  mkWorld (providers w) (sessions w) (request_logs w) (next_session_id w)
          (clock w) (db_faults w) rs (entropy w) (journal w).

Definition set_entropy (w : world) (es : list jstring) : world :=
  mkWorld (providers w) (sessions w) (request_logs w) (next_session_id w)
          (clock w) (db_faults w) (randoms w) es (journal w).

Definition record_event (w : world) (e : event) : world :=
  mkWorld (providers w) (sessions w) (request_logs w) (next_session_id w)
          (clock w) (db_faults w) (randoms w) (entropy w) (journal w ++ [e]).

(** *** Asynchronous code that may throw

    A computation takes the world, changes it and either returns or
    throws; what it did before throwing stays done. *)

Definition error := jstring.

Inductive outcome (A : Type) :=
| Ok (a : A)
| Throw (e : error).
Arguments Ok {A} a.
Arguments Throw {A} e.

Definition M (A : Type) : Type := world -> outcome A * world.

Definition ret {A} (a : A) : M A := fun w => (Ok a, w).

Definition bind {A B} (c : M A) (k : A -> M B) : M B :=
  fun w =>
    match c w with
    | (Ok a, w') => k a w'
    | (Throw e, w') => (Throw e, w')
    end.

Definition throw {A} (e : error) : M A := fun w => (Throw e, w).

(** [try { c } catch (error) { h error }] *)
Definition try_catch {A} (c : M A) (h : error -> M A) : M A :=
  fun w =>
    match c w with
    | (Ok a, w') => (Ok a, w')
    | (Throw e, w') => h e w'
    end.

Definition get_world : M world := fun w => (Ok w, w).

(** One statement sent to the database: rejected when the environment
    says so, otherwise [run] on the tables. *)
Definition statement {A} (run : world -> A * world) : M A :=
  fun w =>
    match db_faults w with
    | true :: rest => (Throw (str "database error"), set_db_faults w rest)
    | false :: rest =>
        let (a, w') := run (set_db_faults w rest) in (Ok a, w')
    | [] => let (a, w') := run w in (Ok a, w')
    end.

(** [Date.now()], [new Date()], [NOW()] *)
Definition now : M Z := fun w => (Ok (clock w), w).

(** [Math.random()] *)
Definition Math_random : M Q :=
  fun w =>
    match randoms w with
    | r :: rest => (Ok r, set_randoms w rest)
    | [] => (Ok 0%Q, w)
    end.

(** [randomString(32)] *)
Definition randomString : M jstring :=
  fun w =>
    match entropy w with
    | s :: rest => (Ok s, set_entropy w rest)
    | [] => (Ok [], w)
    end.

(** *** Notions for reasoning about the journal

    A computation is calm when, started with no statement to be rejected,
    it leaves it so and does not touch the journal; it returns when it
    then does not throw. A run is quiet when it changes neither. *)
Definition calm {A} (c : M A) : Prop :=
  forall w, db_faults w = [] ->
    db_faults (snd (c w)) = [] /\ journal (snd (c w)) = journal w.

Definition returns {A} (c : M A) : Prop :=
  forall w, db_faults w = [] -> exists a, fst (c w) = Ok a.

Definition quiet {A} (run : world -> A * world) : Prop :=
  forall w, db_faults (snd (run w)) = db_faults w
            /\ journal (snd (run w)) = journal w.

(** Acquisitions each followed by the release of the same provider. *)
Definition paired (ps : list Z) : list event :=
  flat_map (fun p => [Acquired p; Released p]) ps.

(** The process configuration (src/config/index.js). *)
Record config := mkConfig {
  healthThreshold : Z;
  cooldownDuration : Z;
  failureThreshold : Z;
  session_ttl : Z;
  maxPerUser : Z
}.

Definition default_config : config := mkConfig 50 300000 5 3600000 100.

End Db.

Declare Scope gateway_scope.
Delimit Scope gateway_scope with gateway.
Notation "x <- c ;; k" := (Db.bind c (fun x => k))
  (at level 61, c at next level, right associativity) : gateway_scope.
Notation "c ;;; k" := (Db.bind c (fun _ => k))
  (at level 61, right associativity) : gateway_scope.

(** ** The provider model (src/models/provider.js over src/models/base.js) *)

Module Provider.
Import Db ProviderRow.
Local Open Scope gateway_scope.

Section WithConfig.

Variable cfg : config.

(** [UPDATE providers SET ... WHERE id = ?]: the rows that were changed
    are counted. *)
Definition update_rows (target : Z) (set : t -> t) (w : world) : Z * world :=
  (Z.of_nat (List.length (filter (fun p => id p =? target) (providers w))),
   set_providers w
     (map (fun p => if id p =? target then set p else p) (providers w))).

(** [findById(id)]: [SELECT * FROM providers WHERE id = ? LIMIT 1] *)
Definition findById (target : Z) : M (option t) :=
  statement (fun w => (find (fun p => id p =? target) (providers w), w)).

(** [update(id, data)], the changed columns given as a function on the row. *)
Definition update (target : Z) (set : t -> t) : M bool :=
  affected <- statement (update_rows target set) ;;
  ret (affected >? 0).

(** [current_load / max_concurrent] *)
Definition load_ratio (p : t) : Q :=
  (inject_Z (current_load p) / inject_Z (max_concurrent p))%Q.

(** [ORDER BY health_score DESC, (current_load / max_concurrent) ASC] *)
Definition ranks_before (p q : t) : bool :=
  (health_score q <? health_score p)
  || ((health_score p =? health_score q)
      && Qle_bool (load_ratio p) (load_ratio q)).

Fixpoint insert_ranked (p : t) (sorted : list t) : list t :=
  match sorted with
  | [] => [p]
  | q :: rest =>
      if ranks_before p q then p :: q :: rest else q :: insert_ranked p rest
  end.

Definition order_ranked (ps : list t) : list t :=
  fold_right insert_ranked [] ps.

(** [if (groupId)] *)
Definition truthy_id (x : option Z) : bool :=
  match x with
  | Some n => negb (n =? 0)
  | None => false
  end.

Definition same_group (groupId : option Z) (p : t) : bool :=
  match groupId, group_id p with
  | Some g, Some g' => g =? g'
  | _, _ => false
  end.

Definition available (groupId : option Z) (p : t) : bool :=
  status_eqb (status p) active
  && (healthThreshold cfg <=? health_score p)
  && (current_load p <? max_concurrent p)
  && (if truthy_id groupId then same_group groupId p else true).

(** [getAvailableProviders(groupId)] *)
Definition getAvailableProviders (groupId : option Z) : M (list t) :=
  statement (fun w =>
    (firstn 20 (order_ranked (filter (available groupId) (providers w))), w)).

Definition set_load (f : Z -> Z) (p : t) : t :=
  mk (id p) (group_id p) (status p) (health_score p) (f (current_load p))
     (max_concurrent p) (total_requests p) (failed_requests p)
     (consecutive_failures p) (last_failure_at p) (last_success_at p)
     (cooldown_until p).

(** [incrementLoad(id)] *)
Definition incrementLoad (target : Z) : M Z :=
  statement (fun w =>
    let (n, w') := update_rows target (set_load (fun l => l + 1)) w in
    (n, record_event w' (Acquired target))).

(** [decrementLoad(id)]: [GREATEST(0, current_load - 1)] *)
Definition decrementLoad (target : Z) : M Z :=
  statement (fun w =>
    let (n, w') := update_rows target (set_load (fun l => Z.max 0 (l - 1))) w in
    (n, record_event w' (Released target))).

(** [recordSuccess(id)] *)
Definition recordSuccess (target : Z) : M Z :=
  statement (fun w =>
    update_rows target
      (fun p =>
         mk (id p) (group_id p) (status p)
            (Z.min 100 (health_score p + 1)) (current_load p)
            (max_concurrent p) (total_requests p + 1) (failed_requests p)
            0 (last_failure_at p) (Some (clock w)) (cooldown_until p))
      w).

(** [recordFailure(id, errorMessage)] *)
Definition recordFailure (target : Z) (errorMessage : option jstring) : M bool :=
  provider <- findById target ;;
  match provider with
  | None => ret false
  | Some provider =>
      let failures := consecutive_failures provider + 1 in
      let newStatus := status provider in
      time <- now ;;
      (* if (failures >= config.provider.failureThreshold) *)
      let '(newStatus, cooldownUntil) :=
        if failureThreshold cfg <=? failures
        then (cooling, Some (time + cooldownDuration cfg))
        else (newStatus, None) in
      (* if (failures >= config.provider.failureThreshold * 2) *)
      let newStatus :=
        if failureThreshold cfg * 2 <=? failures then failed else newStatus in
      stamp <- now ;;
      update target
        (fun p =>
           mk (id p) (group_id p) newStatus
              (Z.max 0 (health_score provider - 10)) (current_load p)
              (max_concurrent p) (total_requests provider + 1)
              (failed_requests provider + 1) failures (Some stamp)
              (last_success_at p)
              (match cooldownUntil with
               | Some c => Some c
               | None => cooldown_until p
               end))
  end.

End WithConfig.

End Provider.

(** ** The provider scheduler (src/core/provider-scheduler.js) *)

Module ProviderScheduler.
Import Db.
Local Open Scope gateway_scope.

(** The JavaScript value passed as [options.excludeId]: [null], one
    provider id as the documentation of [selectProvider] has it, or the
    array [Array.from(excludeIds)] that [executeWithRetry] passes. *)
Inductive exclude_value :=
| ExNull
| ExId (i : Z)
| ExArray (ids : list Z).

(** [if (excludeId)]: [null] and the number 0 are falsy, every array is
    truthy. *)
Definition truthy_exclude (e : exclude_value) : bool :=
  match e with
  | ExNull => false
  | ExId i => negb (i =? 0)
  | ExArray _ => true
  end.

(** [p.id !== excludeId]: a number is strictly equal to a number of the
    same value and to nothing else, so it is never equal to an array. *)
Definition strict_neq (pid : Z) (e : exclude_value) : bool :=
  match e with
  | ExId i => negb (pid =? i)
  | ExNull | ExArray _ => true
  end.

Section WithConfig.

Variable cfg : config.

(** [p.health_score * (1 - p.current_load / p.max_concurrent)]; the
    floating-point numbers of the source are taken as exact rationals. *)
Definition weight (p : ProviderRow.t) : Q :=
  (inject_Z (ProviderRow.health_score p) * (1 - Provider.load_ratio p))%Q.

(** The [for] loop of [weightedRandom]. *)
Fixpoint pick (random : Q) (ps : list ProviderRow.t) : option ProviderRow.t :=
  match ps with
  | [] => None
  | p :: rest =>
      let random := (random - weight p)%Q in
      if Qle_bool random 0 then Some p else pick random rest
  end.

(** [weightedRandom(providers)] given the draw of [Math.random()];
    [None] is [undefined] ([providers[0]] of an empty array). *)
Definition weightedRandom (draw : Q) (ps : list ProviderRow.t)
  : option ProviderRow.t :=
  let totalWeight := fold_left Qplus (map weight ps) 0%Q in
  match pick (draw * totalWeight)%Q ps with
  | Some p => Some p
  | None => hd_error ps
  end.

(** [selectProvider({ groupId, excludeId })] *)
Definition selectProvider (groupId : option Z) (excludeId : exclude_value)
  : M ProviderRow.t :=
  providers <- Provider.getAvailableProviders cfg groupId ;;
  let candidates :=
    if truthy_exclude excludeId
    then filter (fun p => strict_neq (ProviderRow.id p) excludeId) providers
    else providers in
  match candidates with
  | [] => throw (str "No available provider")
  | _ =>
      draw <- Math_random ;;
      match weightedRandom draw candidates with
      | Some selected => ret selected
      | None =>
          throw (str "Cannot read properties of undefined (reading 'id')")
      end
  end.

(** [acquireProvider(options)] *)
Definition acquireProvider (groupId : option Z) (excludeId : exclude_value)
  : M ProviderRow.t :=
  provider <- selectProvider groupId excludeId ;;
  Provider.incrementLoad (ProviderRow.id provider) ;;;
  ret provider.

(** [releaseProvider(providerId)] *)
Definition releaseProvider (providerId : Z) : M unit :=
  Provider.decrementLoad providerId ;;; ret tt.

(** [recordSuccess(providerId)] *)
Definition recordSuccess (providerId : Z) : M unit :=
  Provider.recordSuccess providerId ;;; ret tt.

(** [recordFailure(providerId, errorMessage)] *)
Definition recordFailure (providerId : Z) (errorMessage : jstring) : M unit :=
  Provider.recordFailure cfg providerId (Some errorMessage) ;;; ret tt.

(** [excludeIds.add(id)] on a [Set], kept in insertion order. *)
Definition set_add (i : Z) (s : list Z) : list Z :=
  if existsb (Z.eqb i) s then s else s ++ [i].

Section Retry.

Context {R : Type}.
Variable operation : ProviderRow.t -> M R.
Variable groupId : option Z.
Variable onProviderChange : option (Z -> error -> M unit).

(** The [for] loop of [executeWithRetry] with [attempts] turns left. *)
Fixpoint retry_loop (attempts : nat) (lastError : option error)
    (excludeIds : list Z) : M (R * ProviderRow.t) :=
  match attempts with
  | O =>
      throw (match lastError with
             | Some e => e
             | None => str "All providers failed"
             end)
  | S attempts' =>
      provider <- acquireProvider groupId
                    (match excludeIds with
                     | [] => ExNull
                     | _ => ExArray excludeIds
                     end) ;;
      let pid := ProviderRow.id provider in
      outcome <-
        try_catch
          (result <- operation provider ;;
           recordSuccess pid ;;;
           releaseProvider pid ;;;
           ret (inl (result, provider)))
          (fun error =>
             recordFailure pid error ;;;
             releaseProvider pid ;;;
             match onProviderChange with
             | Some notify => notify pid error
             | None => ret tt
             end ;;;
             ret (inr error)) ;;
      match outcome with
      | inl done => ret done
      | inr error => retry_loop attempts' (Some error) (set_add pid excludeIds)
      end
  end.

(** [executeWithRetry(operation, { maxRetries, groupId, onProviderChange })] *)
Definition executeWithRetry (maxRetries : nat) : M (R * ProviderRow.t) :=
  retry_loop maxRetries None [].

End Retry.

End WithConfig.

(** *** A pool of one provider and an operation that always fails *)

Definition healthy_provider (i : Z) : ProviderRow.t :=
  ProviderRow.mk i None ProviderRow.active 100 0 10 0 0 0 None None None.

Definition world_of (ps : list ProviderRow.t) : world :=
  mkWorld ps [] [] 1 1700000000000 [] [] [] [].

Definition failing_operation (p : ProviderRow.t) : M unit :=
  throw (str "upstream failed").

(** The providers acquired during a run, in order. *)
Definition acquisitions (w : world) : list Z :=
  flat_map (fun e => match e with Acquired i => [i] | Released _ => [] end)
           (journal w).

Definition releases (w : world) : list Z :=
  flat_map (fun e => match e with Released i => [i] | Acquired _ => [] end)
           (journal w).

(** A provider fit for [n] attempts that all fail: active, with room for
    load, and far enough from the health and failure thresholds to stay
    a candidate after [n - 1] failures. *)
Definition fit (cfg : config) (n : Z) (p : ProviderRow.t) : Prop :=
  ProviderRow.status p = ProviderRow.active
  /\ 0 <= ProviderRow.current_load p < ProviderRow.max_concurrent p
  /\ healthThreshold cfg + 10 * (n - 1) <= ProviderRow.health_score p
  /\ 0 <= ProviderRow.consecutive_failures p
  /\ ProviderRow.consecutive_failures p + n <= failureThreshold cfg.

(** Three attempts on the pool of provider 1 alone, and on the pool of
    providers 1 and 2. *)
Definition retry_alone : outcome (unit * ProviderRow.t) * world :=
  executeWithRetry default_config failing_operation None None 3
    (world_of [healthy_provider 1]).

Definition retry_pair : outcome (unit * ProviderRow.t) * world :=
  executeWithRetry default_config failing_operation None None 3
    (world_of [healthy_provider 1; healthy_provider 2]).

(** One attempt whose failure cannot be recorded: the statement of
    [recordFailure] that reads the provider back (the third statement of
    the run) is rejected. *)
Definition retry_unrecorded : outcome (unit * ProviderRow.t) * world :=
  executeWithRetry default_config failing_operation None None 3
    (set_db_faults (world_of [healthy_provider 1]) [false; false; true]).

End ProviderScheduler.

(** ** The session model (src/models/session.js over src/models/base.js) *)

Module Session.
Import Db SessionRow.
Local Open Scope gateway_scope.

Inductive match_type := exact | head | none | new.

Section WithConfig.

Variable cfg : config.

(** [JOIN providers p ON s.provider_id = p.id ... AND p.status = 'active'] *)
Definition provider_active (w : world) (pid : Z) : bool :=
  existsb (fun p => (ProviderRow.id p =? pid)
                    && ProviderRow.status_eqb (ProviderRow.status p)
                                              ProviderRow.active)
          (providers w).

Definition user_is (userId : Z) (s : t) : bool :=
  match user_id s with
  | Some u => u =? userId
  | None => false
  end.

(** The [WHERE] clause of the first query. *)
Definition exact_row (w : world) (userId : Z) (headHash tailHash : jstring)
    (s : t) : bool :=
  user_is userId s
  && Hash.jstring_eqb (context_hash_head s) headHash
  && Hash.jstring_eqb (context_hash_tail s) tailHash
  && status_eqb (status s) active
  && provider_active w (provider_id s).

(** The [WHERE] clause of the second query. *)
Definition head_row (w : world) (userId : Z) (headHash : jstring)
    (s : t) : bool :=
  user_is userId s
  && Hash.jstring_eqb (context_hash_head s) headHash
  && status_eqb (status s) active
  && provider_active w (provider_id s).

(** [ORDER BY last_accessed_at DESC LIMIT 1]; among rows of the same
    stamp the earliest inserted is taken. *)
Definition newer (best : option t) (s : t) : option t :=
  match best with
  | None => Some s
  | Some b => if last_accessed_at b <? last_accessed_at s then Some s else Some b
  end.

Definition newest (rows : list t) : option t := fold_left newer rows None.

(** [ORDER BY last_accessed_at ASC LIMIT 1] *)
Definition older (best : option t) (s : t) : option t :=
  match best with
  | None => Some s
  | Some b => if last_accessed_at s <? last_accessed_at b then Some s else Some b
  end.

Definition oldest (rows : list t) : option t := fold_left older rows None.

(** [UPDATE sessions SET ... WHERE id = ?] *)
Definition update_rows (target : Z) (set : t -> t) (w : world) : Z * world :=
  (Z.of_nat (List.length (filter (fun s => id s =? target) (sessions w))),
   set_sessions w
     (map (fun s => if id s =? target then set s else s) (sessions w))).

Definition update (target : Z) (set : t -> t) : M bool :=
  affected <- statement (update_rows target set) ;;
  ret (affected >? 0).

Definition findById (target : Z) : M (option t) :=
  statement (fun w => (find (fun s => id s =? target) (sessions w), w)).

Definition set_tail (tailHash : jstring) (stamp : Z) (s : t) : t :=
  mk (id s) (provider_id s) (user_id s) (context_hash_head s) tailHash
     (gemini_session_id s) (message_count s) (status s) (expires_at s) stamp.

(** [findMatchingSession(userId, headHash, tailHash)] *)
Definition findMatchingSession (userId : Z) (headHash tailHash : jstring)
  : M (option t * match_type) :=
  session <- statement (fun w =>
    (newest (filter (exact_row w userId headHash tailHash) (sessions w)), w)) ;;
  match session with
  | Some session => ret (Some session, exact)
  | None =>
      session <- statement (fun w =>
        (newest (filter (head_row w userId headHash) (sessions w)), w)) ;;
      match session with
      | Some session =>
          stamp <- now ;;
          update (id session) (set_tail tailHash stamp) ;;;
          ret (Some session, head)
      | None => ret (None, none)
      end
  end.

Definition active_of (userId : Z) (s : t) : bool :=
  user_is userId s && status_eqb (status s) active.

(** [DELETE FROM sessions WHERE user_id = ? AND status = 'active'
     ORDER BY last_accessed_at ASC LIMIT 1] *)
Fixpoint remove_row (target : Z) (rows : list t) : list t :=
  match rows with
  | [] => []
  | s :: rest => if id s =? target then rest else s :: remove_row target rest
  end.

Definition delete_oldest (userId : Z) (w : world) : Z * world :=
  match oldest (filter (active_of userId) (sessions w)) with
  | Some s => (1, set_sessions w (remove_row (id s) (sessions w)))
  | None => (0, w)
  end.

(** [createSession({ providerId, userId, headHash, tailHash })] *)
Definition createSession (providerId userId : Z) (headHash tailHash : jstring)
  : M (option t) :=
  (if negb (userId =? 0) then
     count <- statement (fun w =>
       (Z.of_nat (List.length (filter (active_of userId) (sessions w))), w)) ;;
     if maxPerUser cfg <=? count
     then statement (delete_oldest userId) ;;; ret tt
     else ret tt
   else ret tt) ;;;
  time <- now ;;
  let expiresAt := time + session_ttl cfg in
  (* create: INSERT, then findById(insertId) *)
  newId <- statement (fun w =>
    let i := next_session_id w in
    (i, set_next_session_id
          (set_sessions w
             (sessions w ++
              [mk i providerId (Some userId) headHash tailHash None 0 active
                  (Some expiresAt) (clock w)]))
          (i + 1))) ;;
  findById newId.

Definition set_gemini (g : jstring) (stamp : Z) (s : t) : t :=
  mk (id s) (provider_id s) (user_id s) (context_hash_head s)
     (context_hash_tail s) (Some g) (message_count s) (status s)
     (expires_at s) stamp.

(** [updateGeminiSessionId(id, geminiSessionId)] *)
Definition updateGeminiSessionId (target : Z) (g : jstring) : M bool :=
  stamp <- now ;;
  update target (set_gemini g stamp).

(** [incrementMessageCount(id)] *)
Definition incrementMessageCount (target : Z) : M Z :=
  statement (fun w =>
    update_rows target
      (fun s =>
         mk (id s) (provider_id s) (user_id s) (context_hash_head s)
            (context_hash_tail s) (gemini_session_id s) (message_count s + 1)
            (status s) (Some (clock w + session_ttl cfg)) (clock w))
      w).

End WithConfig.

(** *** A store with two sessions of one conversation *)

Definition session_of (i : Z) (tail : jstring) (accessed : Z) : SessionRow.t :=
  SessionRow.mk i 1 (Some 7) (str "head") tail None 1 SessionRow.active
                (Some 1700003600000) accessed.

Definition two_sessions : Db.world :=
  Db.mkWorld [ProviderScheduler.healthy_provider 1]
             [session_of 1 (str "tail-a") 100; session_of 2 (str "tail-b") 200]
             [] 3 1700000000000 [] [] [] [].

End Session.

(** ** The session matcher (src/core/session-matcher.js) *)

Module SessionMatcher.
Import Db.
Local Open Scope gateway_scope.

(** The value of [contents] in a request body: missing ([undefined]),
    [null], a value that the guards [!messages || messages.length === 0]
    take for an empty list without its being one (0, the empty string,
    [false]), any other value that is not an array (an object, another
    number, a non-empty string, [true]), or an array of messages. *)
Inductive contents :=
| CMissing
| CNull
| CFalsy
| CNotArray
| CMessages (messages : list Hash.message).

Section WithConfig.

Variable cfg : config.

(** [generateSessionHashes(messages)] with its draw of [randomString],
    made only on the two paths that need it. Calling [filter] on a value
    that is not an array throws a [TypeError]; the texts thrown here and
    below are the [message] of the error. *)
Definition generateSessionHashes (messages : contents) : M Hash.hashes :=
  match messages with
  | CMissing | CNull | CFalsy =>
      random <- randomString ;; ret (Hash.generateSessionHashes random None)
  | CNotArray => throw (str "messages.filter is not a function")
  | CMessages ms =>
      match filter Hash.is_user ms with
      | [] =>
          random <- randomString ;;
          ret (Hash.generateSessionHashes random (Some ms))
      | _ => ret (Hash.generateSessionHashes [] (Some ms))
      end
  end.

(** [messages.length], read for the debug record. *)
Definition messages_length (messages : contents) : M Z :=
  match messages with
  | CMissing =>
      throw (str "Cannot read properties of undefined (reading 'length')")
  | CNull =>
      throw (str "Cannot read properties of null (reading 'length')")
  | CFalsy | CNotArray => ret 0
  | CMessages ms => ret (Z.of_nat (List.length ms))
  end.

(** [matchOrCreate({ userId, providerId, messages })] *)
Definition matchOrCreate (userId providerId : Z) (messages : contents)
  : M (SessionRow.t * bool * Session.match_type) :=
  hashes <- generateSessionHashes messages ;;
  messages_length messages ;;;
  found <- Session.findMatchingSession userId
             (Hash.headHash hashes) (Hash.tailHash hashes) ;;
  match found with
  | (Some session, matchType) => ret (session, false, matchType)
  | (None, _) =>
      if providerId =? 0 then
        throw (str "Provider ID required for new session")
      else
        newSession <- Session.createSession cfg providerId userId
                        (Hash.headHash hashes) (Hash.tailHash hashes) ;;
        match newSession with
        | Some newSession => ret (newSession, true, Session.new)
        | None => throw (str "Cannot read properties of null (reading 'id')")
        end
  end.

(** [updateGeminiSession(sessionId, geminiSessionId)] *)
Definition updateGeminiSession (sessionId : Z) (g : jstring) : M unit :=
  Session.updateGeminiSessionId sessionId g ;;; ret tt.

(** [recordMessage(sessionId)] *)
Definition recordMessage (sessionId : Z) : M unit :=
  Session.incrementMessageCount cfg sessionId ;;; ret tt.

End WithConfig.

End SessionMatcher.

(** ** Texts as UTF-16 code units

    [text.length] and the character class of [_estimateTokens] count
    UTF-16 code units, so the bytes of a text are decoded first. *)

Module Utf16.

Definition cont (b : Z) : Z := Z.land b 0x3f.

(** The code points of well-formed UTF-8; a lead byte cut short gives
    U+FFFD. *)
Fixpoint code_points (bs : list Z) : list Z :=
  match bs with
  | [] => []
  | b0 :: rest =>
      if b0 <? 0x80 then b0 :: code_points rest
      else if b0 <? 0xE0 then
        match rest with
        | b1 :: r => (Z.shiftl (Z.land b0 0x1f) 6 + cont b1) :: code_points r
        | _ => [0xFFFD]
        end
      else if b0 <? 0xF0 then
        match rest with
        | b1 :: b2 :: r =>
            (Z.shiftl (Z.land b0 0x0f) 12 + Z.shiftl (cont b1) 6 + cont b2)
            :: code_points r
        | _ => [0xFFFD]
        end
      else
        match rest with
        | b1 :: b2 :: b3 :: r =>
            (Z.shiftl (Z.land b0 0x07) 18 + Z.shiftl (cont b1) 12
             + Z.shiftl (cont b2) 6 + cont b3)
            :: code_points r
        | _ => [0xFFFD]
        end
  end.

(** A code point above U+FFFF takes two code units. *)
Definition units_of (cp : Z) : list Z :=
  if cp <? 0x10000 then [cp]
  else [0xD800 + Z.shiftr (cp - 0x10000) 10; 0xDC00 + Z.land (cp - 0x10000) 0x3ff].

Definition code_units (text : jstring) : list Z :=
  flat_map units_of (code_points (map MD5.byte_of text)).

End Utf16.

(** ** The request executor (src/core/request-executor.js) *)

Module RequestExecutor.
Import Db.
Local Open Scope gateway_scope.

(** *** What the upstream answers *)

(** [reply.groundedContent.content] *)
Record reply_content := mkContent {
  text : option jstring;
  thought : bool        (* [content.thought === true] *)
}.

Record answer_t := mkAnswer {
  state : option jstring;
  replies : option (list (option reply_content))
}.

Record stream_response := mkStreamResponse {
  answer : option answer_t;
  sessionInfo : option jstring
}.

Record chunk := mkChunk { streamAssistResponse : option stream_response }.

Record parsed_t := mkParsed {
  thoughts : list (option jstring);
  content : jstring;
  parsed_state : jstring;
  parsed_sessionInfo : option jstring
}.

Definition truthy (s : option jstring) : bool :=
  match s with
  | Some (_ :: _) => true
  | _ => false
  end.

Definition or_empty (s : option jstring) : jstring :=
  match s with Some t => t | None => [] end.

(** [parseResponse(chunks)] of the client (src/core/gemini-client.js) *)
Definition parse_reply (result : parsed_t) (reply : option reply_content)
  : parsed_t :=
  match reply with
  | None => result
  | Some c =>
      if thought c then
        mkParsed (thoughts result ++ [text c]) (content result)
                 (parsed_state result) (parsed_sessionInfo result)
      else if truthy (text c) then
        mkParsed (thoughts result) (content result ++ or_empty (text c))
                 (parsed_state result) (parsed_sessionInfo result)
      else result
  end.

Definition parse_chunk (result : parsed_t) (c : chunk) : parsed_t :=
  match streamAssistResponse c with
  | None => result
  | Some response =>
      match answer response with
      | None => result
      | Some answer =>
          let result :=
            if truthy (state answer)
            then mkParsed (thoughts result) (content result)
                          (or_empty (state answer)) (parsed_sessionInfo result)
            else result in
          let result :=
            if truthy (sessionInfo response)
            then mkParsed (thoughts result) (content result)
                          (parsed_state result) (sessionInfo response)
            else result in
          match replies answer with
          | None => result
          | Some rs => fold_left parse_reply rs result
          end
      end
  end.

Definition parseResponse (chunks : list chunk) : parsed_t :=
  fold_left parse_chunk chunks (mkParsed [] [] (str "UNKNOWN") None).

(** What the upstream does during one request: the result of each call
    the executor makes on the client. *)
Record image_data := mkImage { mimeType : jstring; data : jstring }.

Record upstream := mkUpstream {
  createSession : outcome jstring;
  sendMessage : outcome (list chunk);
  fetchedImage : outcome (option image_data)
}.

(** *** Token estimates *)

(** The class of [text.match(...)]: U+4E00 to U+9FFF. *)
Definition is_chinese (u : Z) : bool := (0x4e00 <=? u) && (u <=? 0x9fff).

(** [_estimateTokens(text)]: [Math.ceil(chineseChars / 1.5 + otherChars / 4)],
    the division taken exactly. *)
Definition _estimateTokens (text : option jstring) : Z :=
  if truthy text then
    let units := Utf16.code_units (or_empty text) in
    let chineseChars := Z.of_nat (List.length (filter is_chinese units)) in
    let otherChars := Z.of_nat (List.length units) - chineseChars in
    Qceiling (inject_Z chineseChars / (3 # 2) + inject_Z otherChars / 4)%Q
  else 0.

(** *** The response *)

Inductive response_part :=
| ThoughtPart (text : option jstring)
| TextPart (text : jstring)
| InlineData (mimeType data : jstring).

Inductive finish_reason := STOP | MAX_TOKENS.

Record usage := mkUsage {
  promptTokenCount : Z;
  candidatesTokenCount : Z;
  totalTokenCount : Z
}.

(** The four safety ratings are constant and left out. *)
Record response := mkResponse {
  parts : list response_part;
  finishReason : finish_reason;
  usageMetadata : usage;
  modelVersion : jstring
}.

(** [_buildResponse(parsed, imageData, model, thinkingConfig)];
    [includeThoughts] is [thinkingConfig?.includeThoughts] as a condition. *)
Definition _buildResponse (parsed : parsed_t) (imageData : option image_data)
    (model : jstring) (includeThoughts : bool) : response :=
  let parts :=
    (if includeThoughts && (0 <? Z.of_nat (List.length (thoughts parsed)))
     then map ThoughtPart (thoughts parsed) else [])
    ++ (if truthy (Some (content parsed)) then [TextPart (content parsed)] else [])
    ++ (match imageData with
        | Some img => [InlineData (mimeType img) (data img)]
        | None => []
        end) in
  let promptTokens := _estimateTokens (Some (content parsed)) in
  let candidateTokens :=
    _estimateTokens (Some (content parsed))
    + fold_left (fun sum t => sum + _estimateTokens t) (thoughts parsed) 0 in
  mkResponse parts
    (if Hash.jstring_eqb (parsed_state parsed) (str "SUCCEEDED")
     then STOP else MAX_TOKENS)
    (mkUsage promptTokens candidateTokens (promptTokens + candidateTokens))
    (match model with [] => str "gemini-2.0-flash-exp" | _ => model end).

(** *** Media intent *)

Definition lower (c : ascii) : ascii :=
  let n := nat_of_ascii c in
  if (65 <=? n)%nat && (n <=? 90)%nat then ascii_of_nat (n + 32) else c.

Definition upper (c : ascii) : ascii :=
  let n := nat_of_ascii c in
  if (97 <=? n)%nat && (n <=? 122)%nat then ascii_of_nat (n - 32) else c.

(** [s.toUpperCase()] and [s.toLowerCase()] on the UTF-8 text, as far as
    [_wantsImage] can tell: the results are only compared with IMAGE and
    searched for words of ASCII letters and of characters without case.
    Besides the ASCII letters, the one character whose upper case is a
    single letter of IMAGE is U+0131 (bytes 196 177, upper case I), and
    the characters whose lower case holds an ASCII letter are U+212A
    (bytes 226 132 170, lower case k) and U+0130 (bytes 196 176, lower
    case i followed by U+0307). Every other character is left as it
    is. *)
Fixpoint toUpperCase (s : jstring) : jstring :=
  match s with
  | [] => []
  | c :: rest =>
      match rest with
      | d :: rest' =>
          if ch_eqb c "196"%char && ch_eqb d "177"%char
          then "I"%char :: toUpperCase rest'
          else upper c :: toUpperCase rest
      | [] => [upper c]
      end
  end.

Fixpoint toLowerCase (s : jstring) : jstring :=
  match s with
  | [] => []
  | c :: rest =>
      match rest with
      | d :: rest' =>
          if ch_eqb c "196"%char && ch_eqb d "176"%char
          then "i"%char :: "204"%char :: "135"%char :: toLowerCase rest'
          else
            match rest' with
            | e :: rest'' =>
                if ch_eqb c "226"%char && ch_eqb d "132"%char
                   && ch_eqb e "170"%char
                then "k"%char :: toLowerCase rest''
                else lower c :: toLowerCase rest
            | [] => lower c :: toLowerCase rest
            end
      | [] => [lower c]
      end
  end.

Fixpoint starts_with (prefix s : jstring) : bool :=
  match prefix, s with
  | [], _ => true
  | p :: prefix', c :: s' => ch_eqb p c && starts_with prefix' s'
  | _ :: _, [] => false
  end.

Fixpoint includes (s kw : jstring) : bool :=
  starts_with kw s
  || match s with
     | [] => false
     | _ :: s' => includes s' kw
     end.

Definition bytes (l : list nat) : jstring := map ascii_of_nat l.

(** The keywords of [_wantsImage]; the four Chinese ones by their bytes. *)
Definition keywords : list jstring :=
  [ bytes [231; 148; 187]%nat;
    bytes [231; 187; 152]%nat;
    bytes [231; 148; 159; 230; 136; 144; 229; 155; 190]%nat;
    bytes [229; 155; 190; 231; 137; 135]%nat;
    str "draw"; str "paint"; str "generate image"; str "picture" ].

(** [_wantsImage(generationConfig, query)] *)
Definition _wantsImage (responseModalities : list jstring) (query : jstring)
  : bool :=
  existsb (fun m => Hash.jstring_eqb (toUpperCase m) (str "IMAGE"))
          responseModalities
  || existsb (fun kw => includes (toLowerCase query) kw) keywords.

(** *** The request log (src/models/request-log.js) *)

(** [RequestLog.log(data)]: [create] inserts the row and reads it back. *)
Definition RequestLog_log (row : LogRow.t) : M unit :=
  statement (fun w => (tt, set_request_logs w (request_logs w ++ [row]))) ;;;
  statement (fun w => (tt, w)).

(** *** [generateContent] *)

Record options := mkOptions {
  userId : Z;
  apiKeyId : Z;
  model : jstring;
  contents : SessionMatcher.contents;
  responseModalities : list jstring;
  includeThoughts : bool
}.

Definition lift {A} (o : outcome A) : M A := fun w => (o, w).

Section WithConfig.

Variable cfg : config.
Variable up : upstream.

Definition contents_messages (c : SessionMatcher.contents)
  : option (list Hash.message) :=
  match c with
  | SessionMatcher.CMessages ms => Some ms
  | _ => None
  end.

(** [_fetchImage(client, sessionName)]: its own [try] swallows every
    failure. *)
Definition _fetchImage : M (option image_data) :=
  match fetchedImage up with
  | Ok img => ret img
  | Throw _ => ret None
  end.

(** The [catch] block, with the values [providerId] and [sessionId] have
    when the exception arrives. *)
Definition failed (o : options) (providerId sessionId : option Z)
    {A} (error : error) : M A :=
  match providerId with
  | Some pid =>
      if negb (pid =? 0) then
        ProviderScheduler.releaseProvider pid ;;;
        ProviderScheduler.recordFailure cfg pid error
      else ret tt
  | None => ret tt
  end ;;;
  RequestLog_log
    (LogRow.mk (userId o) (apiKeyId o) providerId sessionId (model o)
               (str "generateContent") 0 0 0 500 (Some error)) ;;;
  throw error.

(** [generateContent(options)]. The one [try] of the source is entered
    three times in a row, once for each value the pair [providerId],
    [sessionId] takes; as the handler always throws, nothing runs after
    it. *)
Definition generateContent (o : options) : M response :=
  (* const provider = await providerScheduler.acquireProvider() *)
  provider <- try_catch (ProviderScheduler.acquireProvider cfg None
                           ProviderScheduler.ExNull)
                        (failed o None None) ;;
  let providerId := ProviderRow.id provider in
  matched <- try_catch (SessionMatcher.matchOrCreate cfg (userId o) providerId
                          (contents o))
                       (failed o (Some providerId) None) ;;
  let '(session, isNew, _) := matched in
  let sessionId := SessionRow.id session in
  try_catch
    (let query := Hash.getLastMessageText (contents_messages (contents o)) in
     geminiSessionId <-
       (if truthy (SessionRow.gemini_session_id session)
        then ret (or_empty (SessionRow.gemini_session_id session))
        else
          name <- lift (createSession up) ;;
          SessionMatcher.updateGeminiSession sessionId name ;;;
          ret name) ;;
     rawResponse <- lift (sendMessage up) ;;
     let parsed := parseResponse rawResponse in
     let wantsImage := _wantsImage (responseModalities o) query in
     imageData <- (if wantsImage then _fetchImage else ret None) ;;
     let response :=
       _buildResponse parsed imageData (model o) (includeThoughts o) in
     SessionMatcher.recordMessage cfg sessionId ;;;
     ProviderScheduler.releaseProvider providerId ;;;
     ProviderScheduler.recordSuccess providerId ;;;
     RequestLog_log
       (LogRow.mk (userId o) (apiKeyId o) (Some providerId) (Some sessionId)
                  (model o) (str "generateContent")
                  (promptTokenCount (usageMetadata response))
                  (candidatesTokenCount (usageMetadata response))
                  0 200 None) ;;;
     ret response)
    (failed o (Some providerId) (Some sessionId)).

End WithConfig.

(** The sum of a list of counts. *)
Definition total (l : list Z) : Z := fold_right Z.add 0 l.

(** *** Scenarios *)

Definition hello : Hash.message :=
  Hash.mkMessage (str "user") (Some [Hash.mkPart (Some (str "Hello"))]).

Definition text_chunk (t : jstring) : chunk :=
  mkChunk (Some (mkStreamResponse
    (Some (mkAnswer (Some (str "SUCCEEDED"))
                    (Some [Some (mkContent (Some t) false)])))
    None)).

(** An upstream that answers every call. *)
Definition upstream_ok : upstream :=
  mkUpstream (Ok (str "sessions/1")) (Ok [text_chunk (str "Hi there")]) (Ok None).

Definition request (c : SessionMatcher.contents) : options :=
  mkOptions 7 3 (str "gemini-2.0-flash-exp") c [] false.

(** A provider that already serves one other request. *)
Definition busy_provider (i : Z) : ProviderRow.t :=
  ProviderRow.mk i None ProviderRow.active 100 1 10 0 0 0 None None None.

(** Scenario 1 of the specification. *)
Definition fresh_conversation : outcome response * world :=
  generateContent default_config upstream_ok
    (request (SessionMatcher.CMessages [hello]))
    (ProviderScheduler.world_of [ProviderScheduler.healthy_provider 1]).

(** A body without [contents], and one whose [contents] is not an array. *)
Definition missing_contents : outcome response * world :=
  generateContent default_config upstream_ok (request SessionMatcher.CMissing)
    (ProviderScheduler.world_of [ProviderScheduler.healthy_provider 1]).

Definition malformed_contents : outcome response * world :=
  generateContent default_config upstream_ok (request SessionMatcher.CNotArray)
    (ProviderScheduler.world_of [ProviderScheduler.healthy_provider 1]).

(** A good request during which the database rejects the [INSERT] of the
    request log row, the twelfth statement of the call: the provider was
    released two statements earlier. *)
Definition success_unlogged : outcome response * world :=
  generateContent default_config upstream_ok
    (request (SessionMatcher.CMessages [hello]))
    (set_db_faults (ProviderScheduler.world_of [busy_provider 1])
                   (repeat false 11 ++ [true])).

End RequestExecutor.

(** ** Base64 ([Buffer.from(...).toString('base64')] and back) *)

Module Base64.

Definition alphabet : jstring :=
  str "ABCDEFGHIJKLMNOPQRSTUVWXYZabcdefghijklmnopqrstuvwxyz0123456789+/".

Definition digit (n : Z) : ascii := nth (Z.to_nat n) alphabet "A"%char.

Fixpoint encode (bs : list Z) : jstring :=
  match bs with
  | [] => []
  | [a] => [digit (a / 4); digit (a mod 4 * 16); "="%char; "="%char]
  | [a; b] =>
      [digit (a / 4); digit (a mod 4 * 16 + b / 16); digit (b mod 16 * 4);
       "="%char]
  | a :: b :: c :: rest =>
      digit (a / 4) :: digit (a mod 4 * 16 + b / 16)
      :: digit (b mod 16 * 4 + c / 64) :: digit (c mod 64) :: encode rest
  end.

Fixpoint index_of (c : ascii) (l : jstring) (i : Z) : option Z :=
  match l with
  | [] => None
  | x :: rest => if ch_eqb c x then Some i else index_of c rest (i + 1)
  end.

(** The decoder skips what is not in the alphabet and stops at the
    padding. *)
Fixpoint values (s : jstring) : list Z :=
  match s with
  | [] => []
  | c :: rest =>
      if ch_eqb c "="%char then []
      else match index_of c alphabet 0 with
           | Some v => v :: values rest
           | None => values rest
           end
  end.

Fixpoint bytes_of_values (vs : list Z) : list Z :=
  match vs with
  | a :: b :: c :: d :: rest =>
      (a * 4 + b / 16) :: (b mod 16 * 16 + c / 4) :: (c mod 4 * 64 + d)
      :: bytes_of_values rest
  | [a; b; c] => [a * 4 + b / 16; b mod 16 * 16 + c / 4]
  | [a; b] => [a * 4 + b / 16]
  | _ => []
  end.

Definition decode (s : jstring) : list Z := bytes_of_values (values s).

End Base64.

(** ** The bearer token (src/core/gemini-client.js, [_buildBearerToken]) *)

Module BearerToken.

(** What [getoxsrf] answers; [expirationTime] is the instant its date
    string denotes, in epoch milliseconds. *)
Record token_data := mkTokenData {
  xsrfToken : jstring;
  keyId : option jstring;
  expirationTime : Z
}.

Record header_t := mkHeader { alg : jstring; typ : jstring; kid : option jstring }.

Record payload_t := mkPayload {
  iss : jstring; aud : jstring; sub : jstring; iat : Z; exp : Z; nbf : Z
}.

(** *** [JSON.stringify] of the two objects *)

Definition hex4 (n : Z) : jstring :=
  [MD5.hex_digit (n / 4096 mod 16); MD5.hex_digit (n / 256 mod 16);
   MD5.hex_digit (n / 16 mod 16); MD5.hex_digit (n mod 16)].

Definition escape (c : ascii) : jstring :=
  if ch_eqb c dquote then [backslash; dquote]
  else if ch_eqb c backslash then [backslash; backslash]
  else if ch_eqb c "008"%char then [backslash; "b"%char]
  else if ch_eqb c "012"%char then [backslash; "f"%char]
  else if ch_eqb c LF then [backslash; "n"%char]
  else if ch_eqb c CR then [backslash; "r"%char]
  else if ch_eqb c TAB then [backslash; "t"%char]
  else if (nat_of_ascii c <? 32)%nat
       then backslash :: "u"%char :: hex4 (MD5.byte_of c)
  else [c].

Definition quote (s : jstring) : jstring :=
  dquote :: flat_map escape s ++ [dquote].

Fixpoint digits_of (fuel : nat) (n : Z) (acc : jstring) : jstring :=
  match fuel with
  | O => acc
  | S fuel' =>
      let acc := MD5.hex_digit (n mod 10) :: acc in
      if n <? 10 then acc else digits_of fuel' (n / 10) acc
  end.

(** A number has no more decimal digits than binary ones. *)
Definition decimal (n : Z) : jstring :=
  if n <? 0 then "-"%char :: digits_of (S (Z.to_nat (Z.log2 (- n)))) (- n) []
  else digits_of (S (Z.to_nat (Z.log2 n))) n [].

Definition field (name : string) (value : jstring) : jstring :=
  quote (str name) ++ [colon] ++ value.

Definition stringify_header (h : header_t) : jstring :=
  [lbrace] ++ field "alg" (quote (alg h)) ++ [comma]
  ++ field "typ" (quote (typ h))
  ++ match kid h with
     | Some k => [comma] ++ field "kid" (quote k)
     | None => []
     end
  ++ [rbrace].

Definition stringify_payload (p : payload_t) : jstring :=
  [lbrace] ++ field "iss" (quote (iss p)) ++ [comma]
  ++ field "aud" (quote (aud p)) ++ [comma]
  ++ field "sub" (quote (sub p)) ++ [comma]
  ++ field "iat" (decimal (iat p)) ++ [comma]
  ++ field "exp" (decimal (exp p)) ++ [comma]
  ++ field "nbf" (decimal (nbf p))
  ++ [rbrace].

(** *** The helpers of [_buildBearerToken] *)

Definition replace_char (from to : ascii) (s : jstring) : jstring :=
  map (fun c => if ch_eqb c from then to else c) s.

(** [.replace(/=+$/, '')] *)
Definition strip_padding (s : jstring) : jstring :=
  rev ((fix drop (l : jstring) : jstring :=
          match l with
          | c :: rest => if ch_eqb c "="%char then drop rest else l
          | [] => []
          end) (rev s)).

Definition url_safe (b64 : jstring) : jstring :=
  strip_padding (replace_char "/"%char "_"%char
                   (replace_char "+"%char "-"%char b64)).

(** [base64urlEncode(data)], the object already turned into its text. *)
Definition base64urlEncode (text : jstring) : jstring :=
  url_safe (Base64.encode (map MD5.byte_of text)).

(** [while (base64.length % 4) base64 += '='] *)
Definition pad4 (s : jstring) : jstring :=
  s ++ repeat "="%char ((4 - List.length s mod 4) mod 4)%nat.

(** [base64urlDecode(str)] *)
Definition base64urlDecode (s : jstring) : list Z :=
  Base64.decode (pad4 (replace_char "_"%char "/"%char
                         (replace_char "-"%char "+"%char s))).

Section WithRuntime.

(** [crypto.createHmac('sha256', key).update(message).digest()] is the
    runtime's. *)
Variable hmac_sha256 : list Z -> jstring -> list Z.

(** The [payload] object, with the clock read as [Date.now()]. *)
Definition payload_of (csesidx : jstring) (tokenData : token_data)
    (clock : Z) : payload_t :=
  let now := clock / 1000 in
  let expTime := expirationTime tokenData / 1000 in
  mkPayload (str "https://business.gemini.google")
            (str "https://biz-discoveryengine.googleapis.com")
            (str "csesidx/" ++ csesidx)
            now
            (now + Z.min 300 (expTime - now))
            now.

Definition header_of (tokenData : token_data) : header_t :=
  mkHeader (str "HS256") (str "JWT") (keyId tokenData).

(** [_buildBearerToken(tokenData)] *)
Definition _buildBearerToken (csesidx : jstring) (tokenData : token_data)
    (clock : Z) : jstring :=
  let headerB64 := base64urlEncode (stringify_header (header_of tokenData)) in
  let payloadB64 :=
    base64urlEncode (stringify_payload (payload_of csesidx tokenData clock)) in
  let message := headerB64 ++ str "." ++ payloadB64 in
  let key := base64urlDecode (xsrfToken tokenData) in
  let signature := url_safe (Base64.encode (hmac_sha256 key message)) in
  message ++ str "." ++ signature.

End WithRuntime.

(** The segments of a token: its text cut at the dots. *)
Fixpoint split_dots (s : jstring) (current : jstring) : list jstring :=
  match s with
  | [] => [current]
  | c :: rest =>
      if ch_eqb c "."%char then current :: split_dots rest []
      else split_dots rest (current ++ [c])
  end.

(** A text without a dot. *)
Definition dotless (s : jstring) : Prop := Forall (fun c => c <> "."%char) s.

End BearerToken.

(** ** base64url as RFC 4648 words it

    The specification says base64url; this is the encoding of RFC 4648,
    section 5, without padding, written from the RFC and not from the
    code: the bytes are read as groups of 24 bits, each group as four
    numbers of 6 bits; a last group of 8 bits is filled with four zero
    bits and gives two characters, a last group of 16 bits is filled
    with two zero bits and gives three. *)

Module Rfc4648.

Definition url_alphabet : jstring :=
  str "ABCDEFGHIJKLMNOPQRSTUVWXYZabcdefghijklmnopqrstuvwxyz0123456789-_".

Definition url_digit (n : Z) : ascii := nth (Z.to_nat n) url_alphabet "A"%char.

Fixpoint sextets (bytes : list Z) : list Z :=
  match bytes with
  | [] => []
  | [a] =>
      let group := a * 16 in [group / 64; group mod 64]
  | [a; b] =>
      let group := (a * 256 + b) * 4 in
      [group / 4096; group / 64 mod 64; group mod 64]
  | a :: b :: c :: rest =>
      let group := a * 65536 + b * 256 + c in
      group / 262144 :: group / 4096 mod 64 :: group / 64 mod 64
      :: group mod 64 :: sextets rest
  end.

Definition base64url (bytes : list Z) : jstring :=
  map url_digit (sextets bytes).

End Rfc4648.

(** ** The bearer token as the specification words it

    payload {iss, aud, sub = csesidx/<id>, iat = now, nbf = now,
    exp = min(now + 300, serverExp)}; signature = HMAC-SHA-256 over
    base64url(header).base64url(payload) with the key the server token
    is the base64url text of. These definitions follow the
    specification, to be compared with [_buildBearerToken]. *)

Module TokenSpec.
Import BearerToken.

Definition header (kid : option jstring) : header_t :=
  mkHeader (str "HS256") (str "JWT") kid.

Definition payload (csesidx : jstring) (now serverExp : Z) : payload_t :=
  mkPayload (str "https://business.gemini.google")
            (str "https://biz-discoveryengine.googleapis.com")
            (str "csesidx/" ++ csesidx)
            now (Z.min (now + 300) serverExp) now.

(** base64url of the UTF-8 bytes of a JSON text. *)
Definition segment (json : jstring) : jstring :=
  Rfc4648.base64url (map MD5.byte_of json).

Definition signing_input (kid : option jstring) (csesidx : jstring)
    (now serverExp : Z) : jstring :=
  segment (stringify_header (header kid)) ++ str "."
  ++ segment (stringify_payload (payload csesidx now serverExp)).

Definition token (hmac_sha256 : list Z -> jstring -> list Z) (key : list Z)
    (kid : option jstring) (csesidx : jstring) (now serverExp : Z) : jstring :=
  signing_input kid csesidx now serverExp ++ str "."
  ++ Rfc4648.base64url
       (hmac_sha256 key (signing_input kid csesidx now serverExp)).

(** A stand-in for the runtime's HMAC, to run the builder: it depends on
    every byte of the key and on the length of the message. *)
Definition toy_hmac (key : list Z) (message : jstring) : list Z :=
  map (fun b => (b + Z.of_nat (List.length message)) mod 256) key.

(** The key whose base64url text is c2VjcmV0. *)
Definition toy_key : list Z := [115; 101; 99; 114; 101; 116].

(** What the server answered for the run below. *)
Definition toy_token_data : token_data :=
  mkTokenData (str "c2VjcmV0") (Some (str "k1")) 1700003600000.

End TokenSpec.

(** ** The credential cipher (src/utils/crypto.js) *)

Module Crypto.

Section WithLibrary.

(** [CryptoJS.AES.encrypt(text, key).toString()] with the salt it draws,
    and [CryptoJS.AES.decrypt(ciphertext, key).toString(CryptoJS.enc.Utf8)],
    [None] when it throws. Both are the library's. *)
Variable AES_encrypt : jstring -> jstring -> jstring -> jstring.
Variable AES_decrypt : jstring -> jstring -> option jstring.

(** [config.crypto.secretKey] *)
Variable SECRET_KEY : jstring.

(** [encrypt(text)]; [salt] is the library's random draw. *)
Definition encrypt (salt : jstring) (text : jstring) : jstring :=
  match text with
  | [] => text
  | _ => AES_encrypt SECRET_KEY salt text
  end.

(** [decrypt(ciphertext)] *)
Definition decrypt (ciphertext : jstring) : jstring :=
  match ciphertext with
  | [] => ciphertext
  | _ =>
      match AES_decrypt SECRET_KEY ciphertext with
      | Some text => text
      | None => ciphertext
      end
  end.

End WithLibrary.

(** A stand-in for the library, to run the wrappers: the ciphertext is the
    salt header followed by the text turned around. *)
Definition toy_encrypt (key salt text : jstring) : jstring :=
  str "Salted__" ++ rev text.

Definition toy_decrypt (key ciphertext : jstring) : option jstring :=
  if RequestExecutor.starts_with (str "Salted__") ciphertext
  then Some (rev (skipn 8 ciphertext))
  else None.

End Crypto.


(** ** Conversations to run the fingerprints on *)

Module Conversation.
Import Hash.

Definition user_text (t : string) : message :=
  mkMessage (str "user") (Some [mkPart (Some (str t))]).

Definition model_text (t : string) : message :=
  mkMessage (str "model") (Some [mkPart (Some (str t))]).

(** Five user messages, two answers of the model among them. *)
Definition five_turns : list message :=
  [ user_text "one"; model_text "1"; user_text "two"; model_text "2";
    user_text "three"; user_text "four"; user_text "five" ].

End Conversation.

(** ** Random strings and API keys (src/utils/hash.js) *)

Module Keys.

(** A byte of a [Buffer]. *)
Definition byte (b : Z) : Prop := 0 <= b < 256.

(** The Base64 digit of [n] is not the padding, and the decoder reads it
    back as [n]. *)
Definition sextet_ok (n : Z) : bool :=
  negb (ch_eqb (Base64.digit n) "="%char)
  && match Base64.index_of (Base64.digit n) Base64.alphabet 0 with
     | Some v => v =? n
     | None => false
     end.

(** [randomString(length)]:
    [crypto.randomBytes(length).toString('hex').slice(0, length)], given
    the bytes that [randomBytes] draws. *)
Definition randomString (length : nat) (randomBytes : list Z) : jstring :=
  firstn length (MD5.hex randomBytes).

(** [buffer.toString('base64url')]: Base64 with the URL-safe alphabet and
    no padding. *)
Definition base64url (bytes : list Z) : jstring :=
  BearerToken.url_safe (Base64.encode bytes).

(** [generateApiKey(prefix)], given the 24 bytes that [randomBytes]
    draws. *)
Definition generateApiKey (prefix : jstring) (randomBytes : list Z) : jstring :=
  prefix ++ base64url randomBytes.

(** The characters of a key after its prefix. *)
Definition url_safe_char (c : ascii) : bool :=
  existsb (ch_eqb c)
    (str "ABCDEFGHIJKLMNOPQRSTUVWXYZabcdefghijklmnopqrstuvwxyz0123456789-_").

Definition hex_char (c : ascii) : bool :=
  existsb (ch_eqb c) (str "0123456789abcdef").

End Keys.

(** ** Recovery of cooling providers (src/models/provider.js) *)

Module ProviderJobs.
Import Db ProviderRow.
Local Open Scope gateway_scope.

(** [WHERE status = 'cooling' AND cooldown_until <= NOW()]; a row without
    a cooldown stamp does not match. *)
Definition cooled_down (stamp : Z) (p : t) : bool :=
  status_eqb (status p) cooling
  && match cooldown_until p with
     | Some c => c <=? stamp
     | None => false
     end.

(** [SET status = 'active', consecutive_failures = 0, health_score = 50] *)
Definition recovered (p : t) : t :=
  mk (id p) (group_id p) active 50 (current_load p) (max_concurrent p)
     (total_requests p) (failed_requests p) 0 (last_failure_at p)
     (last_success_at p) (cooldown_until p).

(** [recoverCoolingProviders()]: the number of rows it changed. *)
Definition recoverCoolingProviders : M Z :=
  statement (fun w =>
    (Z.of_nat (List.length (filter (cooled_down (clock w)) (providers w))),
     set_providers w
       (map (fun p => if cooled_down (clock w) p then recovered p else p)
            (providers w)))).

(** The row that [recordFailure] writes over a row [q] of the given id,
    from the row [provider] it read, at the instant [stamp]. *)
Definition failure_row (cfg : config) (stamp : Z) (provider q : t) : t :=
  mk (id q) (group_id q)
     (if failureThreshold cfg * 2 <=? consecutive_failures provider + 1
      then failed
      else if failureThreshold cfg <=? consecutive_failures provider + 1
           then cooling else status provider)
     (Z.max 0 (health_score provider - 10)) (current_load q)
     (max_concurrent q) (total_requests provider + 1)
     (failed_requests provider + 1) (consecutive_failures provider + 1)
     (Some stamp) (last_success_at q)
     (if failureThreshold cfg <=? consecutive_failures provider + 1
      then Some (stamp + cooldownDuration cfg) else cooldown_until q).

(** A provider one failure away from cooling, one that has failed for
    good, and the store that holds them. *)
Definition shaky_provider : t :=
  mk 1 None active 60 0 10 9 4 4 None None None.

Definition dead_provider : t :=
  mk 2 None failed 0 0 10 20 15 10 (Some 1699999000000) None (Some 1699999300000).

Definition shaky_world : world :=
  mkWorld [shaky_provider; dead_provider] [] [] 1 1700000000000 [] [] [] [].

(** The clock of the world moved to a later instant. *)
Definition at_time (stamp : Z) (w : world) : world :=
  mkWorld (providers w) (sessions w) (request_logs w) (next_session_id w)
          stamp (db_faults w) (randoms w) (entropy w) (journal w).

(** What the columns of a provider row stay within: the health score
    between 0 and 100, the load not negative. *)
Definition in_range (p : t) : Prop :=
  0 <= health_score p <= 100 /\ 0 <= current_load p.

(** No provider serves more requests than it may. *)
Definition within_capacity (p : t) : Prop := current_load p <= max_concurrent p.

(** Two calls of [acquireProvider()] in flight at once, as two requests
    make them: each call awaits the SELECT of [selectProvider] and then
    the UPDATE of [incrementLoad], and here both SELECTs are answered
    before either UPDATE is sent. *)
Definition acquire_twice_interleaved (cfg : config) : M (t * t) :=
  bind (ProviderScheduler.selectProvider cfg None ProviderScheduler.ExNull)
    (fun first =>
  bind (ProviderScheduler.selectProvider cfg None ProviderScheduler.ExNull)
    (fun second =>
  bind (Provider.incrementLoad (id first)) (fun _ =>
  bind (Provider.incrementLoad (id second)) (fun _ =>
  ret (first, second))))).

(** A pool of one provider with one place left. *)
Definition last_place : world :=
  mkWorld [ mk 1 None active 100 9 10 0 0 0 None None None ]
          [] [] 1 1700000000000 [] [] [] [].

(** A list of providers in which no provider comes before a healthier
    one. *)
Fixpoint health_descending (ps : list t) : Prop :=
  match ps with
  | [] => True
  | p :: rest =>
      (forall q, In q rest -> health_score q <= health_score p)
      /\ health_descending rest
  end.

(** A pool of three providers: a tired one, a healthy one and one that
    has no room left. *)
Definition mixed_pool : world :=
  mkWorld [ mk 1 None active 60 0 10 0 0 0 None None None;
            mk 2 None active 100 3 10 0 0 0 None None None;
            mk 3 None active 100 10 10 0 0 0 None None None ]
          [] [] 1 1700000000000 [] [] [] [].

End ProviderJobs.

(** ** Upkeep of the sessions (src/models/session.js) *)

Module SessionJobs.
Import Db SessionRow.
Local Open Scope gateway_scope.

Section WithConfig.

Variable cfg : config.

(** [touch(id)] *)
Definition touch (target : Z) : M bool :=
  time <- now ;;
  let expiresAt := time + session_ttl cfg in
  stamp <- now ;;
  Session.update target
    (fun s =>
       mk (id s) (provider_id s) (user_id s) (context_hash_head s)
          (context_hash_tail s) (gemini_session_id s) (message_count s)
          (status s) (Some expiresAt) stamp).

(** [WHERE expires_at < NOW() OR status IN ('expired', 'migrated')]; a
    row without an expiry is compared with nothing. *)
Definition stale (stamp : Z) (s : t) : bool :=
  match expires_at s with
  | Some e => e <? stamp
  | None => false
  end
  || status_eqb (status s) expired
  || status_eqb (status s) migrated.

(** [cleanupExpired()]: the number of rows it deleted. *)
Definition cleanupExpired : M Z :=
  statement (fun w =>
    (Z.of_nat (List.length (filter (stale (clock w)) (sessions w))),
     set_sessions w (filter (fun s => negb (stale (clock w) s)) (sessions w)))).

Definition set_status (st : status_t) (s : t) : t :=
  mk (id s) (provider_id s) (user_id s) (context_hash_head s)
     (context_hash_tail s) (gemini_session_id s) (message_count s) st
     (expires_at s) (last_accessed_at s).

(** [createSession] for a session that has no user: [if (userId)] is not
    entered, and the row is inserted with [user_id] null. *)
Definition createSession_anonymous (providerId : Z)
    (headHash tailHash : jstring) : M (option t) :=
  time <- now ;;
  let expiresAt := time + session_ttl cfg in
  newId <- statement (fun w =>
    let i := next_session_id w in
    (i, set_next_session_id
          (set_sessions w
             (sessions w ++
              [mk i providerId None headHash tailHash None 0 active
                  (Some expiresAt) (clock w)]))
          (i + 1))) ;;
  Session.findById newId.

(** [migrateToProvider(sessionId, newProviderId)] *)
Definition migrateToProvider (sessionId newProviderId : Z) : M (option t) :=
  Session.update sessionId (set_status migrated) ;;;
  oldSession <- Session.findById sessionId ;;
  match oldSession with
  | None => ret None
  | Some oldSession =>
      match user_id oldSession with
      | Some userId =>
          Session.createSession cfg newProviderId userId
            (context_hash_head oldSession) (context_hash_tail oldSession)
      | None =>
          createSession_anonymous newProviderId
            (context_hash_head oldSession) (context_hash_tail oldSession)
      end
  end.

End WithConfig.

(** The clock of the world moved to a later instant. *)
Definition at_time (stamp : Z) (w : world) : world :=
  mkWorld (providers w) (sessions w) (request_logs w) (next_session_id w)
          stamp (db_faults w) (randoms w) (entropy w) (journal w).

(** The number of active sessions of a user. *)
Definition active_count (userId : Z) (w : world) : Z :=
  Z.of_nat (List.length (filter (Session.active_of userId) (sessions w))).

(** Session ids as the database assigns them: distinct, and below the
    next one to be assigned. *)
Definition ids_assigned (w : world) : Prop :=
  NoDup (map id (sessions w))
  /\ Forall (fun s => id s < next_session_id w) (sessions w).

(** The store after the check of the limit that [createSession] makes,
    and the row that it then inserts. *)
Definition room_made (cfg : config) (userId : Z) (w : world) : world :=
  if negb (userId =? 0) && (maxPerUser cfg <=? active_count userId w)
  then snd (Session.delete_oldest userId w) else w.

Definition new_row (cfg : config) (providerId userId : Z)
    (headHash tailHash : jstring) (w : world) : t :=
  mk (next_session_id w) providerId (Some userId) headHash tailHash None 0
     active (Some (clock w + session_ttl cfg)) (clock w).


Definition full_store : world :=
  mkWorld [ProviderScheduler.healthy_provider 1]
          [Session.session_of 1 (str "tail-a") 100;
           Session.session_of 2 (str "tail-b") 200]
          [] 3 1700000000000 [] [] [] [].

(** The session created for a first request of user 7 on provider 1, and
    the store that holds it. *)
Definition first_session (messages : list Hash.message) : t :=
  new_row default_config 1 7
    (Hash.headHash (Hash.generateSessionHashes [] (Some messages)))
    (Hash.tailHash (Hash.generateSessionHashes [] (Some messages)))
    (ProviderScheduler.world_of [ProviderScheduler.healthy_provider 1]).

Definition store_after_first (messages : list Hash.message) : world :=
  set_next_session_id
    (set_sessions
       (ProviderScheduler.world_of [ProviderScheduler.healthy_provider 1])
       [first_session messages])
    2.

End SessionJobs.

(** ** Streaming: what reaches the client chunk by chunk
    (src/core/gemini-client.js, src/core/request-executor.js) *)

Module Streaming.
Import RequestExecutor.

(** What [_extractAndPushContent] passes to [onChunk]. *)
Record pushed := mkPushed { pushed_text : jstring; pushed_thought : bool }.

(** One turn of the loop over [answer.replies]; a reply is [None] when
    it has no [groundedContent.content]. *)
Definition push_reply (reply : option reply_content) : list pushed :=
  match reply with
  | None => []
  | Some c =>
      if truthy (text c)
      then [mkPushed (or_empty (text c)) (thought c)]
      else []
  end.

(** [_extractAndPushContent(parsed, onChunk)]: the calls of [onChunk] it
    makes, in order. *)
Definition _extractAndPushContent (parsed : chunk) : list pushed :=
  match streamAssistResponse parsed with
  | None => []
  | Some response =>
      match answer response with
      | None => []
      | Some answer =>
          match replies answer with
          | None => []
          | Some rs => flat_map push_reply rs
          end
      end
  end.

(** The variables [fullContent] and [thoughtContent] of
    [streamGenerateContent]. *)
Record collected := mkCollected {
  fullContent : jstring;
  thoughtContent : jstring
}.

(** A chunk written to the client: the parts of its one candidate, the
    finish reason ([None] for null) and the usage, if any. *)
Record emitted := mkEmitted {
  emitted_parts : list response_part;
  emitted_finish : option finish_reason;
  emitted_usage : option usage
}.

(** [streamChunkHandler(chunk)]: the new values of the two variables and
    what is passed on to the route's [onChunk]. *)
Definition streamChunkHandler (includeThoughts : bool) (st : collected)
    (c : pushed) : collected * list emitted :=
  if pushed_thought c && includeThoughts then
    (mkCollected (fullContent st) (thoughtContent st ++ pushed_text c),
     [mkEmitted [ThoughtPart (Some (pushed_text c))] None None])
  else if negb (pushed_thought c) && truthy (Some (pushed_text c)) then
    (mkCollected (fullContent st ++ pushed_text c) (thoughtContent st),
     [mkEmitted [TextPart (pushed_text c)] None None])
  else (st, []).

(** The chunk sent when the upstream stream has ended. *)
Definition final_chunk (query : jstring) (st : collected) : emitted :=
  mkEmitted [TextPart []] (Some STOP)
    (Some (mkUsage
             (_estimateTokens (Some query))
             (_estimateTokens (Some (fullContent st))
              + _estimateTokens (Some (thoughtContent st)))
             (_estimateTokens (Some query)
              + _estimateTokens (Some (fullContent st))
              + _estimateTokens (Some (thoughtContent st))))).

Definition feed (includeThoughts : bool) (acc : collected * list emitted)
    (c : pushed) : collected * list emitted :=
  (fst (streamChunkHandler includeThoughts (fst acc) c),
   snd acc ++ snd (streamChunkHandler includeThoughts (fst acc) c)).

(** The objects of the upstream stream run through
    [_extractAndPushContent] and the handler, one after the other, as
    [curlStreamRequest] does. *)
Definition streamed (includeThoughts : bool) (chunks : list chunk)
  : collected * list emitted :=
  fold_left (feed includeThoughts)
            (flat_map _extractAndPushContent chunks)
            (mkCollected [] [], []).

(** Steps 4 and 5 of [streamGenerateContent]: everything written to the
    client up to and including the final chunk. *)
Definition stream_chunks (includeThoughts : bool) (query : jstring)
    (chunks : list chunk) : list emitted :=
  snd (streamed includeThoughts chunks)
  ++ [final_chunk query (fst (streamed includeThoughts chunks))].

(** The texts and the thoughts among the parts of a list of chunks. *)
Definition texts_of (outs : list emitted) : list jstring :=
  flat_map (fun e =>
              flat_map (fun p => match p with
                                 | TextPart t => [t]
                                 | _ => []
                                 end) (emitted_parts e)) outs.

Definition thoughts_of (outs : list emitted) : list (option jstring) :=
  flat_map (fun e =>
              flat_map (fun p => match p with
                                 | ThoughtPart t => [t]
                                 | _ => []
                                 end) (emitted_parts e)) outs.

(** The texts pushed that are not thoughts, and those that are. *)
Definition plain_texts (ps : list pushed) : list jstring :=
  map pushed_text (filter (fun p => negb (pushed_thought p)) ps).

Definition thought_texts (ps : list pushed) : list jstring :=
  map pushed_text (filter pushed_thought ps).

End Streaming.

(** ** Notions for reasoning about the request log *)

Module Logging.
Import Db RequestExecutor.

(** A computation is silent when, started with no statement to be
    rejected, it leaves it so and does not touch the request log; a run
    is mute when it changes neither. *)
Definition silent {A} (c : M A) : Prop :=
  forall w, db_faults w = [] ->
    db_faults (snd (c w)) = [] /\ request_logs (snd (c w)) = request_logs w.

Definition mute {A} (run : world -> A * world) : Prop :=
  forall w, db_faults (snd (run w)) = db_faults w
            /\ request_logs (snd (run w)) = request_logs w.

(** A run of [generateContent] started in [w] has added one row to the
    request log, and the row tells how the run ended. *)
Definition logged_one (o : options) (w : world)
    (r : outcome response * world) : Prop :=
  exists row,
    request_logs (snd r) = request_logs w ++ [row]
    /\ LogRow.user_id row = userId o
    /\ LogRow.api_key_id row = apiKeyId o
    /\ LogRow.model row = model o
    /\ LogRow.request_type row = str "generateContent"
    /\ match fst r with
       | Ok response =>
           LogRow.status_code row = 200
           /\ LogRow.error_message row = None
           /\ LogRow.input_tokens row = promptTokenCount (usageMetadata response)
           /\ LogRow.output_tokens row
              = candidatesTokenCount (usageMetadata response)
       | Throw e =>
           LogRow.status_code row = 500
           /\ (e <> [] -> LogRow.error_message row = Some e)
       end.

End Logging.

(** ** Model names (src/core/request-executor.js, [_mapModel]) *)

Module ModelNames.
Import RequestExecutor.

(** [s.replace(pattern, '')] with a string as pattern: the first
    occurrence of the pattern is taken out. *)
Fixpoint remove_first (pattern s : jstring) : jstring :=
  if starts_with pattern s then skipn (List.length pattern) s
  else match s with
       | [] => []
       | c :: rest => c :: remove_first pattern rest
       end.

(** The object [modelMap]. *)
Definition modelMap : list (jstring * jstring) :=
  [ (str "gemini-2.0-flash-exp", str "gemini-2.0-flash-exp");
    (str "gemini-2.5-flash", str "gemini-2.0-flash-exp");
    (str "gemini-3-pro-preview", str "gemini-3-pro-preview");
    (str "gemini-2.5-pro", str "gemini-3-pro-preview");
    (str "gemini-pro", str "gemini-2.0-flash-exp") ].

Fixpoint own (key : jstring) (object : list (jstring * jstring))
  : option jstring :=
  match object with
  | [] => None
  | (k, v) :: rest => if Hash.jstring_eqb key k then Some v else own key rest
  end.

(** The names that every object literal inherits from [Object.prototype];
    reading one of them from [modelMap] gives a function (an object for
    [__proto__]), which is truthy and not a string. *)
Definition inherited : list jstring :=
  [ str "constructor"; str "__defineGetter__"; str "__defineSetter__";
    str "hasOwnProperty"; str "__lookupGetter__"; str "__lookupSetter__";
    str "isPrototypeOf"; str "propertyIsEnumerable"; str "toString";
    str "valueOf"; str "__proto__"; str "toLocaleString" ].

(** What [_mapModel] returns: a model id, or the inherited member of
    [modelMap] of the given name. *)
Inductive mapped :=
| ModelId (name : jstring)
| Inherited (key : jstring).

(** [model?.replace('models/', '') || 'gemini-2.0-flash-exp'] *)
Definition cleanModel (model : option jstring) : jstring :=
  match model with
  | Some m =>
      match remove_first (str "models/") m with
      | [] => str "gemini-2.0-flash-exp"
      | clean => clean
      end
  | None => str "gemini-2.0-flash-exp"
  end.

(** [_mapModel(model)]: [modelMap[cleanModel] || cleanModel] *)
Definition _mapModel (model : option jstring) : mapped :=
  match own (cleanModel model) modelMap with
  | Some v => ModelId v
  | None =>
      if existsb (Hash.jstring_eqb (cleanModel model)) inherited
      then Inherited (cleanModel model)
      else ModelId (cleanModel model)
  end.

(** The two models of the upstream. *)
Definition upstream_models : list jstring :=
  [ str "gemini-2.0-flash-exp"; str "gemini-3-pro-preview" ].

End ModelNames.
(* ================================================================== *)
(** * Part II: theorems                                                 *)
(* ================================================================== *)

Lemma ch_eqb_eq a b : ch_eqb a b = true <-> a = b.
Proof. apply Ascii.eqb_eq. Qed.

Lemma ch_eqb_neq a b : ch_eqb a b = false <-> a <> b.
Proof. apply Ascii.eqb_neq. Qed.

Lemma ch_eqb_refl a : ch_eqb a a = true.
Proof. apply Ascii.eqb_refl. Qed.

(** ** The stream parser *)

Module StreamParserFacts.
Import StreamParser.

Section Facts.

Context {J : Type}.
Variable JSON_parse : jstring -> option J.

Notation step := (step JSON_parse).
Notation scan := (scan JSON_parse).
Notation drain := (drain JSON_parse).
Notation received := (received JSON_parse).
Notation on_data := (on_data JSON_parse).
Notation neutral := (neutral JSON_parse).
Notation parsed := (parsed JSON_parse).

(** *** The buffer is not read by the loop body *)

Lemma step_set_buffer st b c :
  step (set_buffer st b) c =
  (set_buffer (fst (step st c)) b, snd (step st c)).
Proof.
  destruct st as [buf chs inA d cur inS esc]; unfold set_buffer; simpl.
  repeat match goal with
         | |- context [if ?x then _ else _] => destruct x; simpl
         | |- context [match JSON_parse ?x with _ => _ end] =>
             destruct (JSON_parse x); simpl
         end; reflexivity.
Qed.

Lemma set_buffer_twice (st : @pstate J) b b' :
  set_buffer (set_buffer st b) b' = set_buffer st b'.
Proof. reflexivity. Qed.

Lemma set_buffer_same (st : @pstate J) : set_buffer st (buffer st) = st.
Proof. destruct st; reflexivity. Qed.

Lemma drain_set_buffer t : forall st b, drain (set_buffer st b) t = drain st t.
Proof.
  induction t as [|c t IH]; intros st b; cbn [StreamParser.drain].
  - reflexivity.
  - rewrite step_set_buffer.
    destruct (step st c) as [st' []]; simpl.
    + apply IH.
    + reflexivity.
Qed.

Lemma scan_app a : forall st b,
  scan st (a ++ b) =
  match scan st a with Some st' => scan st' b | None => None end.
Proof.
  induction a as [|c a IH]; intros st b; cbn [StreamParser.scan app].
  - reflexivity.
  - destruct (step st c) as [st' []]; [apply IH | reflexivity].
Qed.

Lemma drain_after_scan a : forall st st' r,
  scan st a = Some st' -> drain st (a ++ r) = drain st' r.
Proof.
  induction a as [|c a IH]; intros st st' r H;
    cbn [StreamParser.scan StreamParser.drain app] in *.
  - now inversion H.
  - destruct (step st c) as [st1 []]; [now apply IH | discriminate].
Qed.

Lemma drain_scanned a st st' :
  scan st a = Some st' -> drain st a = set_buffer st' [].
Proof.
  intros H. rewrite <- (app_nil_r a). now rewrite (drain_after_scan _ _ _ _ H).
Qed.

(** *** Texts that leave the scanner where it was, inside an object *)

Lemma neutral_nil : neutral [].
Proof. intros buf chs inA d cur _; simpl. now rewrite app_nil_r. Qed.

Lemma neutral_app a b : neutral a -> neutral b -> neutral (a ++ b).
Proof.
  intros Ha Hb buf chs inA d cur Hd.
  rewrite scan_app, Ha by assumption. rewrite Hb by assumption.
  now rewrite app_assoc.
Qed.

Lemma depth_tests d : d > 0 -> (d >? 0) = true /\ (d =? 0) = false.
Proof. intros; split; lia. Qed.

Lemma neutral_plain c : is_plain c = true -> neutral [c].
Proof.
  unfold is_plain. rewrite negb_true_iff, !orb_false_iff.
  intros [[Hq Hl] Hr] buf chs inA d cur Hd.
  destruct (depth_tests d Hd) as [Hg Hz].
  simpl. rewrite Hq, Hl, Hr, Hg, Hz; simpl.
  now rewrite !andb_false_r.
Qed.

Lemma neutral_plains t : forallb is_plain t = true -> neutral t.
Proof.
  induction t as [|c t IH]; simpl; intros H.
  - apply neutral_nil.
  - apply andb_true_iff in H as [Hc Ht].
    change (c :: t) with ([c] ++ t).
    apply neutral_app; [now apply neutral_plain | now apply IH].
Qed.

(** Inside a string: everything is copied up to the closing quote. *)
Lemma scan_chars body :
  Json.chars body ->
  forall buf chs inA d cur, d > 0 ->
    scan (mkP buf chs inA d cur true false) body =
    Some (mkP buf chs inA d (cur ++ body) true false).
Proof.
  assert (Hcopy : forall c, c <> dquote -> c <> backslash ->
            forall buf chs inA d cur, d > 0 ->
            step (mkP buf chs inA d cur true false) c =
            (mkP buf chs inA d (cur ++ [c]) true false, Continue)).
  { intros c Hq Hb buf chs inA d cur Hd.
    apply ch_eqb_neq in Hq, Hb. simpl. now rewrite Hq, Hb. }
  assert (Hhex : forall h, Json.is_hex h = true -> h <> dquote /\ h <> backslash).
  { intros h Hh; split; intros ->; discriminate Hh. }
  induction 1 as [|c s Hq Hb _ _ IH|c s _ _ IH|h1 h2 h3 h4 s Hh _ IH];
    intros buf chs inA d cur Hd.
  - simpl. now rewrite app_nil_r.
  - cbn [StreamParser.scan]. rewrite Hcopy by assumption.
    rewrite IH by assumption. now rewrite <- app_assoc.
  - destruct (depth_tests d Hd) as [Hg _].
    simpl. rewrite Hg. rewrite IH by assumption.
    now rewrite <- !app_assoc.
  - destruct (depth_tests d Hd) as [Hg _].
    simpl in Hh. rewrite !andb_true_iff in Hh.
    destruct Hh as (H1 & H2 & H3 & H4 & _).
    apply Hhex in H1, H2, H3, H4.
    cbn [StreamParser.scan].
    replace (step (mkP buf chs inA d cur true false) backslash)
      with (mkP buf chs inA d (cur ++ [backslash]) true true, Continue)
      by (simpl; now rewrite Hg).
    replace (step (mkP buf chs inA d (cur ++ [backslash]) true true) "u"%char)
      with (mkP buf chs inA d ((cur ++ [backslash]) ++ ["u"%char]) true false,
            Continue)
      by (simpl; now rewrite Hg).
    rewrite !Hcopy by tauto.
    rewrite IH by assumption. now rewrite <- !app_assoc.
Qed.

Lemma neutral_string s : Json.string_text s -> neutral s.
Proof.
  intros [body Hbody] buf chs inA d cur Hd.
  destruct (depth_tests d Hd) as [Hg _].
  cbn [StreamParser.scan].
  replace (step (mkP buf chs inA d cur false false) dquote)
    with (mkP buf chs inA d (cur ++ [dquote]) true false, Continue)
    by (simpl; now rewrite Hg).
  rewrite scan_app, (scan_chars body Hbody) by assumption.
  simpl. rewrite Hg. simpl. now rewrite <- !app_assoc.
Qed.

Lemma neutral_braces t : neutral t -> neutral (lbrace :: t ++ [rbrace]).
Proof.
  intros Ht buf chs inA d cur Hd.
  destruct (depth_tests d Hd) as [Hg Hz].
  cbn [StreamParser.scan].
  replace (step (mkP buf chs inA d cur false false) lbrace)
    with (mkP buf chs inA (d + 1) (cur ++ [lbrace]) false false, Continue)
    by (simpl; rewrite Hz; now rewrite !andb_false_r).
  rewrite scan_app, Ht by lia.
  assert (Hd1 : (d + 1 =? 0) = false) by lia.
  simpl. rewrite Hd1, !andb_false_r; simpl.
  replace (d + 1 - 1) with d by lia. rewrite Hz. simpl.
  now rewrite <- !app_assoc.
Qed.

(** *** Every JSON text is neutral *)

Lemma ws_plain w : Json.ws w -> forallb is_plain w = true.
Proof.
  unfold Json.ws. induction w as [|c w IH]; simpl; [reflexivity|].
  rewrite !andb_true_iff. intros [Hc Hw]. split; [|now apply IH].
  unfold Json.is_ws in Hc. rewrite !orb_true_iff, !ch_eqb_eq in Hc.
  destruct Hc as [[[-> | ->] | ->] | ->]; reflexivity.
Qed.

Lemma digit_plain c : Json.is_digit c = true -> is_plain c = true.
Proof.
  destruct c as [[] [] [] [] [] [] [] []]; intros H;
    solve [reflexivity | discriminate H].
Qed.

Lemma digits_plain d : Json.digits d -> forallb is_plain d = true.
Proof.
  intros [_ H]. induction d as [|c d IH]; simpl in *; [reflexivity|].
  apply andb_true_iff in H as [Hc Hd].
  now rewrite (digit_plain c Hc), IH.
Qed.

Lemma forallb_plain_app a b :
  forallb is_plain a = true -> forallb is_plain b = true ->
  forallb is_plain (a ++ b) = true.
Proof. intros Ha Hb. now rewrite forallb_app, Ha, Hb. Qed.

Lemma number_plain n : Json.number_text n -> forallb is_plain n = true.
Proof.
  intros [sign int frac exp Hs Hi Hf He].
  repeat apply forallb_plain_app.
  - destruct Hs as [-> | ->]; reflexivity.
  - destruct Hi as [-> | [Hi _]]; [reflexivity | now apply digits_plain].
  - destruct Hf as [-> | (d & Hd & ->)]; [reflexivity|].
    simpl. now apply digits_plain.
  - destruct He as [-> | (e & s & d & He & Hs' & Hd & ->)]; [reflexivity|].
    simpl. apply andb_true_iff; split.
    + destruct He as [-> | ->]; reflexivity.
    + apply forallb_plain_app; [|now apply digits_plain].
      destruct Hs' as [-> | [-> | ->]]; reflexivity.
Qed.

Lemma neutral_cons_plain c t :
  is_plain c = true -> neutral t -> neutral (c :: t).
Proof.
  intros Hc Ht. change (c :: t) with ([c] ++ t).
  apply neutral_app; [now apply neutral_plain | assumption].
Qed.

Lemma neutral_text s t : Json.text s t -> neutral t.
Proof.
  induction 1;
    repeat first
      [ assumption
      | apply neutral_braces
      | apply neutral_app
      | apply neutral_cons_plain; [reflexivity|]
      | apply neutral_plain; reflexivity
      | apply neutral_plains; reflexivity
      | apply neutral_plains; apply ws_plain; assumption
      | apply neutral_plains; apply number_plain; assumption
      | apply neutral_string; assumption ].
Qed.

Lemma neutral_object_inside o :
  Json.object o -> exists inner, o = lbrace :: inner ++ [rbrace] /\ neutral inner.
Proof.
  intros [w Hw | ms Hms].
  - exists w; split; [reflexivity|]. now apply neutral_plains, ws_plain.
  - exists ms; split; [reflexivity|]. eapply neutral_text; eassumption.
Qed.

(** *** The top level of the array *)

Lemma scan_open buf :
  scan (mkP buf [] false 0 [] false false) [lbracket] = Some (top buf []).
Proof. reflexivity. Qed.

Lemma step_close buf chs :
  step (top buf chs) rbracket = (top buf chs, Break).
Proof. reflexivity. Qed.

Lemma scan_separators s buf chs :
  separators s -> scan (top buf chs) s = Some (top buf chs).
Proof.
  unfold separators. induction s as [|c s IH]; simpl; [reflexivity|].
  rewrite andb_true_iff. intros [Hc Hs].
  unfold is_separator in Hc. rewrite !orb_true_iff, !ch_eqb_eq in Hc.
  destruct Hc as [[[-> | ->] | ->] | ->]; simpl; now apply IH.
Qed.

Lemma scan_object o buf chs :
  Json.object o -> scan (top buf chs) o = Some (top buf (chs ++ parsed o)).
Proof.
  intros Ho. destruct (neutral_object_inside o Ho) as (inner & -> & Hn).
  unfold top. cbn [StreamParser.scan].
  replace (step (mkP buf chs true 0 [] false false) lbrace)
    with (mkP buf chs true 1 [lbrace] false false, Continue) by reflexivity.
  rewrite scan_app, Hn by lia.
  cbn [StreamParser.scan StreamParser.step].
  assert (Hlen : (0 <? Z.of_nat (List.length (([lbrace] ++ inner) ++ [rbrace]))) = true).
  { apply Z.ltb_lt. rewrite !length_app. cbn [List.length]. lia. }
  cbn [Z.sub Z.add Z.eqb Z.opp Z.pos_sub andb].
  rewrite Hlen. unfold parsed. simpl.
  destruct (JSON_parse (lbrace :: inner ++ [rbrace])); simpl.
  - reflexivity.
  - now rewrite app_nil_r.
Qed.

Lemma scan_items items : forall buf chs,
  Forall item_ok items ->
  scan (top buf chs) (flat_map (fun it => fst it ++ snd it) items) =
  Some (top buf (chs ++ flat_map (fun it => parsed (fst it)) items)).
Proof.
  induction items as [|[o s] items IH]; intros buf chs H; simpl.
  - now rewrite app_nil_r.
  - inversion H as [|? ? [Ho Hs] Hrest]; subst; simpl in *.
    rewrite scan_app, scan_app, (scan_object o) by assumption.
    rewrite scan_separators by assumption.
    rewrite IH by assumption. now rewrite <- app_assoc.
Qed.

Lemma scan_array_body s0 items buf :
  separators s0 -> Forall item_ok items ->
  scan (mkP buf [] false 0 [] false false) (lbracket :: array_body s0 items) =
  Some (top buf (flat_map (fun it => parsed (fst it)) items)).
Proof.
  intros Hs Hi. change (lbracket :: array_body s0 items)
    with ([lbracket] ++ array_body s0 items).
  rewrite scan_app, scan_open. unfold array_body.
  rewrite scan_app, scan_separators by assumption.
  now rewrite scan_items.
Qed.

(** *** Chunk boundaries do not matter *)

Lemma received_empty (st : @pstate J) : buffer st = [] -> received st [] = st.
Proof.
  intros H. unfold StreamParser.received. rewrite H. simpl.
  rewrite <- H. apply set_buffer_same.
Qed.

Lemma feed_empties datas : forall st : @pstate J,
  buffer st = [] -> concat datas = [] -> fold_left received datas st = st.
Proof.
  induction datas as [|d ds IH]; intros st Hb Hc; simpl in *.
  - reflexivity.
  - apply app_eq_nil in Hc as [-> Hds].
    rewrite received_empty by assumption. now apply IH.
Qed.

Lemma received_scanned st d st' r :
  buffer st = [] -> scan st d = Some st' ->
  received st (d ++ r) = drain st' r.
Proof.
  intros Hb H. unfold StreamParser.received. rewrite Hb. simpl.
  now apply drain_after_scan.
Qed.

Lemma scan_set_buffer t : forall st b,
  scan (set_buffer st b) t =
  option_map (fun s => set_buffer s b) (scan st t).
Proof.
  induction t as [|c t IH]; intros st b; cbn [StreamParser.scan].
  - reflexivity.
  - rewrite step_set_buffer. destruct (step st c) as [st' []]; simpl.
    + apply IH.
    + reflexivity.
Qed.

Lemma feed_until_close datas : forall st pre buf chs,
  buffer st = [] ->
  concat datas = pre ++ [rbracket] ->
  scan st pre = Some (top buf chs) ->
  fold_left received datas st = top [] chs.
Proof.
  induction datas as [|d ds IH]; intros st pre buf chs Hb Hc Hs; simpl in *.
  - destruct pre; discriminate.
  - apply app_eq_app in Hc as [l [[Hd Hl] | [Hp Hl]]].
    + (* the chunk reaches the closing bracket *)
      destruct l as [|c l].
      * rewrite app_nil_r in Hd. subst d. simpl in Hl.
        rewrite <- (app_nil_r pre).
        rewrite (received_scanned _ _ _ _ Hb Hs). simpl.
        eapply (IH _ [] [] chs); [reflexivity | now rewrite <- Hl | reflexivity].
      * destruct l; [|destruct ds; discriminate].
        simpl in Hl. injection Hl as Hc Hds. subst c d.
        rewrite (received_scanned _ _ _ _ Hb Hs).
        cbn [StreamParser.drain]. rewrite step_close.
        apply feed_empties; [reflexivity | now symmetry].
    + (* the chunk ends before it *)
      subst pre. rewrite scan_app in Hs.
      destruct (scan st d) as [st1|] eqn:Hd; [|discriminate].
      rewrite <- (app_nil_r d), (received_scanned _ _ _ _ Hb Hd). simpl.
      eapply (IH _ l [] chs); [reflexivity | assumption |].
      rewrite scan_set_buffer, Hs. reflexivity.
Qed.

Lemma parsed_all (items : list (jstring * jstring)) : forall vs,
  Forall2 (fun it v => JSON_parse (fst it) = Some v) items vs ->
  flat_map (fun it => parsed (fst it)) items = vs.
Proof.
  induction 1 as [|it v items vs Hv _ IH]; simpl.
  - reflexivity.
  - unfold parsed at 1. rewrite Hv. simpl. now rewrite IH.
Qed.

(** Chunks that hold whole characters are taken as they are. *)
Lemma feed_whole datas : forall st : @pstate J,
  Forall Utf8.whole datas ->
  fold_left on_data datas st = fold_left received datas st.
Proof.
  induction datas as [|d datas IH]; intros st H; [reflexivity|].
  inversion_clear H as [|? ? Hd Hrest]. cbn [fold_left].
  unfold StreamParser.on_data at 2. rewrite Hd. now apply IH.
Qed.

(** For every sequence of valid JSON objects, laid out as the bracketed
    array [ obj , obj , ... ] with any run of commas, spaces and line
    ends between them, and for every way of cutting that text into
    chunks that does not cut a character (chunks of one ASCII character,
    chunks ending in the middle of a string or of an object, empty
    chunks), the incremental parser emits exactly the objects of the
    text, in their order. [vs] are the values [JSON.parse] gives for the
    object texts. *)
Lemma whole_chunks_emit_objects_in_order :
  forall (s0 : jstring) (items : list (jstring * jstring)) (vs : list J)
         (datas : list (list ascii)),
    separators s0 ->
    Forall item_ok items ->
    Forall2 (fun it v => JSON_parse (fst it) = Some v) items vs ->
    Forall Utf8.whole datas ->
    concat datas = array_text s0 items ->
    curlStreamRequest JSON_parse datas 0 = Resolve vs.
Proof.
  intros s0 items vs datas Hs0 Hitems Hvs Hwhole Hcut.
  unfold curlStreamRequest.
  assert (Hfinal : fold_left on_data datas initial = top [] vs).
  { rewrite feed_whole by assumption.
    unfold array_text in Hcut.
    change (lbracket :: array_body s0 items ++ [rbracket])
      with ((lbracket :: array_body s0 items) ++ [rbracket]) in Hcut.
    eapply feed_until_close; [reflexivity | exact Hcut |].
    unfold initial. rewrite scan_array_body by assumption.
    now rewrite (parsed_all items vs Hvs). }
  rewrite Hfinal. reflexivity.
Qed.

End Facts.

(** Elements and members written without white space. *)
Lemma element_bare v : Json.text Json.Value v -> Json.text Json.Element v.
Proof.
  intros H. rewrite <- (app_nil_r v). now apply (Json.t_element [] v []).
Qed.

Lemma member_bare k e :
  Json.string_text k -> Json.text Json.Element e ->
  Json.text Json.Member (k ++ colon :: e).
Proof.
  intros Hk He. change (k ++ colon :: e) with ([] ++ k ++ [] ++ colon :: e).
  now apply Json.t_member.
Qed.

(** The two objects of scenario 6 are JSON objects. *)
Lemma scenario6_items_ok : Forall item_ok scenario6_items.
Proof.
  assert (Hplain : forall c s, Json.chars s ->
            ch_eqb c dquote = false -> ch_eqb c backslash = false ->
            (32 <=? nat_of_ascii c)%nat = true -> Json.chars (c :: s)).
  { intros c s Hs Hq Hb Hn. apply Json.chars_plain; try assumption.
    - now apply ch_eqb_neq.
    - now apply ch_eqb_neq.
    - now apply Nat.leb_le. }
  repeat constructor; simpl.
  - apply Json.object_members with (ms := removelast (tl scenario6_first)).
    apply Json.t_members_one.
    apply (member_bare (dquote :: str "a" ++ [dquote])
             (dquote :: str "x},{" ++ [dquote])).
    + constructor. repeat (apply Hplain; [|reflexivity..]). constructor.
    + apply element_bare.
      apply Json.t_string. constructor.
      repeat (apply Hplain; [|reflexivity..]). constructor.
  - apply Json.object_members with (ms := removelast (tl scenario6_second)).
    apply Json.t_members_one.
    apply (member_bare (dquote :: str "b" ++ [dquote]) (str "2")).
    + constructor. repeat (apply Hplain; [|reflexivity..]). constructor.
    + apply element_bare.
      apply Json.t_number.
      apply (Json.number_intro [] (str "2") [] []); auto.
      right. split; [split; [discriminate | reflexivity] | discriminate].
Qed.

(** ASCII text is decoded to itself. *)
Lemma ascii_whole (data : list ascii) :
  Forall (fun c => (nat_of_ascii c < 128)%nat) data -> Utf8.whole data.
Proof.
  unfold Utf8.whole, Utf8.toString.
  induction 1 as [|c data Hc _ IH]; [reflexivity|].
  cbn [map Utf8.decode Utf8.start Utf8.bytes_needed].
  change (0 =? 0) with true. cbn iota.
  unfold Utf8.lead.
  replace (Z.of_nat (nat_of_ascii c) <=? 127) with true
    by (symmetry; apply Z.leb_le; lia).
  cbn [app flat_map map].
  unfold Utf8.encode at 1.
  replace (Z.of_nat (nat_of_ascii c) <? 128) with true
    by (symmetry; apply Z.ltb_lt; lia).
  cbn [app map]. rewrite Nat2Z.id, ascii_nat_embedding.
  f_equal. exact IH.
Qed.

(** Scenario 6, run: the text arrives one character at a time. *)
Example scenario6_runs :
  Forall Utf8.whole scenario6_datas
  /\ curlStreamRequest (fun t => Some t) scenario6_datas 0
     = Resolve [scenario6_first; scenario6_second].
Proof.
  split; [|vm_compute; reflexivity].
  apply Forall_forall. intros d Hd. apply ascii_whole.
  unfold scenario6_datas in Hd. apply in_map_iff in Hd as (c & <- & Hc).
  constructor; [|constructor].
  revert c Hc. apply Forall_forall. vm_compute.
  repeat constructor.
Qed.

Lemma whole_chunks_emit_objects_in_order_witness :
  separators [] /\
  Forall item_ok scenario6_items /\
  Forall2 (fun it v => Some (fst it) = Some v) scenario6_items
          [scenario6_first; scenario6_second] /\
  Forall Utf8.whole scenario6_datas /\
  concat scenario6_datas = array_text [] scenario6_items /\
  curlStreamRequest (fun t => Some t) scenario6_datas 0
  = Resolve [scenario6_first; scenario6_second].
Proof.
  assert (H1 : separators []) by reflexivity.
  assert (H2 := scenario6_items_ok).
  assert (H3 : Forall2 (fun it v => Some (fst it) = Some v) scenario6_items
                 [scenario6_first; scenario6_second])
    by (repeat constructor).
  assert (H4 := proj1 scenario6_runs).
  assert (H5 : concat scenario6_datas = array_text [] scenario6_items)
    by reflexivity.
  exact (conj H1 (conj H2 (conj H3 (conj H4 (conj H5
           (whole_chunks_emit_objects_in_order (fun t => Some t)
              [] scenario6_items _ scenario6_datas H1 H2 H3 H4 H5)))))).
Defined.

(** The object with the Chinese character is a JSON object. *)
Lemma zhong_items_ok : Forall item_ok zhong_items.
Proof.
  assert (Hplain : forall c s, Json.chars s ->
            ch_eqb c dquote = false -> ch_eqb c backslash = false ->
            (32 <=? nat_of_ascii c)%nat = true -> Json.chars (c :: s)).
  { intros c s Hs Hq Hb Hn. apply Json.chars_plain; try assumption.
    - now apply ch_eqb_neq.
    - now apply ch_eqb_neq.
    - now apply Nat.leb_le. }
  repeat constructor; simpl.
  apply Json.object_members with (ms := removelast (tl (text_object zhong))).
  apply Json.t_members_one.
  apply (member_bare (dquote :: str "text" ++ [dquote])
           (dquote :: zhong ++ [dquote])).
  - constructor. repeat (apply Hplain; [|reflexivity..]). constructor.
  - apply element_bare. apply Json.t_string. constructor.
    repeat (apply Hplain; [|reflexivity..]). constructor.
Qed.

(** C4 (the code departs from the claim). The handler turns every chunk
    into a string on its own, so a chunk boundary inside a character
    that takes several bytes destroys the character. The array with the
    one object whose text is the character U+4E2D, a valid JSON object,
    is emitted as it was sent when it arrives in one chunk; cut after the
    first byte of the character, or cut into chunks of one byte, the same
    bytes make the parser emit an object whose text is three U+FFFD
    instead. *)
Theorem chunk_boundary_inside_character_is_lost :
  Forall item_ok zhong_items
  /\ concat zhong_whole = array_text [] zhong_items
  /\ concat zhong_cut = array_text [] zhong_items
  /\ concat zhong_bytewise = array_text [] zhong_items
  /\ curlStreamRequest (fun t => Some t) zhong_whole 0
     = Resolve [text_object zhong]
  /\ curlStreamRequest (fun t => Some t) zhong_cut 0
     = Resolve [text_object (U_FFFD ++ U_FFFD ++ U_FFFD)]
  /\ curlStreamRequest (fun t => Some t) zhong_bytewise 0
     = Resolve [text_object (U_FFFD ++ U_FFFD ++ U_FFFD)]
  /\ text_object (U_FFFD ++ U_FFFD ++ U_FFFD) <> text_object zhong.
Proof.
  split; [exact zhong_items_ok|].
  repeat split; try (vm_compute; reflexivity).
  vm_compute. discriminate.
Qed.

End StreamParserFacts.

(** ** Session fingerprints *)

Module HashFacts.
Import Hash.

(** MD5 against the test suite of RFC 1321 and a few more. *)
Example md5_empty : md5 [] = str "d41d8cd98f00b204e9800998ecf8427e".
Proof. vm_compute. reflexivity. Qed.

Example md5_abc : md5 (str "abc") = str "900150983cd24fb0d6963f7d28e17f72".
Proof. vm_compute. reflexivity. Qed.

Example md5_two_blocks :
  md5 (str "12345678901234567890123456789012345678901234567890123456789012345678901234567890")
  = str "57edf4a22be3c955ac49da2e2107b67a".
Proof. vm_compute. reflexivity. Qed.

Example md5_fox :
  md5 (str "The quick brown fox jumps over the lazy dog")
  = str "9e107d9d372bb6826bd81d3542a419d6".
Proof. vm_compute. reflexivity. Qed.

Lemma jstring_eqb_eq a b : jstring_eqb a b = true <-> a = b.
Proof.
  unfold jstring_eqb. destruct (list_eq_dec ascii_dec a b); split;
    congruence.
Qed.

(** The text the code extracts from a message is the newline-join of its
    non-empty text fields. *)
Lemma extract_nonempty_fields m :
  extractTextFromParts (parts m) = joined_nonempty_text_fields m.
Proof.
  unfold joined_nonempty_text_fields, nonempty_text_fields, text_fields,
    extractTextFromParts.
  destruct (parts m) as [ps|]; [|reflexivity]. f_equal.
  induction ps as [|[[[|c t]|]] ps IH]; simpl;
    solve [reflexivity | assumption | now rewrite IH].
Qed.

Lemma slice_first5_min {A} (l : list A) :
  slice_first5 l = first_n (Nat.min 5 (List.length l)) l.
Proof.
  unfold slice_first5, first_n.
  destruct (Nat.le_gt_cases (List.length l) 5) as [H|H].
  - rewrite Nat.min_r by assumption.
    now rewrite firstn_all, firstn_all2.
  - rewrite Nat.min_l by lia. reflexivity.
Qed.

Lemma slice_last5_min {A} (l : list A) :
  slice_last5 l = last_n (Nat.min 5 (List.length l)) l.
Proof.
  unfold slice_last5, last_n.
  rewrite firstn_rev, rev_involutive. f_equal. lia.
Qed.

Lemma first_n_all {A} (l : list A) k : List.length l = k -> first_n k l = l.
Proof. intros <-. apply firstn_all. Qed.

Lemma last_n_all {A} (l : list A) k : List.length l = k -> last_n k l = l.
Proof.
  intros <-. unfold last_n.
  rewrite <- length_rev, firstn_all. apply rev_involutive.
Qed.

Lemma fingerprints_of_code (users : list message) :
  mkHashes
    (md5 (join (str "|||")
            (map (fun m => extractTextFromParts (parts m)) (slice_first5 users))))
    (md5 (join (str "|||")
            (map (fun m => extractTextFromParts (parts m)) (slice_last5 users))))
  = fingerprints (map joined_nonempty_text_fields users).
Proof.
  unfold fingerprints. rewrite length_map.
  rewrite slice_first5_min, slice_last5_min.
  unfold first_n, last_n.
  rewrite <- map_rev, !firstn_map, <- map_rev.
  f_equal; f_equal; f_equal; apply map_ext; intros m;
    apply extract_nonempty_fields.
Qed.

(** C5, as amended. For every message list with n >= 1 user messages, the
    fingerprints are the MD5 of the three-bar join of the first min(5, n)
    user texts and the MD5 of the three-bar join of the last min(5, n) user
    texts, where the text of a message is the newline-join of the
    non-empty text fields of its parts. They depend on the user texts
    only (not on the random draw), and with exactly 5 user messages the
    two fingerprints are equal. *)
Theorem session_hashes_of_user_texts :
  forall (random : jstring) (messages : list message),
    (1 <= List.length (filter is_user messages))%nat ->
    generateSessionHashes random (Some messages)
    = fingerprints (map joined_nonempty_text_fields (filter is_user messages))
    /\ (List.length (filter is_user messages) = 5%nat ->
        headHash (generateSessionHashes random (Some messages))
        = tailHash (generateSessionHashes random (Some messages))).
Proof.
  intros random messages Hn.
  set (users := filter is_user messages) in *.
  set (result := generateSessionHashes random (Some messages)).
  assert (Hres : result =
            fingerprints (map joined_nonempty_text_fields users)).
  { subst result. unfold generateSessionHashes.
    destruct messages as [|m ms]; [inversion Hn|].
    fold users. destruct users as [|u us] eqn:Hu; [inversion Hn|].
    apply fingerprints_of_code. }
  split; [exact Hres|].
  intros H5. rewrite Hres. unfold fingerprints. rewrite length_map, H5.
  change (Nat.min 5 5) with 5%nat.
  rewrite <- (length_map joined_nonempty_text_fields users) in H5.
  cbn [headHash tailHash].
  now rewrite first_n_all, last_n_all.
Qed.

Lemma session_hashes_of_user_texts_witness :
  (1 <= List.length (filter is_user [message_with_empty_part]))%nat /\
  generateSessionHashes [] (Some [message_with_empty_part])
  = fingerprints (map joined_nonempty_text_fields
                    (filter is_user [message_with_empty_part])).
Proof.
  assert (H : (1 <= List.length (filter is_user [message_with_empty_part]))%nat)
    by apply Nat.le_refl.
  exact (conj H (proj1 (session_hashes_of_user_texts []
                          [message_with_empty_part] H))).
Defined.

(** C5 as stated fails when a part carries an empty text: the code drops
    that part, so the text that is hashed has one newline where the join
    of all the text fields has two. *)
Lemma session_hashes_every_text_field_counterexample :
  (1 <= List.length (filter is_user [message_with_empty_part]))%nat /\
  map joined_text_fields (filter is_user [message_with_empty_part])
    = [str "a" ++ [LF; LF] ++ str "b"] /\
  headHash (generateSessionHashes [] (Some [message_with_empty_part]))
    = str "8cdeb44417f3c26826595d5820cf5700" /\
  headHash (fingerprints (map joined_text_fields
                            (filter is_user [message_with_empty_part])))
    = str "f3085cccd508e131c268385174aee259" /\
  generateSessionHashes [] (Some [message_with_empty_part])
    <> fingerprints (map joined_text_fields
                       (filter is_user [message_with_empty_part])).
Proof.
  split; [apply Nat.le_refl|].
  split; [reflexivity|].
  split; [vm_compute; reflexivity|].
  split; [vm_compute; reflexivity|].
  vm_compute. discriminate.
Qed.

End HashFacts.

(** ** Effects: what touches the journal *)

Module DbFacts.
Import Db.

Lemma statement_runs {A} (run : world -> A * world) w :
  db_faults w = [] -> statement run w = (Ok (fst (run w)), snd (run w)).
Proof. intros Hf. unfold statement. rewrite Hf. now destruct (run w). Qed.

Lemma bind_ok {A B} (c : M A) (k : A -> M B) w a w1 :
  c w = (Ok a, w1) -> bind c k w = k a w1.
Proof. intros H. unfold bind. now rewrite H. Qed.

Lemma bind_throw {A B} (c : M A) (k : A -> M B) w e w1 :
  c w = (Throw e, w1) -> bind c k w = (Throw e, w1).
Proof. intros H. unfold bind. now rewrite H. Qed.

Lemma try_ok {A} (c : M A) (h : error -> M A) w a w1 :
  c w = (Ok a, w1) -> try_catch c h w = (Ok a, w1).
Proof. intros H. unfold try_catch. now rewrite H. Qed.

Lemma try_throw {A} (c : M A) (h : error -> M A) w e w1 :
  c w = (Throw e, w1) -> try_catch c h w = h e w1.
Proof. intros H. unfold try_catch. now rewrite H. Qed.

Lemma calm_ret {A} (a : A) : calm (ret a).
Proof. intros w Hf. now split. Qed.

Lemma calm_throw {A} e : calm (@throw A e).
Proof. intros w Hf. now split. Qed.

Lemma calm_lift {A} (o : outcome A) : calm (fun w => (o, w)).
Proof. intros w Hf. now split. Qed.

Lemma calm_bind {A B} (c : M A) (k : A -> M B) :
  calm c -> (forall a, calm (k a)) -> calm (bind c k).
Proof.
  intros Hc Hk w Hf. unfold bind. specialize (Hc w Hf).
  destruct (c w) as [[a|e] w1]; simpl in *; [|exact Hc].
  destruct Hc as [Hf1 Hj1]. destruct (Hk a w1 Hf1) as [Hf2 Hj2].
  split; congruence.
Qed.

Lemma calm_try_catch {A} (c : M A) (h : error -> M A) :
  calm c -> (forall e, calm (h e)) -> calm (try_catch c h).
Proof.
  intros Hc Hh w Hf. unfold try_catch. specialize (Hc w Hf).
  destruct (c w) as [[a|e] w1]; simpl in *; [exact Hc|].
  destruct Hc as [Hf1 Hj1]. destruct (Hh e w1 Hf1) as [Hf2 Hj2].
  split; congruence.
Qed.

Lemma calm_statement {A} (run : world -> A * world) :
  quiet run -> calm (statement run).
Proof.
  intros Hq w Hf. rewrite (statement_runs run w Hf). simpl.
  destruct (Hq w) as [H1 H2]. split; congruence.
Qed.

Lemma calm_now : calm now.
Proof. intros w Hf. now split. Qed.

Lemma calm_Math_random : calm Math_random.
Proof. intros w Hf. unfold Math_random. now destruct (randoms w). Qed.

Lemma calm_randomString : calm randomString.
Proof. intros w Hf. unfold randomString. now destruct (entropy w). Qed.

Lemma returns_ret {A} (a : A) : returns (ret a).
Proof. intros w _. now exists a. Qed.

Lemma returns_statement {A} (run : world -> A * world) :
  returns (statement run).
Proof.
  intros w Hf. rewrite (statement_runs run w Hf). now exists (fst (run w)).
Qed.

Lemma returns_bind {A B} (c : M A) (k : A -> M B) :
  calm c -> returns c -> (forall a, returns (k a)) -> returns (bind c k).
Proof.
  intros Hcalm Hc Hk w Hf. unfold bind.
  destruct (Hc w Hf) as [a Ha]. destruct (Hcalm w Hf) as [Hf1 _].
  destruct (c w) as [[a'|e] w1]; simpl in *; [|discriminate].
  apply (Hk a' w1 Hf1).
Qed.

(** What a calm computation does, by cases. *)
Lemma calm_cases {A} (c : M A) w :
  calm c -> db_faults w = [] ->
  exists r w1, c w = (r, w1) /\ db_faults w1 = [] /\ journal w1 = journal w.
Proof.
  intros Hc Hf. destruct (Hc w Hf) as [H1 H2].
  exists (fst (c w)), (snd (c w)). now destruct (c w).
Qed.

Lemma returning_cases {A} (c : M A) w :
  calm c -> returns c -> db_faults w = [] ->
  exists a w1, c w = (Ok a, w1) /\ db_faults w1 = [] /\ journal w1 = journal w.
Proof.
  intros Hc Hr Hf. destruct (Hc w Hf) as [H1 H2]. destruct (Hr w Hf) as [a Ha].
  exists a, (snd (c w)). destruct (c w) as [r w1]; simpl in *. now subst r.
Qed.

Lemma returns_now : returns now.
Proof. intros w _. now exists (clock w). Qed.

Create HintDb gateway.

#[export] Hint Resolve calm_ret calm_throw calm_lift calm_now calm_Math_random
  calm_randomString returns_ret returns_statement returns_now : gateway.

(** Calm computations are closed under sequencing, handlers and case
    analysis; so are returning ones. *)
Ltac calm :=
  repeat first
    [ assumption
    | apply calm_ret | apply calm_throw | apply calm_lift | apply calm_now
    | apply calm_Math_random | apply calm_randomString
    | apply calm_bind; [|intros ?]
    | apply calm_try_catch; [|intros ?]
    | apply calm_statement; intros ?; split; reflexivity
    | match goal with
      | |- calm (match ?x with _ => _ end) => destruct x
      end
    | solve [auto with gateway] ].

Ltac returning :=
  repeat first
    [ assumption
    | apply returns_ret | apply returns_statement | apply returns_now
    | apply returns_bind; [calm | | intros ?]
    | match goal with
      | |- returns (match ?x with _ => _ end) => destruct x
      end
    | solve [auto with gateway] ].

End DbFacts.

(** ** The provider scheduler *)

Module ProviderSchedulerFacts.
Import Db ProviderScheduler.

(** The array that [executeWithRetry] passes as [excludeId] excludes no
    provider: the filter of [selectProvider] compares each id with the
    array itself. *)
Lemma array_exclusion_keeps_all (ids : list Z) (ps : list ProviderRow.t) :
  filter (fun p => strict_neq (ProviderRow.id p) (ExArray ids)) ps = ps.
Proof.
  induction ps as [|p ps IH]; [reflexivity|].
  cbn [filter strict_neq]. f_equal. exact IH.
Qed.

Lemma selectProvider_ignores_array cfg groupId ids w :
  selectProvider cfg groupId (ExArray ids) w
  = selectProvider cfg groupId ExNull w.
Proof.
  unfold selectProvider, bind. cbn [truthy_exclude].
  destruct (Provider.getAvailableProviders cfg groupId w) as [[ps|e] w'];
    [|reflexivity].
  now rewrite array_exclusion_keeps_all.
Qed.

(** A single id, the value the documentation of [selectProvider] names,
    does exclude that provider. *)
Lemma single_exclusion_excludes (i : Z) (ps : list ProviderRow.t) :
  ~ In i (map ProviderRow.id
            (filter (fun p => strict_neq (ProviderRow.id p) (ExId i)) ps)).
Proof.
  rewrite in_map_iff. intros (p & Hid & Hp).
  apply filter_In in Hp as [_ Hp]. simpl in Hp.
  rewrite <- Hid, Z.eqb_refl in Hp. discriminate.
Qed.

(** C1 (the code departs from the claim). Three attempts on a pool whose
    only provider fails each time: the provider that failed is acquired
    again on the second and on the third attempt, and on a pool of two the
    provider that failed first is acquired again on the third attempt. *)
Theorem retry_reacquires_failed_provider :
  fst retry_alone = Throw (str "upstream failed")
  /\ acquisitions (snd retry_alone) = [1; 1; 1]
  /\ acquisitions (snd retry_pair) = [1; 2; 1].
Proof. repeat split; vm_compute; reflexivity. Qed.


End ProviderSchedulerFacts.
(** ** The provider model *)

Module ProviderFacts.
Import Db ProviderRow.

Lemma find_map_update (target : Z) (set : t -> t) (ps : list t) (p : t) :
  (forall q, id (set q) = id q) ->
  find (fun q => id q =? target) ps = Some p ->
  find (fun q => id q =? target)
       (map (fun q => if id q =? target then set q else q) ps)
  = Some (set p).
Proof.
  intros Hid. induction ps as [|q ps IH]; simpl; [discriminate|].
  destruct (id q =? target) eqn:Hq.
  - intros [= ->]. simpl. now rewrite Hid, Hq.
  - simpl. rewrite Hq. exact IH.
Qed.

Lemma found_is_counted {A} (f : A -> bool) (l : list A) (a : A) :
  find f l = Some a -> (Z.of_nat (List.length (filter f l)) >? 0) = true.
Proof.
  induction l as [|x l IH]; cbn [find filter]; [discriminate|].
  destruct (f x); [|exact IH].
  intros _. cbn [Datatypes.length]. apply Z.gtb_lt. lia.
Qed.

(** C7. When a failure is recorded for a provider that exists, the row
    read back afterwards has consecutive_failures one higher, health_score
    max(0, previous - 10), failed_requests and total_requests one higher;
    when the new consecutive_failures reaches failure_threshold the
    cooldown is set to now + cooldown_duration and the status is cooling,
    unless it also reaches twice the threshold, in which case the status
    is failed. *)
Theorem recordFailure_post_state :
  forall (cfg : config) (w : world) (target : Z) (msg : option jstring) (p : t),
    db_faults w = [] ->
    find (fun q => id q =? target) (providers w) = Some p ->
    exists p',
      fst (Provider.recordFailure cfg target msg w) = Ok true
      /\ find (fun q => id q =? target)
              (providers (snd (Provider.recordFailure cfg target msg w)))
         = Some p'
      /\ consecutive_failures p' = consecutive_failures p + 1
      /\ health_score p' = Z.max 0 (health_score p - 10)
      /\ failed_requests p' = failed_requests p + 1
      /\ total_requests p' = total_requests p + 1
      /\ last_failure_at p' = Some (clock w)
      /\ (failureThreshold cfg <= consecutive_failures p' ->
          cooldown_until p' = Some (clock w + cooldownDuration cfg))
      /\ (failureThreshold cfg <= consecutive_failures p' ->
          consecutive_failures p' < 2 * failureThreshold cfg ->
          status p' = cooling)
      /\ (2 * failureThreshold cfg <= consecutive_failures p' ->
          status p' = failed)
      /\ (consecutive_failures p' < failureThreshold cfg ->
          consecutive_failures p' < 2 * failureThreshold cfg ->
          status p' = status p /\ cooldown_until p' = cooldown_until p).
Proof.
  intros cfg w target msg p Hf Hp.
  unfold Provider.recordFailure, Provider.findById, Provider.update,
    bind, statement, now, ret.
  rewrite Hf, Hp. cbn [fst snd].
  set (failures := consecutive_failures p + 1).
  pose proof (found_is_counted _ _ _ Hp) as Hcount.
  destruct (failureThreshold cfg <=? failures) eqn:H1;
    destruct (failureThreshold cfg * 2 <=? failures) eqn:H2;
    cbn [fst snd Provider.update_rows db_faults set_providers]; rewrite Hf;
    cbn [fst snd Provider.update_rows db_faults set_providers providers];
    rewrite Hcount;
    (eexists; split; [reflexivity|]; split;
     [ apply find_map_update; [reflexivity | exact Hp]
     | cbn [consecutive_failures health_score failed_requests total_requests
            last_failure_at cooldown_until status];
       repeat split; try reflexivity; intros; try lia; try reflexivity ]).
Qed.

(** Scenario 4 of the specification: four failures so far, one more. *)
Lemma recordFailure_post_state_witness :
  db_faults (ProviderScheduler.world_of
               [mk 1 None active 80 0 10 9 4 4 None None None]) = []
  /\ exists p',
       find (fun q => id q =? 1)
            (providers (snd (Provider.recordFailure default_config 1 None
               (ProviderScheduler.world_of
                  [mk 1 None active 80 0 10 9 4 4 None None None]))))
       = Some p'
       /\ consecutive_failures p' = 5 /\ health_score p' = 70
       /\ status p' = cooling
       /\ cooldown_until p' = Some (1700000000000 + 300000).
Proof.
  split; [reflexivity|].
  destruct (recordFailure_post_state default_config
              (ProviderScheduler.world_of
                 [mk 1 None active 80 0 10 9 4 4 None None None])
              1 None (mk 1 None active 80 0 10 9 4 4 None None None)
              eq_refl eq_refl)
    as (p' & _ & Hfind & Hcf & Hhs & _ & _ & _ & Hcd & Hcool & _).
  exists p'. split; [exact Hfind|].
  simpl in Hcf, Hhs, Hcd, Hcool. rewrite Hcf in Hcd, Hcool.
  repeat split.
  - exact Hcf.
  - exact Hhs.
  - apply Hcool; lia.
  - apply Hcd; lia.
Defined.

End ProviderFacts.

(** ** The session model *)

Module SessionFacts.
Import Db SessionRow Session.



Lemma newest_of_nonempty (rows : list t) :
  rows <> [] -> exists s, newest rows = Some s.
Proof.
  destruct rows as [|r rows]; [congruence|]. intros _.
  unfold newest. simpl. generalize r. clear r.
  induction rows as [|x rows IH]; intros r; simpl.
  - now exists r.
  - destruct (last_accessed_at r <? last_accessed_at x); apply IH.
Qed.

Lemma filter_nonempty {A} (f : A -> bool) (l : list A) (a : A) :
  In a l -> f a = true -> filter f l <> [].
Proof.
  intros Hin Hf He.
  assert (H : In a (filter f l)) by (apply filter_In; tauto).
  rewrite He in H. destruct H.
Qed.

Lemma filter_all_false {A} (f : A -> bool) (l : list A) :
  (forall a, In a l -> f a = false) -> filter f l = [].
Proof.
  induction l as [|x l IH]; simpl; intros H; [reflexivity|].
  rewrite (H x) by now left. apply IH. intros a Ha. apply H. now right.
Qed.

Lemma exact_is_head w u h tl s :
  exact_row w u h tl s = true -> head_row w u h s = true.
Proof.
  unfold exact_row, head_row. rewrite !andb_true_iff. tauto.
Qed.


(** Scenario 3 of the specification: the tail has moved on, the head is
    found, and the newer of the two rows gets the new tail. *)
Example head_match_updates_newest :
  findMatchingSession 7 (str "head") (str "tail-c") two_sessions
  = (Ok (Some (session_of 2 (str "tail-b") 200), head),
     set_sessions two_sessions
       [session_of 1 (str "tail-a") 100;
        session_of 2 (str "tail-c") 1700000000000]).
Proof. vm_compute. reflexivity. Qed.


End SessionFacts.

(** ** The request executor *)

Module RequestExecutorFacts.
Import Db RequestExecutor.

(** *** Returning and throwing *)

Lemma bind_returns {A B} (c : M A) (k : A -> M B) w b w' :
  bind c k w = (Ok b, w') ->
  exists a w1, c w = (Ok a, w1) /\ k a w1 = (Ok b, w').
Proof.
  unfold bind. destruct (c w) as [[a|e] w1]; [|discriminate].
  intros H. now exists a, w1.
Qed.

Lemma try_catch_returns {A} (c : M A) (h : error -> M A) w a w' :
  try_catch c h w = (Ok a, w') ->
  c w = (Ok a, w') \/ exists e w1, c w = (Throw e, w1) /\ h e w1 = (Ok a, w').
Proof.
  unfold try_catch. destruct (c w) as [[x|e] w1]; intros H.
  - now left.
  - right. now exists e, w1.
Qed.

(** The [catch] block of [generateContent] never returns. *)
Lemma failed_throws cfg o providerId sessionId {A} e w (a : A) w' :
  failed cfg o providerId sessionId e w <> (Ok a, w').
Proof.
  unfold failed. intros H.
  apply bind_returns in H as (_ & w1 & _ & H).
  apply bind_returns in H as (_ & w2 & _ & H).
  discriminate H.
Qed.

Lemma caught_returns cfg o providerId sessionId {A} (c : M A) w a w' :
  try_catch c (failed cfg o providerId sessionId) w = (Ok a, w') ->
  c w = (Ok a, w').
Proof.
  intros H. apply try_catch_returns in H as [H | (e & w1 & _ & H)];
    [exact H | now apply failed_throws in H].
Qed.

Lemma ret_returns {A} (x : A) w a w' : ret x w = (Ok a, w') -> a = x.
Proof. unfold ret. now intros [= <- _]. Qed.

Lemma lift_returns {A} (o : outcome A) w a w' :
  lift o w = (Ok a, w') -> o = Ok a.
Proof. unfold lift. now intros [= -> _]. Qed.

(** A response that [generateContent] returns was built from what the
    upstream sent. *)
Lemma generateContent_returns cfg up o w resp w' :
  generateContent cfg up o w = (Ok resp, w') ->
  exists raw imageData,
    sendMessage up = Ok raw
    /\ resp = _buildResponse (parseResponse raw) imageData (model o)
                             (includeThoughts o).
Proof.
  unfold generateContent. intros H.
  apply bind_returns in H as (provider & w1 & _ & H).
  apply bind_returns in H as ([[session isNew] mt] & w2 & _ & H).
  apply caught_returns in H.
  apply bind_returns in H as (gid & w3 & _ & H).
  apply bind_returns in H as (raw & w4 & Hraw & H).
  apply lift_returns in Hraw.
  apply bind_returns in H as (imageData & w5 & _ & H).
  apply bind_returns in H as (_ & w6 & _ & H).
  apply bind_returns in H as (_ & w7 & _ & H).
  apply bind_returns in H as (_ & w8 & _ & H).
  apply bind_returns in H as (_ & w9 & _ & H).
  apply ret_returns in H.
  now exists raw, imageData.
Qed.

Lemma sum_of_estimates (ts : list (option jstring)) : forall acc,
  fold_left (fun sum t => sum + _estimateTokens t) ts acc
  = acc + total (map _estimateTokens ts).
Proof.
  induction ts as [|t ts IH]; intros acc; simpl.
  - lia.
  - rewrite IH. unfold total. simpl. lia.
Qed.

(** C10. In every response that the unary [generateContent] returns,
    promptTokenCount is the token estimate of the generated text that is
    not a thought (parsed.content), whatever the caller sent;
    candidatesTokenCount is that same estimate plus the estimates of the
    thoughts, and totalTokenCount is the sum of the two counts. *)
Theorem prompt_tokens_count_the_generated_text :
  forall (cfg : config) (up : upstream) (o : options) (w w' : world)
         (resp : response),
    generateContent cfg up o w = (Ok resp, w') ->
    exists raw,
      sendMessage up = Ok raw
      /\ promptTokenCount (usageMetadata resp)
         = _estimateTokens (Some (content (parseResponse raw)))
      /\ candidatesTokenCount (usageMetadata resp)
         = promptTokenCount (usageMetadata resp)
           + total (map _estimateTokens (thoughts (parseResponse raw)))
      /\ totalTokenCount (usageMetadata resp)
         = promptTokenCount (usageMetadata resp)
           + candidatesTokenCount (usageMetadata resp).
Proof.
  intros cfg up o w w' resp H.
  apply generateContent_returns in H as (raw & img & Hraw & ->).
  exists raw. split; [exact Hraw|].
  unfold _buildResponse. cbn [usageMetadata promptTokenCount
                               candidatesTokenCount totalTokenCount].
  rewrite sum_of_estimates. repeat split; lia.
Qed.

(** Scenario 1 of the specification, run. The request text is Hello, the
    upstream answers Hi there: both counts are the estimate of the
    answer. *)
Example fresh_conversation_runs :
  exists resp w',
    fresh_conversation = (Ok resp, w')
    /\ parts resp = [TextPart (str "Hi there")]
    /\ usageMetadata resp = mkUsage 2 2 4
    /\ journal w' = [Acquired 1; Released 1]
    /\ map ProviderRow.current_load (providers w') = [0].
Proof. do 2 eexists. vm_compute. repeat split; reflexivity. Qed.

Lemma prompt_tokens_count_the_generated_text_witness :
  generateContent default_config upstream_ok
    (request (SessionMatcher.CMessages [hello]))
    (ProviderScheduler.world_of [ProviderScheduler.healthy_provider 1])
  = (Ok (_buildResponse (parseResponse [text_chunk (str "Hi there")]) None
           (str "gemini-2.0-flash-exp") false),
     snd fresh_conversation)
  /\ exists raw,
       sendMessage upstream_ok = Ok raw
       /\ promptTokenCount (usageMetadata (_buildResponse
            (parseResponse [text_chunk (str "Hi there")]) None
            (str "gemini-2.0-flash-exp") false))
          = _estimateTokens (Some (content (parseResponse raw))).
Proof.
  assert (Hrun : generateContent default_config upstream_ok
                   (request (SessionMatcher.CMessages [hello]))
                   (ProviderScheduler.world_of
                      [ProviderScheduler.healthy_provider 1])
                 = (Ok (_buildResponse
                          (parseResponse [text_chunk (str "Hi there")]) None
                          (str "gemini-2.0-flash-exp") false),
                    snd fresh_conversation))
    by (vm_compute; reflexivity).
  split; [exact Hrun|].
  destruct (prompt_tokens_count_the_generated_text default_config upstream_ok
              (request (SessionMatcher.CMessages [hello]))
              (ProviderScheduler.world_of [ProviderScheduler.healthy_provider 1])
              (snd fresh_conversation)
              (_buildResponse (parseResponse [text_chunk (str "Hi there")])
                 None (str "gemini-2.0-flash-exp") false)
              Hrun)
    as (raw & Hraw & Hprompt & _).
  exists raw. split; [exact Hraw | exact Hprompt].
Defined.

(** C3 (the code departs from the claim). A body without [contents], or
    with [contents] that is not an array, reaches the executor: a provider
    is acquired, the call fails inside session matching, the provider is
    released, a failure is recorded against it and a log row with status
    500 is written. *)
Theorem missing_contents_acquires_a_provider :
  fst missing_contents
    = Throw (str "Cannot read properties of undefined (reading 'length')")
  /\ journal (snd missing_contents) = [Acquired 1; Released 1]
  /\ map ProviderRow.health_score (providers (snd missing_contents)) = [90]
  /\ map ProviderRow.consecutive_failures (providers (snd missing_contents)) = [1]
  /\ map LogRow.status_code (request_logs (snd missing_contents)) = [500]
  /\ fst malformed_contents
     = Throw (str "messages.filter is not a function")
  /\ journal (snd malformed_contents) = [Acquired 1; Released 1]
  /\ map LogRow.status_code (request_logs (snd malformed_contents)) = [500].
Proof. vm_compute. repeat split; reflexivity. Qed.

(** C2 (the code departs from the claim). When the statement that writes
    the request log is rejected after the release of a good request,
    [generateContent] releases the provider a second time in its [catch]
    block: the request fails, and the load of a provider that serves one
    other request falls from 2 to 0. When the statement that records a
    failure is rejected inside [executeWithRetry], the provider is not
    released at all and its load stays at 1. *)
Theorem release_does_not_balance_acquire :
  fst success_unlogged = Throw (str "database error")
  /\ journal (snd success_unlogged) = [Acquired 1; Released 1; Released 1]
  /\ map ProviderRow.current_load (providers (snd success_unlogged)) = [0]
  /\ journal (snd ProviderScheduler.retry_unrecorded) = [Acquired 1]
  /\ map ProviderRow.current_load
         (providers (snd ProviderScheduler.retry_unrecorded)) = [1].
Proof. vm_compute. repeat split; reflexivity. Qed.

End RequestExecutorFacts.

(** ** The bearer token *)

Module BearerTokenFacts.
Import BearerToken.

Example base64_encode_vectors :
  Base64.encode (map MD5.byte_of (str "foobar")) = str "Zm9vYmFy"
  /\ Base64.encode (map MD5.byte_of (str "fooba")) = str "Zm9vYmE="
  /\ Base64.encode (map MD5.byte_of (str "foob")) = str "Zm9vYg=="
  /\ Base64.decode (str "Zm9vYmE=") = map MD5.byte_of (str "fooba")
  /\ base64urlDecode (str "Zm9vYg") = map MD5.byte_of (str "foob").
Proof. repeat split; vm_compute; reflexivity. Qed.

(** *** The segments of a token hold no dot *)

Lemma digit_in_alphabet n : In (Base64.digit n) Base64.alphabet.
Proof.
  unfold Base64.digit.
  destruct (nth_in_or_default (Z.to_nat n) Base64.alphabet "A"%char) as [H | ->].
  - exact H.
  - now left.
Qed.

Lemma alphabet_dotless c :
  In c ("="%char :: Base64.alphabet) -> c <> "."%char.
Proof.
  intros H ->. revert H. vm_compute. intuition discriminate.
Qed.

Lemma encode_chars : forall bs c,
  In c (Base64.encode bs) -> In c ("="%char :: Base64.alphabet).
Proof.
  fix IH 1. intros [|a [|b [|x rest]]] c H.
  - destruct H.
  - cbn [Base64.encode] in H.
    destruct H as [<- | [<- | [<- | [<- | []]]]];
      solve [now left | right; apply digit_in_alphabet].
  - cbn [Base64.encode] in H.
    destruct H as [<- | [<- | [<- | [<- | []]]]];
      solve [now left | right; apply digit_in_alphabet].
  - cbn [Base64.encode] in H.
    destruct H as [<- | [<- | [<- | [<- | H]]]];
      solve [right; apply digit_in_alphabet | now apply IH in H].
Qed.

Lemma strip_padding_incl s c : In c (strip_padding s) -> In c s.
Proof.
  unfold strip_padding. intros H. apply in_rev in H. apply in_rev.
  revert H. generalize (rev s). intros l.
  induction l as [|x l IH]; [tauto|].
  destruct (ch_eqb x "="%char); [|tauto].
  intros H. right. now apply IH.
Qed.

Lemma url_safe_dotless bs : dotless (url_safe (Base64.encode bs)).
Proof.
  apply Forall_forall. intros c H.
  unfold url_safe in H. apply strip_padding_incl in H.
  unfold replace_char in H. rewrite map_map in H.
  apply in_map_iff in H as (x & <- & Hx).
  apply encode_chars, alphabet_dotless in Hx.
  destruct (ch_eqb x "+"%char); destruct (ch_eqb _ "/"%char) eqn:E;
    try discriminate; try exact Hx.
Qed.

Lemma split_dotless a : dotless a -> forall cur,
  split_dots a cur = [cur ++ a].
Proof.
  induction 1 as [|c a Hc _ IH]; intros cur; simpl.
  - now rewrite app_nil_r.
  - apply ch_eqb_neq in Hc. rewrite Hc, IH, <- app_assoc. reflexivity.
Qed.

Lemma split_at_dot a : dotless a -> forall rest cur,
  split_dots (a ++ "."%char :: rest) cur = (cur ++ a) :: split_dots rest [].
Proof.
  induction 1 as [|c a Hc _ IH]; intros rest cur; simpl.
  - now rewrite app_nil_r.
  - apply ch_eqb_neq in Hc. rewrite Hc, IH, <- app_assoc. reflexivity.
Qed.

End BearerTokenFacts.

(** ** The credential cipher *)

Module CryptoFacts.
Import Crypto.

Section RoundTrip.

Variable AES_encrypt : jstring -> jstring -> jstring -> jstring.
Variable AES_decrypt : jstring -> jstring -> option jstring.
Variable SECRET_KEY : jstring.

(** What the library promises: a ciphertext is never the empty string,
    and deciphering with the passphrase of the encryption gives the text
    back. *)
Hypothesis ciphertext_not_empty :
  forall key salt text, AES_encrypt key salt text <> [].
Hypothesis AES_round_trip :
  forall key salt text,
    AES_decrypt key (AES_encrypt key salt text) = Some text.

(** C9. For every credential string and every salt the library draws,
    decrypting the encryption with the same process-wide key gives the
    string back. *)
Theorem decrypt_encrypt_identity :
  forall (salt s : jstring),
    decrypt AES_decrypt SECRET_KEY (encrypt AES_encrypt SECRET_KEY salt s) = s.
Proof.
  intros salt s. unfold encrypt, decrypt.
  destruct s as [|c s]; [reflexivity|].
  destruct (AES_encrypt SECRET_KEY salt (c :: s)) eqn:E.
  - now apply ciphertext_not_empty in E.
  - now rewrite <- E, AES_round_trip.
Qed.

End RoundTrip.

Lemma toy_not_empty key salt text : toy_encrypt key salt text <> [].
Proof. discriminate. Qed.

Lemma toy_round_trip key salt text :
  toy_decrypt key (toy_encrypt key salt text) = Some text.
Proof.
  unfold toy_decrypt, toy_encrypt. simpl. now rewrite rev_involutive.
Qed.

Lemma decrypt_encrypt_identity_witness :
  decrypt toy_decrypt (str "gemini-gateway-secret-key-2024")
    (encrypt toy_encrypt (str "gemini-gateway-secret-key-2024") (str "salt")
       (str "SID=abc; HSID=def"))
  = str "SID=abc; HSID=def".
Proof.
  exact (decrypt_encrypt_identity toy_encrypt toy_decrypt
           (str "gemini-gateway-secret-key-2024")
           toy_not_empty toy_round_trip
           (str "salt") (str "SID=abc; HSID=def")).
Defined.

End CryptoFacts.

(** ** Acquisitions and releases when no bookkeeping statement is rejected *)

Module BalanceFacts.
Import Db DbFacts.

(** *** The models and the matcher do not touch the journal *)

Lemma calm_Provider_recordSuccess i : calm (Provider.recordSuccess i).
Proof. unfold Provider.recordSuccess. calm. Qed.

Lemma calm_Provider_recordFailure cfg i m : calm (Provider.recordFailure cfg i m).
Proof.
  unfold Provider.recordFailure, Provider.findById, Provider.update. calm.
Qed.

Lemma calm_getAvailableProviders cfg g : calm (Provider.getAvailableProviders cfg g).
Proof. unfold Provider.getAvailableProviders. calm. Qed.

Lemma calm_selectProvider cfg g e : calm (ProviderScheduler.selectProvider cfg g e).
Proof.
  unfold ProviderScheduler.selectProvider.
  apply calm_bind; [apply calm_getAvailableProviders | intros ps].
  calm.
Qed.

Lemma calm_recordSuccess i : calm (ProviderScheduler.recordSuccess i).
Proof.
  unfold ProviderScheduler.recordSuccess.
  apply calm_bind; [apply calm_Provider_recordSuccess | intros; calm].
Qed.

Lemma calm_recordFailure cfg i m : calm (ProviderScheduler.recordFailure cfg i m).
Proof.
  unfold ProviderScheduler.recordFailure.
  apply calm_bind; [apply calm_Provider_recordFailure | intros; calm].
Qed.

Lemma returns_recordSuccess i : returns (ProviderScheduler.recordSuccess i).
Proof.
  unfold ProviderScheduler.recordSuccess, Provider.recordSuccess. returning.
Qed.

Lemma returns_recordFailure cfg i m :
  returns (ProviderScheduler.recordFailure cfg i m).
Proof.
  unfold ProviderScheduler.recordFailure, Provider.recordFailure,
    Provider.findById, Provider.update.
  returning.
Qed.

Lemma calm_findMatchingSession u h t : calm (Session.findMatchingSession u h t).
Proof. unfold Session.findMatchingSession, Session.update. calm. Qed.

Lemma quiet_delete_oldest u : quiet (Session.delete_oldest u).
Proof.
  intros w. unfold Session.delete_oldest.
  destruct (Session.oldest _); split; reflexivity.
Qed.

Lemma calm_createSession cfg p u h t : calm (Session.createSession cfg p u h t).
Proof.
  unfold Session.createSession, Session.findById.
  apply calm_bind; [|intros; calm].
  destruct (negb (u =? 0)); [|calm].
  apply calm_bind; [calm | intros count].
  destruct (maxPerUser cfg <=? count); [|calm].
  apply calm_bind; [|intros; calm].
  apply calm_statement, quiet_delete_oldest.
Qed.

Lemma calm_matchOrCreate cfg u p c : calm (SessionMatcher.matchOrCreate cfg u p c).
Proof.
  unfold SessionMatcher.matchOrCreate.
  apply calm_bind.
  { unfold SessionMatcher.generateSessionHashes. calm. }
  intros hashes. apply calm_bind.
  { unfold SessionMatcher.messages_length. calm. }
  intros _. apply calm_bind; [apply calm_findMatchingSession|].
  intros [[s|] mt]; [calm|].
  destruct (p =? 0); [calm|].
  apply calm_bind; [apply calm_createSession | intros; calm].
Qed.

Lemma calm_updateGeminiSession i g : calm (SessionMatcher.updateGeminiSession i g).
Proof.
  unfold SessionMatcher.updateGeminiSession, Session.updateGeminiSessionId,
    Session.update.
  calm.
Qed.

Lemma calm_recordMessage cfg i : calm (SessionMatcher.recordMessage cfg i).
Proof.
  unfold SessionMatcher.recordMessage, Session.incrementMessageCount. calm.
Qed.

Lemma calm_RequestLog_log row : calm (RequestExecutor.RequestLog_log row).
Proof. unfold RequestExecutor.RequestLog_log. calm. Qed.

Lemma returns_RequestLog_log row : returns (RequestExecutor.RequestLog_log row).
Proof. unfold RequestExecutor.RequestLog_log. returning. Qed.

(** *** Acquire and release *)

Lemma release_spec pid w :
  db_faults w = [] ->
  exists w1, ProviderScheduler.releaseProvider pid w = (Ok tt, w1)
             /\ db_faults w1 = []
             /\ journal w1 = journal w ++ [Released pid].
Proof.
  intros Hf. unfold ProviderScheduler.releaseProvider, Provider.decrementLoad, bind.
  rewrite statement_runs by assumption. cbn [fst snd Provider.update_rows ret].
  eexists. split; [reflexivity|]. split; [exact Hf | reflexivity].
Qed.

Lemma In_firstn {A} (x : A) n : forall l, In x (firstn n l) -> In x l.
Proof.
  induction n as [|n IH]; intros [|y l]; simpl; try tauto.
  intros [<- | H]; auto.
Qed.

Lemma In_insert_ranked p x l :
  In p (Provider.insert_ranked x l) -> p = x \/ In p l.
Proof.
  induction l as [|q l IH]; simpl.
  - intros [<- | []]. now left.
  - destruct (Provider.ranks_before x q); simpl.
    + intros [<- | [<- | H]]; auto.
    + intros [<- | H]; auto. destruct (IH H); auto.
Qed.

Lemma In_order_ranked p l : In p (Provider.order_ranked l) -> In p l.
Proof.
  induction l as [|x l IH]; simpl; [tauto|].
  intros H. apply In_insert_ranked in H as [<- | H]; auto.
Qed.

Lemma pick_In ps : forall r p,
  ProviderScheduler.pick r ps = Some p -> In p ps.
Proof.
  induction ps as [|q ps IH]; simpl; intros r p; [discriminate|].
  destruct (Qle_bool _ 0).
  - intros [= <-]. now left.
  - intros H. right. eapply IH; eassumption.
Qed.

Lemma weightedRandom_In d ps p :
  ProviderScheduler.weightedRandom d ps = Some p -> In p ps.
Proof.
  unfold ProviderScheduler.weightedRandom.
  destruct (ProviderScheduler.pick _ ps) eqn:E.
  - intros [= <-]. eapply pick_In; eassumption.
  - destruct ps; simpl; [discriminate|]. intros [= <-]. now left.
Qed.

Lemma selectProvider_member cfg g e w p w1 :
  db_faults w = [] ->
  ProviderScheduler.selectProvider cfg g e w = (Ok p, w1) ->
  In p (providers w).
Proof.
  intros Hf. unfold ProviderScheduler.selectProvider, bind,
    Provider.getAvailableProviders.
  rewrite statement_runs by assumption. cbn [fst snd].
  set (avail := firstn 20 _).
  assert (Havail : forall q, In q avail -> In q (providers w)).
  { intros q Hq. subst avail. apply In_firstn in Hq.
    apply In_order_ranked in Hq. now apply filter_In in Hq. }
  set (candidates := if ProviderScheduler.truthy_exclude e then _ else avail).
  assert (Hcand : forall q, In q candidates -> In q (providers w)).
  { intros q Hq. subst candidates.
    destruct (ProviderScheduler.truthy_exclude e); [|now apply Havail].
    apply filter_In in Hq. now apply Havail. }
  destruct candidates as [|c cs] eqn:Ec; [discriminate|].
  destruct (Math_random w) as [[d|e'] w2]; [|discriminate].
  destruct (ProviderScheduler.weightedRandom d (c :: cs)) eqn:Ew;
    [|discriminate].
  intros [= <- _]. apply Hcand. eapply weightedRandom_In; eassumption.
Qed.

Lemma acquire_spec cfg g e w :
  db_faults w = [] ->
  (exists p w1,
     ProviderScheduler.acquireProvider cfg g e w = (Ok p, w1)
     /\ In p (providers w) /\ db_faults w1 = []
     /\ journal w1 = journal w ++ [Acquired (ProviderRow.id p)])
  \/ (exists err w1,
        ProviderScheduler.acquireProvider cfg g e w = (Throw err, w1)
        /\ db_faults w1 = [] /\ journal w1 = journal w).
Proof.
  intros Hf. unfold ProviderScheduler.acquireProvider, bind.
  destruct (calm_cases _ w (calm_selectProvider cfg g e) Hf)
    as (r & w1 & Hsel & Hf1 & Hj1).
  rewrite Hsel. destruct r as [p|err].
  - left. unfold Provider.incrementLoad.
    rewrite statement_runs by assumption.
    cbn [fst snd Provider.update_rows ret].
    eexists p, _. split; [reflexivity|]. split.
    + eapply selectProvider_member; eassumption.
    + split; [exact Hf1 | cbn; now rewrite Hj1].
  - right. now exists err, w1.
Qed.

(** *** [generateContent] *)

Lemma failed_without_provider cfg o sid {A} e :
  calm (@RequestExecutor.failed cfg o None sid A e).
Proof.
  unfold RequestExecutor.failed.
  apply calm_bind; [calm | intros _].
  apply calm_bind; [apply calm_RequestLog_log | intros; calm].
Qed.

Lemma failed_releases cfg o pid sid {A} e w :
  pid <> 0 -> db_faults w = [] ->
  journal (snd (@RequestExecutor.failed cfg o (Some pid) sid A e w))
  = journal w ++ [Released pid].
Proof.
  intros Hpid Hf. unfold RequestExecutor.failed.
  apply Z.eqb_neq in Hpid. rewrite Hpid. cbn [negb].
  unfold bind.
  destruct (release_spec pid w Hf) as (w1 & -> & Hf1 & Hj1).
  destruct (calm_cases _ w1 (calm_recordFailure cfg pid e) Hf1)
    as (r & w2 & -> & Hf2 & Hj2).
  destruct r as [[]|err]; cbn [snd]; [|congruence].
  match goal with
  | |- context [RequestExecutor.RequestLog_log ?row w2] =>
      destruct (calm_cases _ w2 (calm_RequestLog_log row) Hf2)
        as (r & w3 & -> & Hf3 & Hj3)
  end.
  destruct r as [[]|err]; cbn [snd throw]; congruence.
Qed.

Lemma failed_result cfg o pid sid {A} e w :
  exists e' w', @RequestExecutor.failed cfg o pid sid A e w = (Throw e', w').
Proof.
  destruct (RequestExecutor.failed cfg o pid sid e w) as [[a|e'] w'] eqn:E.
  - now apply RequestExecutorFacts.failed_throws in E.
  - now exists e', w'.
Qed.

(** With no statement rejected and provider ids as the database assigns
    them (never 0), every run of [generateContent] either acquires nothing
    or acquires one provider and releases it once. *)
Lemma generateContent_balanced cfg up o w :
  db_faults w = [] ->
  (forall p, In p (providers w) -> ProviderRow.id p <> 0) ->
  journal (snd (RequestExecutor.generateContent cfg up o w)) = journal w
  \/ exists pid,
       journal (snd (RequestExecutor.generateContent cfg up o w))
       = journal w ++ paired [pid].
Proof.
  intros Hf Hids. unfold RequestExecutor.generateContent.
  destruct (acquire_spec cfg None ProviderScheduler.ExNull w Hf)
    as [(p & w1 & Hacq & Hp & Hf1 & Hj1) | (err & w1 & Hacq & Hf1 & Hj1)].
  2:{ left.
      destruct (failed_without_provider cfg o None (A := ProviderRow.t) err w1 Hf1)
        as [_ Hj].
      destruct (failed_result cfg o None None (A := ProviderRow.t) err w1)
        as (e' & w2 & Hfail).
      erewrite bind_throw
        by (erewrite try_throw by exact Hacq; exact Hfail).
      rewrite Hfail in Hj. simpl in *. congruence. }
  right. exists (ProviderRow.id p). specialize (Hids p Hp).
  cbn [paired flat_map app].
  erewrite bind_ok by (apply try_ok; exact Hacq).
  destruct (calm_cases _ w1
              (calm_matchOrCreate cfg (RequestExecutor.userId o)
                 (ProviderRow.id p) (RequestExecutor.contents o)) Hf1)
    as (r & w2 & Hmatch & Hf2 & Hj2).
  destruct r as [[[session isNew] mt]|err].
  2:{ pose proof (failed_releases cfg o (ProviderRow.id p) None
                    (A := SessionRow.t * bool * Session.match_type)
                    err w2 Hids Hf2) as Hj.
      destruct (failed_result cfg o (Some (ProviderRow.id p)) None
                  (A := SessionRow.t * bool * Session.match_type) err w2)
        as (e' & w3 & Hfail).
      erewrite bind_throw
        by (erewrite try_throw by exact Hmatch; exact Hfail).
      rewrite Hfail in Hj. simpl in *.
      rewrite Hj, Hj2, Hj1, <- app_assoc. reflexivity. }
  erewrite bind_ok by (apply try_ok; exact Hmatch).
  cbv beta iota.
  (* the steps before the release *)
  assert (Hcalm_session :
    calm (if RequestExecutor.truthy (SessionRow.gemini_session_id session)
          then ret (RequestExecutor.or_empty (SessionRow.gemini_session_id session))
          else bind (RequestExecutor.lift (RequestExecutor.createSession up))
                 (fun name =>
                    bind (SessionMatcher.updateGeminiSession
                            (SessionRow.id session) name)
                      (fun _ => ret name)))).
  { destruct (RequestExecutor.truthy _); [calm|].
    apply calm_bind; [apply calm_lift | intros name].
    apply calm_bind; [apply calm_updateGeminiSession | intros; calm]. }
  assert (Hcalm_image :
    calm (if RequestExecutor._wantsImage (RequestExecutor.responseModalities o)
               (Hash.getLastMessageText
                  (RequestExecutor.contents_messages (RequestExecutor.contents o)))
          then RequestExecutor._fetchImage up else ret None)).
  { destruct (RequestExecutor._wantsImage _ _); [|calm].
    unfold RequestExecutor._fetchImage.
    destruct (RequestExecutor.fetchedImage up); calm. }
  assert (Hhandler : forall err w', db_faults w' = [] -> journal w' = journal w2 ->
            journal (snd (RequestExecutor.failed cfg o (Some (ProviderRow.id p))
                            (Some (SessionRow.id session))
                            (A := RequestExecutor.response) err w'))
            = journal w ++ [Acquired (ProviderRow.id p); Released (ProviderRow.id p)]).
  { intros err w' Hf' Hj'.
    rewrite (failed_releases cfg o _ _ err w' Hids Hf').
    rewrite Hj', Hj2, Hj1, <- app_assoc. reflexivity. }
  destruct (calm_cases _ w2 Hcalm_session Hf2) as (r & w3 & Hgid & Hf3 & Hj3).
  destruct r as [gid|err].
  2:{ erewrite try_throw by (apply bind_throw; exact Hgid).
      apply Hhandler; congruence. }
  unfold RequestExecutor.lift at 1.
  destruct (RequestExecutor.sendMessage up) as [raw|err] eqn:Hsend.
  2:{ erewrite try_throw
        by (erewrite bind_ok by exact Hgid; apply bind_throw; reflexivity).
      apply Hhandler; congruence. }
  destruct (calm_cases _ w3 Hcalm_image Hf3) as (r & w4 & Himg & Hf4 & Hj4).
  destruct r as [img|err].
  2:{ erewrite try_throw
        by (erewrite bind_ok by exact Hgid;
            erewrite bind_ok by reflexivity;
            apply bind_throw; exact Himg).
      apply Hhandler; congruence. }
  destruct (calm_cases _ w4 (calm_recordMessage cfg (SessionRow.id session)) Hf4)
    as (r & w5 & Hmsg & Hf5 & Hj5).
  destruct r as [[]|err].
  2:{ erewrite try_throw
        by (erewrite bind_ok by exact Hgid;
            erewrite bind_ok by reflexivity;
            erewrite bind_ok by exact Himg;
            apply bind_throw; exact Hmsg).
      apply Hhandler; congruence. }
  destruct (release_spec (ProviderRow.id p) w5 Hf5) as (w6 & Hrel & Hf6 & Hj6).
  destruct (returning_cases _ w6 (calm_recordSuccess (ProviderRow.id p))
              (returns_recordSuccess (ProviderRow.id p)) Hf6)
    as ([] & w7 & Hsucc & Hf7 & Hj7).
  assert (Hlog : forall row,
            RequestExecutor.RequestLog_log row w7
            = (Ok tt, snd (RequestExecutor.RequestLog_log row w7))
            /\ journal (snd (RequestExecutor.RequestLog_log row w7)) = journal w7).
  { intros row.
    destruct (returning_cases _ w7 (calm_RequestLog_log row)
                (returns_RequestLog_log row) Hf7)
      as ([] & w8 & Hl & _ & Hj8).
    rewrite Hl. split; [reflexivity | exact Hj8]. }
  erewrite try_ok
    by (erewrite bind_ok by exact Hgid;
        erewrite bind_ok by reflexivity;
        erewrite bind_ok by exact Himg;
        erewrite bind_ok by exact Hmsg;
        erewrite bind_ok by exact Hrel;
        erewrite bind_ok by exact Hsucc;
        erewrite bind_ok by (apply (proj1 (Hlog _)));
        reflexivity).
  cbn [snd].
  rewrite (proj2 (Hlog _)), Hj7, Hj6, Hj5, Hj4, Hj3, Hj2, Hj1, <- app_assoc.
  reflexivity.
Qed.

(** *** [executeWithRetry] *)

(** With no statement rejected, and an operation and a callback that leave
    the load counters alone, every attempt's acquisition is followed by
    one release of the same provider before the next attempt starts. *)
Lemma retry_balanced cfg {R} (operation : ProviderRow.t -> M R) g notify :
  (forall p, calm (operation p)) ->
  (forall f, notify = Some f -> forall i e, calm (f i e)) ->
  forall attempts lastError excludeIds w,
    db_faults w = [] ->
    exists ps,
      journal (snd (ProviderScheduler.retry_loop cfg operation g notify
                      attempts lastError excludeIds w))
      = journal w ++ paired ps.
Proof.
  intros Hop Hnotify.
  induction attempts as [|n IH]; intros lastError excludeIds w Hf.
  - exists []. simpl. now rewrite app_nil_r.
  - cbn [ProviderScheduler.retry_loop].
    set (ex := match excludeIds with [] => _ | _ => _ end).
    destruct (acquire_spec cfg g ex w Hf)
      as [(p & w1 & Hacq & _ & Hf1 & Hj1) | (err & w1 & Hacq & Hf1 & Hj1)].
    2:{ exists []. erewrite bind_throw by exact Hacq.
        simpl. now rewrite app_nil_r. }
    erewrite bind_ok by exact Hacq. cbv zeta.
    destruct (calm_cases _ w1 (Hop p) Hf1) as (r & w2 & Hrun & Hf2 & Hj2).
    destruct r as [result|err].
    + (* the operation returned *)
      destruct (returning_cases _ w2 (calm_recordSuccess (ProviderRow.id p))
                  (returns_recordSuccess (ProviderRow.id p)) Hf2)
        as ([] & w3 & Hsucc & Hf3 & Hj3).
      destruct (release_spec (ProviderRow.id p) w3 Hf3) as (w4 & Hrel & Hf4 & Hj4).
      exists [ProviderRow.id p].
      erewrite bind_ok
        by (apply try_ok;
            erewrite bind_ok by exact Hrun;
            erewrite bind_ok by exact Hsucc;
            erewrite bind_ok by exact Hrel;
            reflexivity).
      cbn [ret snd paired flat_map app].
      rewrite Hj4, Hj3, Hj2, Hj1, <- app_assoc. reflexivity.
    + (* the operation threw *)
      destruct (returning_cases _ w2 (calm_recordFailure cfg (ProviderRow.id p) err)
                  (returns_recordFailure cfg (ProviderRow.id p) err) Hf2)
        as ([] & w3 & Hfail & Hf3 & Hj3).
      destruct (release_spec (ProviderRow.id p) w3 Hf3) as (w4 & Hrel & Hf4 & Hj4).
      assert (Hcalm_notify :
        calm (match notify with
              | Some f => f (ProviderRow.id p) err
              | None => ret tt
              end)).
      { destruct notify as [f|]; [now apply (Hnotify f) | calm]. }
      destruct (calm_cases _ w4 Hcalm_notify Hf4) as (r & w5 & Hn & Hf5 & Hj5).
      destruct r as [[]|err'].
      * destruct (IH (Some err)
                     (ProviderScheduler.set_add (ProviderRow.id p) excludeIds)
                     w5 Hf5) as (ps & Hps).
        exists (ProviderRow.id p :: ps).
        erewrite bind_ok
          by (erewrite try_throw by (apply bind_throw; exact Hrun);
              erewrite bind_ok by exact Hfail;
              erewrite bind_ok by exact Hrel;
              erewrite bind_ok by exact Hn;
              reflexivity).
        cbv beta iota. rewrite Hps.
        cbn [paired flat_map app].
        rewrite Hj5, Hj4, Hj3, Hj2, Hj1, <- !app_assoc. reflexivity.
      * exists [ProviderRow.id p].
        erewrite bind_throw
          by (erewrite try_throw by (apply bind_throw; exact Hrun);
              erewrite bind_ok by exact Hfail;
              erewrite bind_ok by exact Hrel;
              apply bind_throw; exact Hn).
        cbn [snd paired flat_map app].
        rewrite Hj5, Hj4, Hj3, Hj2, Hj1, <- app_assoc. reflexivity.
Qed.

(** *** A pool of one provider under [executeWithRetry] *)

Lemma weightedRandom_single d p :
  ProviderScheduler.weightedRandom d [p] = Some p.
Proof.
  unfold ProviderScheduler.weightedRandom.
  cbn [ProviderScheduler.pick hd_error].
  destruct (Qle_bool _ 0); reflexivity.
Qed.

Lemma fit_available cfg n p :
  0 < n -> ProviderScheduler.fit cfg n p ->
  Provider.available cfg None p = true.
Proof.
  intros Hn (Hs & Hl & Hh & _ & _). unfold Provider.available.
  rewrite Hs. cbn [ProviderRow.status_eqb Provider.truthy_id andb].
  apply andb_true_iff; split; [apply andb_true_iff; split|reflexivity]; lia.
Qed.

Lemma select_lone cfg e w p :
  providers w = [p] -> db_faults w = [] ->
  Provider.available cfg None p = true ->
  ProviderScheduler.strict_neq (ProviderRow.id p) e = true ->
  ProviderScheduler.selectProvider cfg None e w = (Ok p, snd (Math_random w)).
Proof.
  intros Hp Hf Hav He.
  unfold ProviderScheduler.selectProvider, Provider.getAvailableProviders.
  unfold bind at 1. rewrite statement_runs by assumption.
  cbn [fst snd]. rewrite Hp. cbn [filter]. rewrite Hav.
  cbn [Provider.order_ranked fold_right Provider.insert_ranked firstn].
  replace (if ProviderScheduler.truthy_exclude e
           then filter (fun q => ProviderScheduler.strict_neq
                                   (ProviderRow.id q) e) [p]
           else [p]) with [p]
    by (destruct (ProviderScheduler.truthy_exclude e);
        [cbn [filter]; now rewrite He | reflexivity]).
  unfold bind, Math_random.
  destruct (randoms w) as [|d rest]; rewrite weightedRandom_single;
    reflexivity.
Qed.

Lemma after_draw w :
  providers (snd (Math_random w)) = providers w
  /\ db_faults (snd (Math_random w)) = db_faults w
  /\ journal (snd (Math_random w)) = journal w.
Proof. unfold Math_random. destruct (randoms w); repeat split. Qed.

Lemma acquire_lone cfg e w p :
  providers w = [p] -> db_faults w = [] ->
  Provider.available cfg None p = true ->
  ProviderScheduler.strict_neq (ProviderRow.id p) e = true ->
  exists w1,
    ProviderScheduler.acquireProvider cfg None e w = (Ok p, w1)
    /\ providers w1 = [Provider.set_load (fun l => l + 1) p]
    /\ db_faults w1 = []
    /\ journal w1 = journal w ++ [Acquired (ProviderRow.id p)].
Proof.
  intros Hp Hf Hav He.
  destruct (after_draw w) as (Hp1 & Hf1 & Hj1).
  rewrite Hp in Hp1. rewrite Hf in Hf1.
  unfold ProviderScheduler.acquireProvider.
  rewrite (bind_ok _ _ _ _ _ (select_lone cfg e w p Hp Hf Hav He)).
  unfold Provider.incrementLoad.
  rewrite (bind_ok _ _ _ _ _ (statement_runs _ _ Hf1)).
  cbn [fst snd Provider.update_rows ret providers set_providers
       record_event journal db_faults].
  rewrite Hp1. cbn [map]. rewrite Z.eqb_refl.
  eexists. split; [reflexivity|].
  cbn [providers db_faults journal record_event set_providers].
  now rewrite Hf1, Hj1.
Qed.

(** One attempt that fails, on a pool of one provider. *)
Lemma failed_attempt_lone cfg w p n :
  providers w = [Provider.set_load (fun l => l + 1) p] ->
  db_faults w = [] -> 0 < n -> ProviderScheduler.fit cfg (n + 1) p ->
  forall err, exists w1 p',
    bind (ProviderScheduler.recordFailure cfg (ProviderRow.id p) err)
         (fun _ => ProviderScheduler.releaseProvider (ProviderRow.id p)) w
    = (Ok tt, w1)
    /\ providers w1 = [p'] /\ db_faults w1 = []
    /\ ProviderRow.id p' = ProviderRow.id p
    /\ ProviderScheduler.fit cfg n p'
    /\ journal w1 = journal w ++ [Released (ProviderRow.id p)].
Proof.
  intros Hp Hf Hn (Hs & Hl & Hh & Hc0 & Hc) err.
  destruct p as [pid g st hs load mx tot fl cf lf ls cd].
  destruct w as [ps ss lg nid clk faults rs es jn].
  cbn in Hp, Hf.
  cbn [ProviderRow.status ProviderRow.current_load ProviderRow.max_concurrent
       ProviderRow.health_score ProviderRow.consecutive_failures] in *.
  subst ps faults st.
  assert (H1 : (failureThreshold cfg <=? cf + 1) = false)
    by (apply Z.leb_gt; lia).
  assert (H2 : (failureThreshold cfg * 2 <=? cf + 1) = false)
    by (apply Z.leb_gt; lia).
  unfold ProviderScheduler.recordFailure, Provider.recordFailure,
    Provider.findById, Provider.update, ProviderScheduler.releaseProvider,
    Provider.decrementLoad, Provider.update_rows, bind, now, ret, statement.
  cbn. rewrite Z.eqb_refl. cbn. rewrite H1, H2. cbn.
  rewrite Z.eqb_refl. cbn. rewrite Z.eqb_refl.
  do 2 eexists. split; [reflexivity|].
  unfold ProviderScheduler.fit, Provider.set_load.
  clear H1 H2.
  repeat split; try reflexivity;
    cbn [ProviderRow.status ProviderRow.current_load ProviderRow.max_concurrent
         ProviderRow.health_score ProviderRow.consecutive_failures]; lia.
Qed.

(** On a pool of one provider that is fit for [n] failing attempts,
    whatever [Math.random] draws, each of the [n] attempts acquires that
    same provider. *)
Lemma lone_provider_reacquired cfg (n : nat) :
  forall w p lastError excludeIds,
    providers w = [p] -> db_faults w = [] ->
    ProviderScheduler.fit cfg (Z.of_nat n) p ->
    ProviderScheduler.acquisitions
      (snd (ProviderScheduler.retry_loop cfg ProviderScheduler.failing_operation
              None None n lastError excludeIds w))
    = ProviderScheduler.acquisitions w ++ repeat (ProviderRow.id p) n.
Proof.
  induction n as [|n IH]; intros w p lastError excludeIds Hp Hf Hfit.
  - simpl. now rewrite app_nil_r.
  - cbn [ProviderScheduler.retry_loop].
    set (ex := match excludeIds with [] => _ | _ => _ end).
    assert (Hex : ProviderScheduler.strict_neq (ProviderRow.id p) ex = true)
      by (subst ex; now destruct excludeIds).
    destruct (acquire_lone cfg ex w p Hp Hf
                (fit_available cfg (Z.of_nat (S n)) p ltac:(lia) Hfit) Hex)
      as (w1 & Hacq & Hp1 & Hf1 & Hj1).
    rewrite (bind_ok _ _ _ _ _ Hacq). cbv zeta.
    assert (Hjournal : forall w', journal w' = journal w1 ++ [Released (ProviderRow.id p)] ->
              ProviderScheduler.acquisitions w'
              = ProviderScheduler.acquisitions w ++ [ProviderRow.id p]).
    { intros w' Hw'. unfold ProviderScheduler.acquisitions.
      rewrite Hw', Hj1, !flat_map_app. simpl. now rewrite app_nil_r. }
    destruct n as [|n].
    + (* the last attempt: what happens to the provider does not matter *)
      unfold try_catch, bind at 2, ProviderScheduler.failing_operation, throw.
      unfold bind at 2.
      destruct (calm_cases _ w1
                  (calm_recordFailure cfg (ProviderRow.id p) (str "upstream failed"))
                  Hf1) as (r & w2 & Hrec & Hf2 & Hj2).
      unfold bind. rewrite Hrec.
      destruct r as [[]|err]; cbn [snd].
      * destruct (release_spec (ProviderRow.id p) w2 Hf2) as (w3 & -> & Hf3 & Hj3).
        cbn [ret snd ProviderScheduler.retry_loop throw].
        rewrite (Hjournal w3) by congruence. reflexivity.
      * unfold ProviderScheduler.acquisitions.
        rewrite Hj2, Hj1, flat_map_app. simpl. reflexivity.
    + destruct (failed_attempt_lone cfg w1 p (Z.of_nat (S n)) Hp1 Hf1 ltac:(lia)
                  ltac:(replace (Z.of_nat (S n) + 1) with (Z.of_nat (S (S n))) by lia;
                        exact Hfit)
                  (str "upstream failed"))
        as (w2 & p' & Hatt & Hp2 & Hf2 & Hid & Hfit' & Hj2).
      unfold bind in Hatt.
      unfold try_catch, bind at 2, ProviderScheduler.failing_operation, throw.
      unfold bind at 1. unfold bind at 1.
      destruct (ProviderScheduler.recordFailure cfg (ProviderRow.id p)
                  (str "upstream failed") w1) as [[[]|e1] w1'] eqn:Hrec;
        [|discriminate].
      unfold bind at 1. rewrite Hatt. cbn [ret].
      unfold bind at 1. cbn [ret].
      rewrite (IH w2 p' _ _ Hp2 Hf2 Hfit'), Hid.
      rewrite (Hjournal w2 Hj2), <- app_assoc. reflexivity.
Qed.

End BalanceFacts.


(** ** Session fingerprints: what they read and what they ignore *)

Module AnchorFacts.
Import Hash Conversation.

(** With a user message present, the fingerprints are computed from the
    user messages alone. *)
Lemma hashes_of_users (random : jstring) (messages : list message) :
  (1 <= List.length (filter is_user messages))%nat ->
  generateSessionHashes random (Some messages)
  = mkHashes
      (md5 (join (str "|||")
              (map (fun m => extractTextFromParts (parts m))
                   (slice_first5 (filter is_user messages)))))
      (md5 (join (str "|||")
              (map (fun m => extractTextFromParts (parts m))
                   (slice_last5 (filter is_user messages))))).
Proof.
  intros Hn. unfold generateSessionHashes.
  destruct messages as [|m ms]; [inversion Hn|].
  destruct (filter is_user (m :: ms)) as [|u us]; [inversion Hn|].
  reflexivity.
Qed.

Lemma slice_first5_app {A} (l more : list A) :
  (5 <= List.length l)%nat -> slice_first5 (l ++ more) = slice_first5 l.
Proof.
  intros H. unfold slice_first5. rewrite firstn_app.
  replace (5 - List.length l)%nat with 0%nat by lia.
  cbn [firstn]. apply app_nil_r.
Qed.

Lemma slice_whole {A} (l : list A) :
  (List.length l <= 5)%nat -> slice_first5 l = l /\ slice_last5 l = l.
Proof.
  intros H. unfold slice_first5, slice_last5. split.
  - now apply firstn_all2.
  - replace (List.length l - 5)%nat with 0%nat by lia. reflexivity.
Qed.

(** X1. Once a conversation holds five user messages its head fingerprint
    is fixed: whatever messages are appended, and whatever the random
    draw, the head hash stays the same. *)
Theorem head_hash_stable_under_growth :
  forall (random random' : jstring) (messages more : list message),
    (5 <= List.length (filter is_user messages))%nat ->
    headHash (generateSessionHashes random' (Some (messages ++ more)))
    = headHash (generateSessionHashes random (Some messages)).
Proof.
  intros random random' messages more H5.
  rewrite !hashes_of_users; rewrite ?filter_app, ?length_app; try lia.
  cbn [headHash]. now rewrite slice_first5_app.
Qed.

Lemma head_hash_stable_under_growth_witness :
  (5 <= List.length (filter is_user five_turns))%nat
  /\ headHash (generateSessionHashes []
                 (Some (five_turns ++ [model_text "5"; user_text "six"])))
     = headHash (generateSessionHashes [] (Some five_turns)).
Proof.
  assert (H : (5 <= List.length (filter is_user five_turns))%nat)
    by (vm_compute; lia).
  exact (conj H (head_hash_stable_under_growth [] [] five_turns
                   [model_text "5"; user_text "six"] H)).
Defined.

(** X2. The fingerprints read the user messages only: two message lists
    with the same user messages, in the same order, have the same
    fingerprints, whatever the other messages and the random draw are. *)
Theorem session_hashes_ignore_other_roles :
  forall (random random' : jstring) (messages messages' : list message),
    (1 <= List.length (filter is_user messages))%nat ->
    filter is_user messages' = filter is_user messages ->
    generateSessionHashes random' (Some messages')
    = generateSessionHashes random (Some messages).
Proof.
  intros random random' messages messages' Hn Heq.
  rewrite (hashes_of_users random messages Hn).
  rewrite (hashes_of_users random' messages') by now rewrite Heq.
  now rewrite Heq.
Qed.

Lemma session_hashes_ignore_other_roles_witness :
  (1 <= List.length (filter is_user [user_text "one"]))%nat
  /\ generateSessionHashes (str "r")
       (Some [user_text "one"; model_text "1"])
     = generateSessionHashes [] (Some [user_text "one"]).
Proof.
  assert (H : (1 <= List.length (filter is_user [user_text "one"]))%nat)
    by (vm_compute; lia).
  exact (conj H (session_hashes_ignore_other_roles [] (str "r")
                   [user_text "one"] [user_text "one"; model_text "1"]
                   H eq_refl)).
Defined.

(** X3. Up to five user messages, head and tail fingerprint cover the
    same messages and are equal. *)
Theorem short_conversation_head_equals_tail :
  forall (random : jstring) (messages : list message),
    (1 <= List.length (filter is_user messages) <= 5)%nat ->
    headHash (generateSessionHashes random (Some messages))
    = tailHash (generateSessionHashes random (Some messages)).
Proof.
  intros random messages [H1 H5].
  rewrite (hashes_of_users random messages H1). cbn [headHash tailHash].
  destruct (slice_whole (filter is_user messages) H5) as [-> ->].
  reflexivity.
Qed.

Lemma short_conversation_head_equals_tail_witness :
  (1 <= List.length (filter is_user [user_text "one"; model_text "1"]) <= 5)%nat
  /\ headHash (generateSessionHashes []
                 (Some [user_text "one"; model_text "1"]))
     = tailHash (generateSessionHashes []
                   (Some [user_text "one"; model_text "1"])).
Proof.
  assert (H : (1 <= List.length
                      (filter is_user [user_text "one"; model_text "1"])
               <= 5)%nat) by (vm_compute; lia).
  exact (conj H (short_conversation_head_equals_tail []
                   [user_text "one"; model_text "1"] H)).
Defined.


End AnchorFacts.

(** ** Base64: decoding gives back what was encoded *)

Module Base64Facts.
Import BearerToken Keys.

Lemma sextets_ok : forallb (fun k => sextet_ok (Z.of_nat k)) (seq 0 64) = true.
Proof. vm_compute. reflexivity. Qed.

Lemma sextet_value n :
  0 <= n < 64 ->
  ch_eqb (Base64.digit n) "="%char = false
  /\ Base64.index_of (Base64.digit n) Base64.alphabet 0 = Some n.
Proof.
  intros Hn. pose proof sextets_ok as H.
  rewrite forallb_forall in H.
  specialize (H (Z.to_nat n)).
  rewrite Z2Nat.id in H by lia.
  assert (Hin : In (Z.to_nat n) (seq 0 64)) by (apply in_seq; lia).
  apply H in Hin. unfold sextet_ok in Hin.
  apply andb_prop in Hin as [H1 H2].
  apply negb_true_iff in H1. split; [exact H1|].
  destruct (Base64.index_of _ _ _) as [v|]; [|discriminate].
  apply Z.eqb_eq in H2. now subst.
Qed.

Lemma values_digit n rest :
  0 <= n < 64 ->
  Base64.values (Base64.digit n :: rest) = n :: Base64.values rest.
Proof.
  intros Hn. destruct (sextet_value n Hn) as [H1 H2].
  cbn [Base64.values]. now rewrite H1, H2.
Qed.

(** The decoder undoes the encoder on every list of bytes. *)
Lemma decode_encode : forall bs,
  Forall byte bs -> Base64.decode (Base64.encode bs) = bs.
Proof.
  unfold Base64.decode, byte.
  fix IH 1. intros [|a [|b [|c rest]]] H.
  - reflexivity.
  - inversion_clear H as [|? ? Ha _].
    cbn [Base64.encode].
    pose proof (Z.mod_pos_bound a 4).
    assert (0 <= a / 4 < 64) by (split; [apply Z.div_pos | apply Z.div_lt_upper_bound]; lia).
    rewrite !values_digit by lia.
    cbn. f_equal.
    pose proof (Z.div_mod a 4).
    rewrite Z.div_mul by lia. lia.
  - inversion_clear H as [|? ? Ha H']. inversion_clear H' as [|? ? Hb _].
    cbn [Base64.encode].
    pose proof (Z.mod_pos_bound a 4). pose proof (Z.mod_pos_bound b 16).
    assert (0 <= a / 4 < 64) by (split; [apply Z.div_pos | apply Z.div_lt_upper_bound]; lia).
    assert (0 <= b / 16 < 16) by (split; [apply Z.div_pos | apply Z.div_lt_upper_bound]; lia).
    rewrite !values_digit by lia.
    cbn.
    pose proof (Z.div_mod a 4). pose proof (Z.div_mod b 16).
    f_equal; [|f_equal].
    + replace ((a mod 4 * 16 + b / 16) / 16) with (a mod 4); [lia|].
      apply Z.div_unique with (r := b / 16); lia.
    + replace ((a mod 4 * 16 + b / 16) mod 16) with (b / 16).
      * rewrite Z.div_mul by lia. lia.
      * apply Z.mod_unique with (q := a mod 4); lia.
  - inversion_clear H as [|? ? Ha H']. inversion_clear H' as [|? ? Hb H''].
    inversion_clear H'' as [|? ? Hc Hrest].
    cbn [Base64.encode].
    pose proof (Z.mod_pos_bound a 4). pose proof (Z.mod_pos_bound b 16).
    pose proof (Z.mod_pos_bound c 64).
    assert (0 <= a / 4 < 64) by (split; [apply Z.div_pos | apply Z.div_lt_upper_bound]; lia).
    assert (0 <= b / 16 < 16) by (split; [apply Z.div_pos | apply Z.div_lt_upper_bound]; lia).
    assert (0 <= c / 64 < 4) by (split; [apply Z.div_pos | apply Z.div_lt_upper_bound]; lia).
    rewrite !values_digit by lia.
    cbn [Base64.bytes_of_values].
    pose proof (Z.div_mod a 4). pose proof (Z.div_mod b 16).
    pose proof (Z.div_mod c 64).
    f_equal; [|f_equal; [|f_equal]].
    + replace ((a mod 4 * 16 + b / 16) / 16) with (a mod 4); [lia|].
      apply Z.div_unique with (r := b / 16); lia.
    + replace ((a mod 4 * 16 + b / 16) mod 16) with (b / 16).
      * replace ((b mod 16 * 4 + c / 64) / 4) with (b mod 16); [lia|].
        apply Z.div_unique with (r := c / 64); lia.
      * apply Z.mod_unique with (q := a mod 4); lia.
    + replace ((b mod 16 * 4 + c / 64) mod 4) with (c / 64); [lia|].
      apply Z.mod_unique with (q := b mod 16); lia.
    + apply IH. exact Hrest.
Qed.

(** [values] stops at the padding. *)
Lemma values_padded s k :
  Base64.values (s ++ repeat "="%char k) = Base64.values s.
Proof.
  induction s as [|c s IH]; cbn [app Base64.values].
  - destruct k; reflexivity.
  - destruct (ch_eqb c "="%char); [reflexivity|].
    now rewrite IH.
Qed.

Lemma rev_repeat {A} (a : A) k : rev (repeat a k) = repeat a k.
Proof.
  induction k as [|k IH]; [reflexivity|].
  cbn [repeat rev]. rewrite IH. symmetry. apply repeat_cons.
Qed.

(** What [strip_padding] removes is a run of padding at the end. *)
Lemma strip_padding_spec s :
  exists k, s = strip_padding s ++ repeat "="%char k.
Proof.
  unfold strip_padding.
  assert (H : forall l, exists k,
            rev l = rev ((fix drop (l : jstring) : jstring :=
                            match l with
                            | c :: rest =>
                                if ch_eqb c "="%char then drop rest else l
                            | [] => []
                            end) l) ++ repeat "="%char k).
  { induction l as [|c l [k IH]].
    - now exists 0%nat.
    - destruct (ch_eqb c "="%char) eqn:E.
      + apply Ascii.eqb_eq in E. subst c.
        exists (S k). cbn [rev]. rewrite IH, <- app_assoc.
        f_equal. change ["="%char] with (repeat "="%char 1).
        rewrite <- repeat_app. f_equal. lia.
      + exists 0%nat. now rewrite app_nil_r. }
  destruct (H (rev s)) as [k Hk]. exists k.
  now rewrite rev_involutive in Hk.
Qed.

Lemma back_and_forth c :
  In c ("="%char :: Base64.alphabet) ->
  (fun c => if ch_eqb c "_"%char then "/"%char else c)
    ((fun c => if ch_eqb c "-"%char then "+"%char else c)
       ((fun c => if ch_eqb c "/"%char then "_"%char else c)
          ((fun c => if ch_eqb c "+"%char then "-"%char else c) c))) = c.
Proof.
  vm_compute. intuition (subst; reflexivity).
Qed.

Lemma byte_of_is_byte c : byte (MD5.byte_of c).
Proof.
  unfold byte, MD5.byte_of. pose proof (nat_ascii_bounded c). lia.
Qed.

(** X5. The two helpers of the token builder are inverse to each other:
    decoding the base64url form of a text gives back the bytes of the
    text, whatever its length and padding. *)
Theorem base64url_decode_encode :
  forall text : jstring,
    base64urlDecode (base64urlEncode text) = map MD5.byte_of text.
Proof.
  intros text.
  unfold base64urlDecode, base64urlEncode, url_safe, Base64.decode, pad4.
  rewrite values_padded.
  set (e := Base64.encode (map MD5.byte_of text)).
  destruct (strip_padding_spec
              (replace_char "/"%char "_"%char (replace_char "+"%char "-"%char e)))
    as [k Hk].
  set (x := strip_padding _) in *.
  rewrite <- (values_padded _ k).
  replace (replace_char "_"%char "/"%char (replace_char "-"%char "+"%char x)
           ++ repeat "="%char k)
    with e.
  - apply decode_encode. apply Forall_forall. intros b Hb.
    apply in_map_iff in Hb as (c & <- & _). apply byte_of_is_byte.
  - transitivity
      (replace_char "_"%char "/"%char
         (replace_char "-"%char "+"%char (x ++ repeat "="%char k))).
    + rewrite <- Hk. unfold replace_char. rewrite !map_map.
      rewrite <- (map_id e) at 1. apply map_ext_in. intros c Hc.
      symmetry. apply back_and_forth.
      exact (BearerTokenFacts.encode_chars _ _ Hc).
    + unfold replace_char. rewrite !map_app, !map_repeat. reflexivity.
Qed.

End Base64Facts.

(** ** Random strings and API keys *)

Module KeysFacts.
Import Keys BearerToken.

Lemma hex_digit_is_hex x : hex_char (MD5.hex_digit x) = true.
Proof.
  unfold MD5.hex_digit.
  destruct (nth_in_or_default (Z.to_nat x) (str "0123456789abcdef") "0"%char)
    as [H | ->]; [|reflexivity].
  revert H. generalize (nth (Z.to_nat x) (str "0123456789abcdef") "0"%char).
  intros c H. vm_compute in H.
  repeat (destruct H as [<- | H]; [reflexivity|]). destruct H.
Qed.

Lemma hex_length bs : List.length (MD5.hex bs) = (2 * List.length bs)%nat.
Proof.
  unfold MD5.hex. induction bs as [|b bs IH]; [reflexivity|].
  cbn [flat_map app Datatypes.length]. rewrite IH. lia.
Qed.

(** The first [n] hexadecimal digits come from the first half of the
    bytes. *)
Lemma hex_prefix : forall (bs : list Z) (n : nat),
  firstn n (MD5.hex bs) = firstn n (MD5.hex (firstn (Nat.div2 (S n)) bs)).
Proof.
  unfold MD5.hex.
  induction bs as [|b bs IH]; intros n.
  - rewrite !firstn_nil. reflexivity.
  - destruct n as [|[|n]]; [reflexivity | reflexivity |].
    change (Nat.div2 (S (S (S n)))) with (S (Nat.div2 (S n))).
    cbn [firstn flat_map app]. now rewrite <- IH.
Qed.

(** X6. [randomString(n)] is a string of exactly n lowercase hexadecimal
    digits, and it is determined by the first half (rounded up) of the n
    random bytes that are drawn: the other bytes are thrown away. *)
Theorem randomString_length_and_alphabet :
  forall (n : nat) (randomBytes : list Z),
    List.length randomBytes = n ->
    List.length (randomString n randomBytes) = n
    /\ forallb hex_char (randomString n randomBytes) = true
    /\ (forall others : list Z,
          firstn (Nat.div2 (S n)) others = firstn (Nat.div2 (S n)) randomBytes ->
          randomString n others = randomString n randomBytes).
Proof.
  intros n bs Hn. unfold randomString. repeat split.
  - rewrite length_firstn, hex_length. lia.
  - apply forallb_forall. intros c Hc.
    apply BalanceFacts.In_firstn in Hc. unfold MD5.hex in Hc.
    apply in_flat_map in Hc as (b & _ & [<- | [<- | []]]);
      apply hex_digit_is_hex.
  - intros others H. rewrite (hex_prefix others), (hex_prefix bs). now rewrite H.
Qed.

Lemma randomString_length_and_alphabet_witness :
  List.length [171; 205; 18; 52] = 4%nat
  /\ List.length (randomString 4 [171; 205; 18; 52]) = 4%nat.
Proof.
  exact (conj eq_refl
           (proj1 (randomString_length_and_alphabet 4 [171; 205; 18; 52]
                     eq_refl))).
Defined.

(** Whole groups of three bytes are encoded without padding. *)
Lemma encode_whole_groups : forall (k : nat) (bs : list Z),
  List.length bs = (3 * k)%nat ->
  List.length (Base64.encode bs) = (4 * k)%nat
  /\ Forall (fun c => In c Base64.alphabet) (Base64.encode bs).
Proof.
  induction k as [|k IH]; intros bs Hl.
  - destruct bs; [|discriminate]. split; [reflexivity | constructor].
  - destruct bs as [|a [|b [|c rest]]]; try (cbn in Hl; lia).
    destruct (IH rest) as [H1 H2]; [cbn in Hl; lia|].
    cbn [Base64.encode Datatypes.length]. split; [lia|].
    repeat (constructor; [apply BearerTokenFacts.digit_in_alphabet|]).
    exact H2.
Qed.

Lemma strip_padding_clean s :
  Forall (fun c => c <> "="%char) s -> strip_padding s = s.
Proof.
  intros H. destruct (Base64Facts.strip_padding_spec s) as [[|k] Hk].
  - now rewrite app_nil_r in Hk.
  - exfalso. rewrite Forall_forall in H. apply (H "="%char); [|reflexivity].
    rewrite Hk. apply in_or_app. right. now left.
Qed.

Lemma url_alphabet_checked :
  forallb (fun c =>
             negb (ch_eqb (if ch_eqb (if ch_eqb c "+"%char then "-"%char else c)
                                     "/"%char
                           then "_"%char
                           else if ch_eqb c "+"%char then "-"%char else c)
                          "="%char)
             && url_safe_char
                  (if ch_eqb (if ch_eqb c "+"%char then "-"%char else c)
                             "/"%char
                   then "_"%char
                   else if ch_eqb c "+"%char then "-"%char else c))
          Base64.alphabet = true.
Proof. vm_compute. reflexivity. Qed.

Lemma url_alphabet c :
  In c Base64.alphabet ->
  (if ch_eqb (if ch_eqb c "+"%char then "-"%char else c) "/"%char
   then "_"%char else if ch_eqb c "+"%char then "-"%char else c) <> "="%char
  /\ url_safe_char
       (if ch_eqb (if ch_eqb c "+"%char then "-"%char else c) "/"%char
        then "_"%char else if ch_eqb c "+"%char then "-"%char else c) = true.
Proof.
  intros H. pose proof url_alphabet_checked as Hall.
  rewrite forallb_forall in Hall. apply Hall in H.
  apply andb_prop in H as [H1 H2]. split; [|exact H2].
  apply negb_true_iff in H1. now apply ch_eqb_neq.
Qed.

(** X7. An API key is its prefix followed by exactly 32 characters, each a
    letter, a digit, a hyphen or an underscore: the 24 random bytes are
    encoded without padding. *)
Theorem generateApiKey_shape :
  forall (prefix : jstring) (randomBytes : list Z),
    List.length randomBytes = 24%nat ->
    firstn (List.length prefix) (generateApiKey prefix randomBytes) = prefix
    /\ List.length (generateApiKey prefix randomBytes)
       = (List.length prefix + 32)%nat
    /\ forallb url_safe_char
         (skipn (List.length prefix) (generateApiKey prefix randomBytes))
       = true.
Proof.
  intros prefix bs Hl. unfold generateApiKey, base64url, url_safe.
  destruct (encode_whole_groups 8 bs Hl) as [Hlen Hall].
  rewrite Forall_forall in Hall.
  assert (Hmapped : forall c,
            In c (replace_char "/"%char "_"%char
                    (replace_char "+"%char "-"%char (Base64.encode bs))) ->
            c <> "="%char /\ url_safe_char c = true).
  { intros c Hc. unfold replace_char in Hc. rewrite map_map in Hc.
    apply in_map_iff in Hc as (x & <- & Hx).
    apply url_alphabet, Hall, Hx. }
  rewrite strip_padding_clean
    by (apply Forall_forall; intros c Hc; apply (Hmapped c Hc)).
  rewrite firstn_app, Nat.sub_diag, firstn_all, skipn_app, Nat.sub_diag,
    skipn_all, length_app.
  cbn [firstn skipn app]. rewrite app_nil_r.
  unfold replace_char at 1 2. rewrite !length_map, Hlen.
  repeat split.
  apply forallb_forall. intros c Hc. apply (Hmapped c Hc).
Qed.

Lemma generateApiKey_shape_witness :
  List.length (repeat 255 24) = 24%nat
  /\ List.length (generateApiKey (str "gm-") (repeat 255 24)) = 35%nat.
Proof.
  exact (conj eq_refl
           (proj1 (proj2 (generateApiKey_shape (str "gm-") (repeat 255 24)
                            eq_refl)))).
Defined.

End KeysFacts.

(** ** The bearer token against the specification *)

Module BearerTokenSpecFacts.
Import BearerToken Keys.

(** *** The code's base64url is the one of RFC 4648 *)

Lemma url_digits_checked :
  forallb (fun k =>
             let c := Base64.digit (Z.of_nat k) in
             let u := Rfc4648.url_digit (Z.of_nat k) in
             Ascii.eqb (if ch_eqb (if ch_eqb c "+"%char then "-"%char else c)
                                  "/"%char
                        then "_"%char
                        else if ch_eqb c "+"%char then "-"%char else c) u
             && Ascii.eqb (if ch_eqb (if ch_eqb u "-"%char then "+"%char else u)
                                     "_"%char
                           then "/"%char
                           else if ch_eqb u "-"%char then "+"%char else u) c
             && negb (ch_eqb u "="%char) && negb (ch_eqb u "."%char))
          (seq 0 64) = true.
Proof. vm_compute. reflexivity. Qed.

Lemma url_digit_spec n :
  0 <= n < 64 ->
  (let c := Base64.digit n in
   if ch_eqb (if ch_eqb c "+"%char then "-"%char else c) "/"%char
   then "_"%char else if ch_eqb c "+"%char then "-"%char else c)
  = Rfc4648.url_digit n
  /\ (let u := Rfc4648.url_digit n in
      if ch_eqb (if ch_eqb u "-"%char then "+"%char else u) "_"%char
      then "/"%char else if ch_eqb u "-"%char then "+"%char else u)
     = Base64.digit n
  /\ Rfc4648.url_digit n <> "="%char
  /\ Rfc4648.url_digit n <> "."%char.
Proof.
  intros Hn. pose proof url_digits_checked as H.
  rewrite forallb_forall in H. specialize (H (Z.to_nat n)).
  rewrite Z2Nat.id in H by lia.
  assert (Hin : In (Z.to_nat n) (seq 0 64)) by (apply in_seq; lia).
  apply H in Hin. cbv zeta in Hin.
  apply andb_prop in Hin as [Hin H4]. apply andb_prop in Hin as [Hin H3].
  apply andb_prop in Hin as [H1 H2].
  apply Ascii.eqb_eq in H1, H2.
  apply negb_true_iff in H3, H4.
  repeat split; try assumption; now apply ch_eqb_neq.
Qed.

Lemma sextets_range : forall bs,
  Forall byte bs -> Forall (fun n => 0 <= n < 64) (Rfc4648.sextets bs).
Proof.
  unfold byte. fix IH 1. intros [|a [|b [|c rest]]] H.
  - constructor.
  - inversion_clear H as [|? ? Ha _]. cbn [Rfc4648.sextets].
    repeat constructor; Z.div_mod_to_equations; lia.
  - inversion_clear H as [|? ? Ha H']. inversion_clear H' as [|? ? Hb _].
    cbn [Rfc4648.sextets].
    repeat constructor; Z.div_mod_to_equations; lia.
  - inversion_clear H as [|? ? Ha H']. inversion_clear H' as [|? ? Hb H''].
    inversion_clear H'' as [|? ? Hc Hrest].
    cbn [Rfc4648.sextets].
    repeat (constructor; [Z.div_mod_to_equations; lia|]).
    apply IH. exact Hrest.
Qed.

Ltac same_digits :=
  repeat match goal with
         | |- Base64.digit _ :: _ = Base64.digit _ :: _ =>
             apply f_equal2;
             [apply f_equal; Z.div_mod_to_equations; lia|]
         end.

(** [toString('base64')] writes the groups of the RFC with the standard
    alphabet, and then the padding. *)
Lemma encode_sextets : forall bs,
  Forall byte bs ->
  exists k, Base64.encode bs
            = map Base64.digit (Rfc4648.sextets bs) ++ repeat "="%char k.
Proof.
  unfold byte. fix IH 1. intros [|a [|b [|c rest]]] H.
  - now exists 0%nat.
  - inversion_clear H as [|? ? Ha _]. exists 2%nat.
    cbn [Base64.encode Rfc4648.sextets map app repeat].
    same_digits. reflexivity.
  - inversion_clear H as [|? ? Ha H']. inversion_clear H' as [|? ? Hb _].
    exists 1%nat.
    cbn [Base64.encode Rfc4648.sextets map app repeat].
    same_digits. reflexivity.
  - inversion_clear H as [|? ? Ha H']. inversion_clear H' as [|? ? Hb H''].
    inversion_clear H'' as [|? ? Hc Hrest].
    destruct (IH rest Hrest) as [k Hk]. exists k.
    cbn [Base64.encode Rfc4648.sextets map app]. rewrite Hk.
    same_digits. reflexivity.
Qed.

Lemma strip_padding_run m k :
  Forall (fun c => c <> "="%char) m ->
  strip_padding (m ++ repeat "="%char k) = m.
Proof.
  intros Hm. unfold strip_padding.
  rewrite rev_app_distr, Base64Facts.rev_repeat.
  induction k as [|k IH]; cbn [repeat app].
  - rewrite <- (rev_involutive m) at 2. f_equal.
    assert (Hr : Forall (fun c => c <> "="%char) (rev m)).
    { apply Forall_forall. intros c Hc. apply in_rev in Hc.
      rewrite Forall_forall in Hm. now apply Hm. }
    destruct (rev m) as [|c l]; [reflexivity|].
    inversion_clear Hr as [|? ? Hc _]. apply ch_eqb_neq in Hc.
    now rewrite Hc.
  - change (ch_eqb "="%char "="%char) with true. cbn iota. exact IH.
Qed.

Lemma url_safe_encode bs :
  Forall byte bs -> url_safe (Base64.encode bs) = Rfc4648.base64url bs.
Proof.
  intros H. destruct (encode_sextets bs H) as [k Hk].
  pose proof (sextets_range bs H) as Hr.
  unfold url_safe, replace_char, Rfc4648.base64url.
  rewrite Hk, map_map, map_app, !map_map, map_repeat.
  change (if ch_eqb (if ch_eqb "="%char "+"%char then "-"%char else "="%char)
                    "/"%char
          then "_"%char
          else if ch_eqb "="%char "+"%char then "-"%char else "="%char)
    with "="%char.
  replace (map _ (Rfc4648.sextets bs))
    with (map Rfc4648.url_digit (Rfc4648.sextets bs)).
  - apply strip_padding_run. apply Forall_forall. intros c Hc.
    apply in_map_iff in Hc as (n & <- & Hn).
    rewrite Forall_forall in Hr. now apply url_digit_spec, Hr.
  - apply map_ext_in. intros n Hn. symmetry.
    rewrite Forall_forall in Hr. now apply (url_digit_spec n), Hr.
Qed.

(** The helper that derives the key reads the bytes of a base64url
    text, padded or not. *)
Lemma decode_base64url key k :
  Forall byte key ->
  base64urlDecode (Rfc4648.base64url key ++ repeat "="%char k) = key.
Proof.
  intros H. destruct (encode_sextets key H) as [k0 Hk0].
  pose proof (sextets_range key H) as Hr.
  rewrite <- (Base64Facts.decode_encode key H) at 2.
  unfold base64urlDecode, Base64.decode, pad4, replace_char,
    Rfc4648.base64url.
  rewrite Hk0, !Base64Facts.values_padded.
  rewrite map_map, map_app, !map_map, map_repeat.
  change (if ch_eqb (if ch_eqb "="%char "-"%char then "+"%char else "="%char)
                    "_"%char
          then "/"%char
          else if ch_eqb "="%char "-"%char then "+"%char else "="%char)
    with "="%char.
  rewrite Base64Facts.values_padded.
  do 2 f_equal. apply map_ext_in. intros n Hn.
  rewrite Forall_forall in Hr. now apply (url_digit_spec n), Hr.
Qed.

Lemma base64url_dotless bs : Forall byte bs -> dotless (Rfc4648.base64url bs).
Proof.
  intros H. rewrite <- url_safe_encode by assumption.
  apply BearerTokenFacts.url_safe_dotless.
Qed.

Lemma text_bytes text : Forall byte (map MD5.byte_of text).
Proof.
  apply Forall_forall. intros b Hb.
  apply in_map_iff in Hb as (c & <- & _). apply Base64Facts.byte_of_is_byte.
Qed.

Lemma toy_hmac_bytes k m : Forall byte (TokenSpec.toy_hmac k m).
Proof.
  apply Forall_forall. intros b Hb. unfold TokenSpec.toy_hmac in Hb.
  apply in_map_iff in Hb as (x & <- & _). unfold byte.
  apply Z.mod_pos_bound. lia.
Qed.

(** C8. For every server token that is the base64url text of a key,
    padded or not, the token that [_buildBearerToken] derives is the
    token of the specification: base64url of the header, a dot,
    base64url of the payload with iat = nbf = now and
    exp = min(now + 300, serverExp), now the clock and serverExp the
    expiration the server reported, both in whole epoch seconds, a dot,
    and base64url of the HMAC-SHA-256, keyed by the bytes that the
    server token encodes, over the first two segments joined by a dot.
    The token has exactly these three segments. HMAC-SHA-256 is the
    runtime's and returns bytes. *)
Theorem bearer_token_payload_and_signature :
  forall (hmac_sha256 : list Z -> jstring -> list Z)
         (csesidx : jstring) (tokenData : token_data) (clock : Z)
         (key : list Z) (padding : nat),
    (forall k m, Forall byte (hmac_sha256 k m)) ->
    Forall byte key ->
    xsrfToken tokenData = Rfc4648.base64url key ++ repeat "="%char padding ->
    _buildBearerToken hmac_sha256 csesidx tokenData clock
    = TokenSpec.token hmac_sha256 key (keyId tokenData) csesidx
        (clock / 1000) (expirationTime tokenData / 1000)
    /\ split_dots (_buildBearerToken hmac_sha256 csesidx tokenData clock) []
       = [ TokenSpec.segment
             (stringify_header (TokenSpec.header (keyId tokenData)));
           TokenSpec.segment
             (stringify_payload
                (TokenSpec.payload csesidx (clock / 1000)
                   (expirationTime tokenData / 1000)));
           Rfc4648.base64url
             (hmac_sha256 key
                (TokenSpec.signing_input (keyId tokenData) csesidx
                   (clock / 1000) (expirationTime tokenData / 1000))) ].
Proof.
  intros hmac_sha256 csesidx tokenData clock key padding Hmac Hkey Htoken.
  assert (Hcode : _buildBearerToken hmac_sha256 csesidx tokenData clock
                  = TokenSpec.token hmac_sha256 key (keyId tokenData) csesidx
                      (clock / 1000) (expirationTime tokenData / 1000)).
  { unfold _buildBearerToken, base64urlEncode, TokenSpec.token,
      TokenSpec.signing_input, TokenSpec.segment.
    rewrite Htoken, decode_base64url by assumption.
    rewrite !url_safe_encode by (apply text_bytes || apply Hmac).
    replace (payload_of csesidx tokenData clock)
      with (TokenSpec.payload csesidx (clock / 1000)
              (expirationTime tokenData / 1000)).
    - unfold header_of, TokenSpec.header. now rewrite <- !app_assoc.
    - unfold payload_of, TokenSpec.payload. f_equal. lia. }
  split; [exact Hcode|].
  rewrite Hcode. unfold TokenSpec.token, TokenSpec.signing_input,
    TokenSpec.segment.
  rewrite <- !app_assoc.
  change (str ".") with ["."%char]. cbn [app].
  rewrite BearerTokenFacts.split_at_dot by apply base64url_dotless, text_bytes.
  rewrite BearerTokenFacts.split_at_dot by apply base64url_dotless, text_bytes.
  rewrite BearerTokenFacts.split_dotless by apply base64url_dotless, Hmac.
  reflexivity.
Qed.

Lemma bearer_token_payload_and_signature_witness :
  (forall k m, Forall byte (TokenSpec.toy_hmac k m))
  /\ Forall byte TokenSpec.toy_key
  /\ xsrfToken TokenSpec.toy_token_data
     = Rfc4648.base64url TokenSpec.toy_key ++ repeat "="%char 0
  /\ _buildBearerToken TokenSpec.toy_hmac (str "42") TokenSpec.toy_token_data
       1700000000500
     = TokenSpec.token TokenSpec.toy_hmac TokenSpec.toy_key (Some (str "k1"))
         (str "42") 1700000000 1700003600.
Proof.
  assert (H1 := toy_hmac_bytes).
  assert (H2 : Forall byte TokenSpec.toy_key)
    by (repeat constructor; unfold byte; lia).
  assert (H3 : xsrfToken TokenSpec.toy_token_data
               = Rfc4648.base64url TokenSpec.toy_key ++ repeat "="%char 0)
    by reflexivity.
  exact (conj H1 (conj H2 (conj H3
           (proj1 (bearer_token_payload_and_signature TokenSpec.toy_hmac
                     (str "42") TokenSpec.toy_token_data 1700000000500
                     TokenSpec.toy_key 0 H1 H2 H3))))).
Defined.

(** A token refreshed at 1700000000.5 s: the server's expiry an hour
    later is cut to five minutes, and an expiry one minute later is
    kept. *)
Example payload_texts :
  stringify_payload
    (payload_of (str "42") (mkTokenData (str "c2VjcmV0") None 1700003600000)
                1700000000500)
  = str "{" ++ quote (str "iss") ++ str ":"
    ++ quote (str "https://business.gemini.google") ++ str ","
    ++ quote (str "aud") ++ str ":"
    ++ quote (str "https://biz-discoveryengine.googleapis.com") ++ str ","
    ++ quote (str "sub") ++ str ":" ++ quote (str "csesidx/42") ++ str ","
    ++ quote (str "iat") ++ str ":1700000000,"
    ++ quote (str "exp") ++ str ":1700000300,"
    ++ quote (str "nbf") ++ str ":1700000000}"
  /\ exp (payload_of (str "42")
            (mkTokenData (str "c2VjcmV0") None 1700000060000) 1700000000500)
     = 1700000060.
Proof. split; vm_compute; reflexivity. Qed.

End BearerTokenSpecFacts.

(** ** The provider model: what its updates keep *)

Module ProviderMoreFacts.
Import Db ProviderRow ProviderJobs.

(** A statement is either rejected, leaving the tables as they are, or
    run on the tables as they are. *)
Lemma statement_cases {A} (run : world -> A * world) w :
  exists w0,
    providers w0 = providers w /\ sessions w0 = sessions w
    /\ request_logs w0 = request_logs w /\ clock w0 = clock w
    /\ journal w0 = journal w /\ next_session_id w0 = next_session_id w
    /\ randoms w0 = randoms w /\ entropy w0 = entropy w
    /\ (statement run w = (Throw (str "database error"), w0)
        \/ statement run w = (Ok (fst (run w0)), snd (run w0))).
Proof.
  unfold statement. destruct (db_faults w) as [|[|] rest] eqn:Hf.
  - exists w. repeat split. right. now destruct (run w).
  - exists (set_db_faults w rest). repeat split. now left.
  - exists (set_db_faults w rest). repeat split. right.
    now destruct (run (set_db_faults w rest)).
Qed.

Lemma Forall_update (P : t -> Prop) (target : Z) (set : t -> t) ps :
  Forall P ps ->
  (forall p, In p ps -> id p = target -> P (set p)) ->
  Forall P (map (fun p => if id p =? target then set p else p) ps).
Proof.
  intros Hall Hset. apply Forall_forall. intros q Hq.
  apply in_map_iff in Hq as (p & <- & Hp).
  destruct (id p =? target) eqn:E.
  - apply Hset; [exact Hp | now apply Z.eqb_eq].
  - rewrite Forall_forall in Hall. now apply Hall.
Qed.

(** X8. Recording a success for a provider that exists resets its
    consecutive failures, raises its health score by one up to 100,
    counts the request and stamps the success; status, load, failed
    requests and cooldown stay as they were. *)
Theorem recordSuccess_post_state :
  forall (w : world) (target : Z) (p : t),
    db_faults w = [] ->
    find (fun q => id q =? target) (providers w) = Some p ->
    exists p',
      find (fun q => id q =? target)
           (providers (snd (Provider.recordSuccess target w))) = Some p'
      /\ consecutive_failures p' = 0
      /\ health_score p' = Z.min 100 (health_score p + 1)
      /\ total_requests p' = total_requests p + 1
      /\ last_success_at p' = Some (clock w)
      /\ status p' = status p
      /\ current_load p' = current_load p
      /\ failed_requests p' = failed_requests p
      /\ cooldown_until p' = cooldown_until p.
Proof.
  intros w target p Hf Hp. unfold Provider.recordSuccess.
  rewrite (DbFacts.statement_runs _ w Hf).
  cbn [snd Provider.update_rows providers set_providers].
  eexists. split.
  - apply ProviderFacts.find_map_update; [reflexivity | exact Hp].
  - cbn. repeat split.
Qed.

Lemma recordSuccess_post_state_witness :
  db_faults (ProviderScheduler.world_of
               [mk 1 None active 100 2 10 9 4 4 None None None]) = []
  /\ exists p',
       find (fun q => id q =? 1)
            (providers (snd (Provider.recordSuccess 1
               (ProviderScheduler.world_of
                  [mk 1 None active 100 2 10 9 4 4 None None None]))))
       = Some p'
       /\ consecutive_failures p' = 0 /\ health_score p' = 100.
Proof.
  split; [reflexivity|].
  destruct (recordSuccess_post_state
              (ProviderScheduler.world_of
                 [mk 1 None active 100 2 10 9 4 4 None None None])
              1 (mk 1 None active 100 2 10 9 4 4 None None None)
              eq_refl eq_refl)
    as (p' & Hfind & Hcf & Hhs & _).
  exists p'. repeat split; assumption.
Defined.

(** What a statement that rewrites the providers keeps, rejected or
    not. *)
Lemma statement_keeps {A} (P : list t -> Prop) (run : world -> A * world) w :
  P (providers w) ->
  (forall w0, providers w0 = providers w -> clock w0 = clock w ->
     P (providers (snd (run w0)))) ->
  P (providers (snd (statement run w))).
Proof.
  intros HP Hrun.
  destruct (statement_cases run w) as (w0 & Hp & _ & _ & Hc & _ & _ & _ & _ & [E | E]);
    rewrite E; cbn [snd].
  - now rewrite Hp.
  - now apply Hrun.
Qed.

Lemma update_rows_providers target set w :
  providers (snd (Provider.update_rows target set w))
  = map (fun p => if id p =? target then set p else p) (providers w).
Proof. reflexivity. Qed.

Lemma recordFailure_keeps (P : t -> Prop) cfg target msg w :
  Forall P (providers w) ->
  (forall q p newStatus failures stamp cooldown,
     P q -> P p ->
     P (mk (id q) (group_id q) newStatus (Z.max 0 (health_score p - 10))
           (current_load q) (max_concurrent q) (total_requests p + 1)
           (failed_requests p + 1) failures stamp (last_success_at q)
           cooldown)) ->
  Forall P (providers (snd (Provider.recordFailure cfg target msg w))).
Proof.
  intros Hall Hset. unfold Provider.recordFailure, Provider.findById.
  destruct (statement_cases
              (fun w => (find (fun p => id p =? target) (providers w), w)) w)
    as (w0 & Hp & _ & _ & Hc & _ & _ & _ & _ & [E | E]).
  - rewrite (DbFacts.bind_throw _ _ _ _ _ E). cbn [snd]. now rewrite Hp.
  - rewrite (DbFacts.bind_ok _ _ _ _ _ E). cbn [fst snd].
    destruct (find _ (providers w0)) as [provider|] eqn:Hfind;
      [|cbn [snd ret]; now rewrite Hp].
    apply find_some in Hfind as [Hin Hid]. rewrite Hp in Hin.
    assert (Hprov : P provider)
      by (rewrite Forall_forall in Hall; now apply Hall).
    unfold now, bind at 1. cbn [fst snd].
    destruct (failureThreshold cfg <=? consecutive_failures provider + 1);
      destruct (failureThreshold cfg * 2 <=? consecutive_failures provider + 1);
      unfold bind at 1; unfold Provider.update.
    all: match goal with
         | |- context [statement ?run] =>
             destruct (statement_cases run w0)
               as (w1 & Hp1 & _ & _ & Hc1 & _ & _ & _ & _ & [E1 | E1])
         end.
    all: first
           [ rewrite (DbFacts.bind_throw _ _ _ _ _ E1); cbn [snd];
             now rewrite Hp1, Hp
           | rewrite (DbFacts.bind_ok _ _ _ _ _ E1); cbn [snd ret];
             rewrite update_rows_providers, Hp1, Hp;
             apply Forall_update; [exact Hall|];
             intros q Hq _; apply Hset; [|exact Hprov];
             rewrite Forall_forall in Hall; now apply Hall ].
Qed.

Lemma decrementLoad_in_range target w :
  Forall in_range (providers w) ->
  Forall in_range (providers (snd (Provider.decrementLoad target w))).
Proof.
  intros Hall. unfold in_range in *.
  unfold Provider.decrementLoad. apply statement_keeps; [exact Hall|].
  intros w0 Hp _. cbn [snd Provider.update_rows record_event providers
                         set_providers]. rewrite Hp.
  apply Forall_update; [exact Hall|]. intros p Hp' _.
  rewrite Forall_forall in Hall. specialize (Hall p Hp'). cbn. lia.
Qed.

(** X9. Whatever the database rejects, the updates of the provider model
    keep every health score between 0 and 100 and every load at 0 or
    above: recording a success or a failure, taking and giving back load,
    and recovering the cooling providers. *)
Theorem provider_rows_stay_in_range :
  forall (cfg : config) (w : world) (target : Z) (msg : option jstring),
    Forall in_range (providers w) ->
    Forall in_range (providers (snd (Provider.recordSuccess target w)))
    /\ Forall in_range
         (providers (snd (Provider.recordFailure cfg target msg w)))
    /\ Forall in_range (providers (snd (Provider.incrementLoad target w)))
    /\ Forall in_range (providers (snd (Provider.decrementLoad target w)))
    /\ Forall in_range (providers (snd (recoverCoolingProviders w))).
Proof.
  intros cfg w target msg Hall. unfold in_range in *. repeat split.
  - unfold Provider.recordSuccess. apply statement_keeps; [exact Hall|].
    intros w0 Hp _. rewrite update_rows_providers, Hp.
    apply Forall_update; [exact Hall|]. intros p Hp' _.
    rewrite Forall_forall in Hall. specialize (Hall p Hp'). cbn. lia.
  - apply recordFailure_keeps; [exact Hall|].
    intros q p st f stamp cd Hq Hp. cbn. lia.
  - unfold Provider.incrementLoad. apply statement_keeps; [exact Hall|].
    intros w0 Hp _. cbn [snd Provider.update_rows record_event providers
                           set_providers]. rewrite Hp.
    apply Forall_update; [exact Hall|]. intros p Hp' _.
    rewrite Forall_forall in Hall. specialize (Hall p Hp'). cbn. lia.
  - apply decrementLoad_in_range. exact Hall.
  - unfold recoverCoolingProviders. apply statement_keeps; [exact Hall|].
    intros w0 Hp _. cbn [snd providers set_providers]. rewrite Hp.
    apply Forall_forall. intros q Hq.
    apply in_map_iff in Hq as (p & <- & Hp').
    rewrite Forall_forall in Hall. specialize (Hall p Hp').
    destruct (cooled_down (clock w0) p); [cbn; lia | exact Hall].
Qed.

Lemma provider_rows_stay_in_range_witness :
  Forall in_range
    (providers (ProviderScheduler.world_of [ProviderScheduler.healthy_provider 1]))
  /\ Forall in_range
       (providers (snd (Provider.decrementLoad 1
          (ProviderScheduler.world_of [ProviderScheduler.healthy_provider 1])))).
Proof.
  assert (H : Forall in_range
                (providers (ProviderScheduler.world_of
                              [ProviderScheduler.healthy_provider 1]))).
  { constructor; [|constructor]. unfold in_range. cbn. lia. }
  exact (conj H
           (proj1 (proj2 (proj2 (proj2
              (provider_rows_stay_in_range default_config
                 (ProviderScheduler.world_of
                    [ProviderScheduler.healthy_provider 1])
                 1 None H)))))).
Defined.



(** *** Failure, cooling and recovery *)

Lemma find_map_same_id (target : Z) (g : t -> t) (ps : list t) :
  (forall q, id (g q) = id q) ->
  find (fun q => id q =? target) (map g ps)
  = option_map g (find (fun q => id q =? target) ps).
Proof.
  intros Hid. induction ps as [|q ps IH]; [reflexivity|].
  cbn [map find]. rewrite Hid. destruct (id q =? target); [reflexivity|].
  exact IH.
Qed.

(** What [recordFailure] does when nothing is rejected and the provider
    exists. *)
Lemma recordFailure_runs cfg target msg w p :
  db_faults w = [] ->
  find (fun q => id q =? target) (providers w) = Some p ->
  Provider.recordFailure cfg target msg w
  = (Ok true,
     set_providers w
       (map (fun q => if id q =? target
                      then failure_row cfg (clock w) p q else q)
            (providers w))).
Proof.
  intros Hf Hp.
  unfold Provider.recordFailure, Provider.findById, Provider.update,
    bind, statement, now, ret, failure_row.
  rewrite Hf, Hp. cbn [fst snd].
  pose proof (ProviderFacts.found_is_counted _ _ _ Hp) as Hcount.
  destruct (failureThreshold cfg <=? consecutive_failures p + 1) eqn:H1;
    destruct (failureThreshold cfg * 2 <=? consecutive_failures p + 1) eqn:H2;
    cbn [fst snd Provider.update_rows db_faults set_providers]; rewrite Hf;
    cbn [fst snd Provider.update_rows db_faults set_providers providers];
    rewrite Hcount; reflexivity.
Qed.

Lemma recover_runs w :
  db_faults w = [] ->
  recoverCoolingProviders w
  = (Ok (Z.of_nat (List.length (filter (cooled_down (clock w)) (providers w)))),
     set_providers w
       (map (fun p => if cooled_down (clock w) p then recovered p else p)
            (providers w))).
Proof.
  intros Hf. unfold recoverCoolingProviders.
  now rewrite (DbFacts.statement_runs _ w Hf).
Qed.

(** X11. A provider that a failure sends into cooling comes back once its
    cooldown is over: a recovery run at or after failure time plus
    cooldown duration makes it active with health score 50 and no
    consecutive failure, load untouched, and it can be selected again
    when the health threshold is at most 50 and it has room; a recovery
    run before that instant leaves it cooling. *)
Theorem cooling_provider_recovers_after_cooldown :
  forall (cfg : config) (w : world) (target : Z) (msg : option jstring)
         (p : t) (later : Z),
    db_faults w = [] ->
    find (fun q => id q =? target) (providers w) = Some p ->
    failureThreshold cfg <= consecutive_failures p + 1
      < 2 * failureThreshold cfg ->
    exists p',
      find (fun q => id q =? target)
           (providers
              (snd (recoverCoolingProviders
                      (at_time later
                         (snd (Provider.recordFailure cfg target msg w))))))
      = Some p'
      /\ current_load p' = current_load p
      /\ (clock w + cooldownDuration cfg <= later ->
          status p' = active /\ health_score p' = 50
          /\ consecutive_failures p' = 0
          /\ (healthThreshold cfg <= 50 ->
              current_load p < max_concurrent p ->
              Provider.available cfg None p' = true))
      /\ (later < clock w + cooldownDuration cfg -> status p' = cooling).
Proof.
  intros cfg w target msg p later Hf Hp [Hlo Hhi].
  rewrite (recordFailure_runs cfg target msg w p Hf Hp). cbn [snd].
  rewrite recover_runs by exact Hf.
  cbn [snd providers set_providers at_time clock].
  rewrite find_map_same_id
    by (intros q; destruct (cooled_down later q); reflexivity).
  rewrite find_map_same_id
    by (intros q; destruct (id q =? target); reflexivity).
  rewrite Hp. cbn [option_map].
  apply find_some in Hp as [_ Hid]. rewrite Hid.
  eexists. split; [reflexivity|].
  unfold cooled_down, failure_row.
  cbn [status cooldown_until].
  apply Z.leb_le in Hlo. rewrite Hlo.
  assert (H2 : (failureThreshold cfg * 2 <=? consecutive_failures p + 1) = false)
    by (apply Z.leb_gt; lia).
  rewrite H2. cbn [status_eqb andb].
  destruct (clock w + cooldownDuration cfg <=? later) eqn:E.
  - apply Z.leb_le in E. split; [reflexivity|]. split; [|lia].
    intros _. repeat split. intros Hth Hroom.
    unfold Provider.available. cbn.
    apply Z.leb_le in Hth. apply Z.ltb_lt in Hroom. now rewrite Hth, Hroom.
  - apply Z.leb_gt in E. split; [reflexivity|]. split; [lia|].
    intros _. reflexivity.
Qed.

Lemma cooling_provider_recovers_after_cooldown_witness :
  db_faults shaky_world = []
  /\ exists p',
       find (fun q => id q =? 1)
            (providers
               (snd (recoverCoolingProviders
                       (at_time 1700000300000
                          (snd (Provider.recordFailure default_config 1 None
                                  shaky_world))))))
       = Some p'
       /\ status p' = active /\ health_score p' = 50.
Proof.
  split; [reflexivity|].
  destruct (cooling_provider_recovers_after_cooldown default_config
              shaky_world 1 None shaky_provider 1700000300000
              eq_refl eq_refl)
    as (p' & Hfind & _ & Hlate & _).
  { cbn. lia. }
  exists p'. split; [exact Hfind|].
  destruct Hlate as (Hs & Hh & _); [cbn; lia|]. now split.
Defined.

Lemma count_active_recovered stamp ps :
  Z.of_nat (List.length (filter (cooled_down stamp) ps))
  = Z.of_nat (List.length
                (filter (fun p => status_eqb (status p) active)
                   (map (fun p => if cooled_down stamp p then recovered p else p)
                        ps)))
    - Z.of_nat (List.length (filter (fun p => status_eqb (status p) active) ps)).
Proof.
  induction ps as [|p ps IH]; [reflexivity|].
  cbn [map filter]. destruct (cooled_down stamp p) eqn:E.
  - assert (Hs : status p = cooling).
    { unfold cooled_down in E. destruct (status p); try discriminate.
      reflexivity. }
    cbn [recovered status status_eqb]. rewrite Hs.
    cbn [status_eqb Datatypes.length]. lia.
  - destruct (status_eqb (status p) active); cbn [Datatypes.length]; lia.
Qed.

(** X12. With nothing rejected, a recovery run returns the number of
    providers that became active, leaves every row alone that is not
    cooling or whose cooldown is not over (a failed provider stays
    failed), and leaves no provider cooling whose cooldown is over. *)
Theorem recoverCoolingProviders_post_state :
  forall (w : world),
    db_faults w = [] ->
    fst (recoverCoolingProviders w)
    = Ok (Z.of_nat (List.length
                      (filter (fun p => status_eqb (status p) active)
                              (providers (snd (recoverCoolingProviders w)))))
          - Z.of_nat (List.length
                        (filter (fun p => status_eqb (status p) active)
                                (providers w))))
    /\ (forall p, In p (providers w) -> cooled_down (clock w) p = false ->
                  In p (providers (snd (recoverCoolingProviders w))))
    /\ (forall q, In q (providers (snd (recoverCoolingProviders w))) ->
                  cooled_down (clock w) q = false).
Proof.
  intros w Hf. rewrite (recover_runs w Hf). cbn [fst snd providers set_providers].
  split; [|split].
  - f_equal. apply count_active_recovered.
  - intros p Hp Hc. apply in_map_iff. exists p. now rewrite Hc.
  - intros q Hq. apply in_map_iff in Hq as (p & <- & _).
    destruct (cooled_down (clock w) p) eqn:E; [reflexivity | exact E].
Qed.

Lemma recoverCoolingProviders_post_state_witness :
  db_faults (at_time 1700000300000
               (snd (Provider.recordFailure default_config 1 None shaky_world)))
  = []
  /\ fst (recoverCoolingProviders
            (at_time 1700000300000
               (snd (Provider.recordFailure default_config 1 None shaky_world))))
     = Ok (1 - 0).
Proof.
  exact (conj eq_refl
           (proj1 (recoverCoolingProviders_post_state
                     (at_time 1700000300000
                        (snd (Provider.recordFailure default_config 1 None
                                shaky_world)))
                     eq_refl))).
Defined.

End ProviderMoreFacts.

(** ** The scheduler: whom it selects *)

Module SelectionFacts.
Import Db ProviderRow ProviderJobs ProviderScheduler.

Lemma insert_ranked_In p x l :
  In p (Provider.insert_ranked x l) <-> p = x \/ In p l.
Proof.
  split; [apply BalanceFacts.In_insert_ranked|].
  induction l as [|q l IH]; cbn [Provider.insert_ranked].
  - intros [-> | []]. now left.
  - destruct (Provider.ranks_before x q); cbn [In].
    + intros [-> | [-> | H]]; auto.
    + intros [-> | [-> | H]]; auto.
Qed.

Lemma order_ranked_In p l : In p (Provider.order_ranked l) <-> In p l.
Proof.
  induction l as [|x l IH]; cbn [Provider.order_ranked fold_right]; [tauto|].
  fold (Provider.order_ranked l). rewrite insert_ranked_In, IH.
  cbn [In]. intuition congruence.
Qed.

Lemma insert_ranked_descending x l :
  health_descending l -> health_descending (Provider.insert_ranked x l).
Proof.
  induction l as [|q l IH]; cbn [Provider.insert_ranked health_descending].
  - intros _. split; [intros ? []|exact I].
  - intros [Hq Hl]. destruct (Provider.ranks_before x q) eqn:E.
    + cbn [health_descending]. split; [|now split].
      unfold Provider.ranks_before in E.
      assert (health_score q <= health_score x).
      { apply orb_prop in E as [E | E].
        - apply Z.ltb_lt in E. lia.
        - apply andb_prop in E as [E _]. apply Z.eqb_eq in E. lia. }
      intros y [<- | Hy]; [assumption|]. specialize (Hq y Hy). lia.
    + cbn [health_descending]. split; [|now apply IH].
      intros y Hy. apply insert_ranked_In in Hy as [-> | Hy]; [|now apply Hq].
      unfold Provider.ranks_before in E.
      apply orb_false_elim in E as [E _]. apply Z.ltb_ge in E. exact E.
Qed.

Lemma order_ranked_descending l : health_descending (Provider.order_ranked l).
Proof.
  induction l as [|x l IH]; [exact I|].
  cbn [Provider.order_ranked fold_right]. now apply insert_ranked_descending.
Qed.

Lemma firstn_descending n : forall l,
  health_descending l -> health_descending (firstn n l).
Proof.
  induction n as [|n IH]; intros [|p l]; cbn [firstn health_descending];
    try tauto.
  intros [Hp Hl]. split; [|now apply IH].
  intros q Hq. apply Hp. eapply BalanceFacts.In_firstn; eassumption.
Qed.

(** X13. What [getAvailableProviders] returns: at most 20 providers, each a
    row of the table that is active, at or above the health threshold,
    with room for load and, when a group is asked for, of that group; no
    provider comes before a healthier one; and when at most 20 providers
    qualify, all of them are returned. *)
Theorem getAvailableProviders_sound_and_ranked :
  forall (cfg : config) (groupId : option Z) (w w1 : world) (ps : list t),
    Provider.getAvailableProviders cfg groupId w = (Ok ps, w1) ->
    (List.length ps <= 20)%nat
    /\ (forall p, In p ps ->
          In p (providers w) /\ Provider.available cfg groupId p = true)
    /\ health_descending ps
    /\ ((List.length (filter (Provider.available cfg groupId) (providers w))
         <= 20)%nat ->
        forall p, In p (providers w) ->
                  Provider.available cfg groupId p = true -> In p ps)
    /\ providers w1 = providers w.
Proof.
  intros cfg groupId w w1 ps. unfold Provider.getAvailableProviders.
  match goal with
  | |- statement ?run w = _ -> _ =>
      destruct (ProviderMoreFacts.statement_cases run w)
        as (w0 & Hp & _ & _ & _ & _ & _ & _ & _ & [E | E])
  end; unfold fst, snd in E; rewrite E; [discriminate|].
  intros Heq.
  assert (Hps : ps = firstn 20
                       (Provider.order_ranked
                          (filter (Provider.available cfg groupId)
                                  (providers w0)))) by congruence.
  assert (Hw : w1 = w0) by congruence.
  subst ps w1. clear Heq E. rewrite Hp.
  split; [apply firstn_le_length|]. split; [|split; [|split]].
  - intros p Hin. apply BalanceFacts.In_firstn in Hin.
    apply order_ranked_In, filter_In in Hin. exact Hin.
  - apply firstn_descending, order_ranked_descending.
  - intros Hfew p Hin Hav. rewrite firstn_all2.
    + apply order_ranked_In, filter_In. now split.
    + clear - Hfew.
      assert (Hlen : forall l, List.length (Provider.order_ranked l)
                               = List.length l).
      { induction l as [|x l IH]; [reflexivity|].
        cbn [Provider.order_ranked fold_right]. fold (Provider.order_ranked l).
        cbn [Datatypes.length]. rewrite <- IH.
        generalize (Provider.order_ranked l). intros s.
        induction s as [|q s IHs]; [reflexivity|].
        cbn [Provider.insert_ranked].
        destruct (Provider.ranks_before x q); cbn [Datatypes.length];
          [reflexivity | now rewrite IHs]. }
      now rewrite Hlen.
  - reflexivity.
Qed.

Lemma getAvailableProviders_sound_and_ranked_witness :
  Provider.getAvailableProviders default_config None mixed_pool
  = (Ok [ mk 2 None active 100 3 10 0 0 0 None None None;
          mk 1 None active 60 0 10 0 0 0 None None None ], mixed_pool)
  /\ health_descending
       [ mk 2 None active 100 3 10 0 0 0 None None None;
         mk 1 None active 60 0 10 0 0 0 None None None ].
Proof.
  assert (H : Provider.getAvailableProviders default_config None mixed_pool
              = (Ok [ mk 2 None active 100 3 10 0 0 0 None None None;
                      mk 1 None active 60 0 10 0 0 0 None None None ],
                 mixed_pool)) by (vm_compute; reflexivity).
  exact (conj H
           (proj1 (proj2 (proj2
              (getAvailableProviders_sound_and_ranked default_config None
                 mixed_pool mixed_pool _ H))))).
Defined.

(** What [selectProvider] does to the world and whom it returns. *)
Lemma selectProvider_spec cfg g e w :
  providers (snd (selectProvider cfg g e w)) = providers w
  /\ journal (snd (selectProvider cfg g e w)) = journal w
  /\ forall p, fst (selectProvider cfg g e w) = Ok p ->
       In p (providers w) /\ Provider.available cfg g p = true
       /\ (truthy_exclude e = true -> strict_neq (id p) e = true).
Proof.
  unfold selectProvider, Provider.getAvailableProviders.
  match goal with
  | |- context [statement ?run] =>
      destruct (ProviderMoreFacts.statement_cases run w)
        as (w0 & Hp & _ & _ & _ & Hj & _ & _ & _ & [E | E])
  end; unfold fst, snd in E.
  - rewrite (DbFacts.bind_throw _ _ _ _ _ E). cbn [fst snd].
    split; [assumption|]. split; [assumption|]. intros p Hx. discriminate Hx.
  - rewrite (DbFacts.bind_ok _ _ _ _ _ E). clear E.
    set (avail := firstn 20 _).
    assert (Havail : forall q, In q avail ->
              In q (providers w) /\ Provider.available cfg g q = true).
    { intros q Hq. subst avail. apply BalanceFacts.In_firstn in Hq.
      apply order_ranked_In, filter_In in Hq. now rewrite Hp in Hq. }
    set (candidates := if truthy_exclude e then _ else avail).
    assert (Hcand : forall q, In q candidates ->
              In q avail /\ (truthy_exclude e = true ->
                             strict_neq (id q) e = true)).
    { intros q Hq. subst candidates. destruct (truthy_exclude e).
      - apply filter_In in Hq. tauto.
      - split; [exact Hq | discriminate]. }
    destruct candidates as [|c cs] eqn:Ec.
    + cbn [fst snd throw].
      split; [assumption|]. split; [assumption|]. intros p Hx. discriminate Hx.
    + unfold bind.
      pose proof (BalanceFacts.after_draw w0) as (Hp1 & _ & Hj1).
      destruct (Math_random w0) as [[d|err] w1] eqn:Ed.
      * cbn [snd] in Hp1, Hj1.
        destruct (weightedRandom d (c :: cs)) as [s|] eqn:Ew.
        { cbn [fst snd ret]. split; [congruence|]. split; [congruence|].
          intros p [= <-]. apply BalanceFacts.weightedRandom_In in Ew.
          destruct (Hcand s Ew) as [Hs Hex].
          destruct (Havail s Hs). tauto. }
        { cbn [fst snd throw]. split; [congruence|]. split; [congruence|].
          intros p Hx. discriminate Hx. }
      * cbn [fst snd] in *. split; [congruence|]. split; [congruence|].
        intros p Hx. discriminate Hx.
Qed.

(** X14. Whatever the random draw, the provider that [selectProvider]
    returns is a row of the table that is active, at or above the health
    threshold and with room for load; it is not the provider excluded by
    a single id; and the selection changes no row. *)
Theorem selectProvider_returns_available_provider :
  forall (cfg : config) (groupId : option Z) (excludeId : exclude_value)
         (w w1 : world) (p : t),
    selectProvider cfg groupId excludeId w = (Ok p, w1) ->
    In p (providers w)
    /\ Provider.available cfg groupId p = true
    /\ (forall i, excludeId = ExId i -> i <> 0 -> id p <> i)
    /\ providers w1 = providers w.
Proof.
  intros cfg groupId excludeId w w1 p H.
  destruct (selectProvider_spec cfg groupId excludeId w) as (Hp & _ & Hsel).
  rewrite H in Hp, Hsel. cbn [fst snd] in Hp, Hsel.
  destruct (Hsel p eq_refl) as (Hin & Hav & Hex).
  repeat split; try assumption.
  intros i -> Hi Heq. cbn [truthy_exclude strict_neq] in Hex.
  apply Z.eqb_neq in Hi. rewrite Hi in Hex. specialize (Hex eq_refl).
  apply negb_true_iff, Z.eqb_neq in Hex. contradiction.
Qed.

Lemma selectProvider_returns_available_provider_witness :
  selectProvider default_config None (ExId 2) mixed_pool
  = (Ok (mk 1 None active 60 0 10 0 0 0 None None None), mixed_pool)
  /\ In (mk 1 None active 60 0 10 0 0 0 None None None) (providers mixed_pool).
Proof.
  assert (H : selectProvider default_config None (ExId 2) mixed_pool
              = (Ok (mk 1 None active 60 0 10 0 0 0 None None None),
                 mixed_pool)) by (vm_compute; reflexivity).
  exact (conj H
           (proj1 (selectProvider_returns_available_provider default_config
                     None (ExId 2) mixed_pool mixed_pool _ H))).
Defined.

(** What [acquireProvider] does, by cases. *)
Lemma acquireProvider_spec cfg g e w :
  (exists err, fst (acquireProvider cfg g e w) = Throw err
               /\ providers (snd (acquireProvider cfg g e w)) = providers w
               /\ journal (snd (acquireProvider cfg g e w)) = journal w)
  \/ (exists p, fst (acquireProvider cfg g e w) = Ok p
                /\ In p (providers w)
                /\ Provider.available cfg g p = true
                /\ providers (snd (acquireProvider cfg g e w))
                   = map (fun q => if id q =? id p
                                   then Provider.set_load (fun l => l + 1) q
                                   else q)
                         (providers w)
                /\ journal (snd (acquireProvider cfg g e w))
                   = journal w ++ [Acquired (id p)]).
Proof.
  unfold acquireProvider.
  destruct (selectProvider_spec cfg g e w) as (Hp & Hj & Hsel).
  destruct (selectProvider cfg g e w) as [[p|err] w0] eqn:E;
    cbn [fst snd] in Hp, Hj, Hsel.
  - rewrite (DbFacts.bind_ok _ _ _ _ _ E).
    destruct (Hsel p eq_refl) as (Hin & Hav & _).
    unfold Provider.incrementLoad.
    match goal with
    | |- context [statement ?run] =>
        destruct (ProviderMoreFacts.statement_cases run w0)
          as (w1 & Hp1 & _ & _ & _ & Hj1 & _ & _ & _ & [E1 | E1])
    end.
    + left. rewrite (DbFacts.bind_throw _ _ _ _ _ E1). cbn [fst snd].
      eexists. split; [reflexivity|]. split; congruence.
    + right. rewrite (DbFacts.bind_ok _ _ _ _ _ E1).
      cbn [fst snd ret Provider.update_rows record_event providers
           set_providers journal].
      exists p. rewrite Hp1, Hj1, Hp, Hj. repeat split; assumption.
  - left. rewrite (DbFacts.bind_throw _ _ _ _ _ E). cbn [fst snd].
    eexists. split; [reflexivity|]. split; assumption.
Qed.

(** X15. When [acquireProvider] returns a provider, that provider
    qualified for selection, its load in the table is one higher than
    before, every other row is untouched, and the acquisition is the one
    thing added to the journal. *)
Theorem acquireProvider_takes_one_unit_of_load :
  forall (cfg : config) (groupId : option Z) (excludeId : exclude_value)
         (w w1 : world) (p : t),
    acquireProvider cfg groupId excludeId w = (Ok p, w1) ->
    In p (providers w)
    /\ Provider.available cfg groupId p = true
    /\ providers w1
       = map (fun q => if id q =? id p
                       then Provider.set_load (fun l => l + 1) q else q)
             (providers w)
    /\ journal w1 = journal w ++ [Acquired (id p)].
Proof.
  intros cfg groupId excludeId w w1 p H.
  destruct (acquireProvider_spec cfg groupId excludeId w)
    as [(err & Hfst & _) | (q & Hfst & Hin & Hav & Hp & Hj)];
    rewrite H in *; cbn [fst snd] in *; [discriminate|].
  injection Hfst as <-. repeat split; assumption.
Qed.

Lemma acquireProvider_takes_one_unit_of_load_witness :
  acquireProvider default_config None ExNull
    (world_of [RequestExecutor.busy_provider 1])
  = (Ok (RequestExecutor.busy_provider 1),
     record_event
       (set_providers (world_of [RequestExecutor.busy_provider 1])
          [mk 1 None active 100 2 10 0 0 0 None None None])
       (Acquired 1))
  /\ providers
       (record_event
          (set_providers (world_of [RequestExecutor.busy_provider 1])
             [mk 1 None active 100 2 10 0 0 0 None None None])
          (Acquired 1))
     = map (fun q => if id q =? id (RequestExecutor.busy_provider 1)
                     then Provider.set_load (fun l => l + 1) q else q)
           (providers (world_of [RequestExecutor.busy_provider 1])).
Proof.
  assert (H : acquireProvider default_config None ExNull
                (world_of [RequestExecutor.busy_provider 1])
              = (Ok (RequestExecutor.busy_provider 1),
                 record_event
                   (set_providers (world_of [RequestExecutor.busy_provider 1])
                      [mk 1 None active 100 2 10 0 0 0 None None None])
                   (Acquired 1))) by (vm_compute; reflexivity).
  exact (conj H
           (proj1 (proj2 (proj2
              (acquireProvider_takes_one_unit_of_load default_config None
                 ExNull _ _ _ H))))).
Defined.

Lemma same_id_same_row (ps : list t) (p q : t) :
  NoDup (map id ps) -> In p ps -> In q ps -> id q = id p -> q = p.
Proof.
  induction ps as [|x ps IH]; [intros _ []|].
  cbn [map]. intros Hn Hp Hq Hid. inversion_clear Hn as [|? ? Hx Hrest].
  destruct Hp as [-> | Hp]; destruct Hq as [-> | Hq].
  - reflexivity.
  - exfalso. apply Hx. rewrite <- Hid. now apply in_map.
  - exfalso. apply Hx. rewrite Hid. now apply in_map.
  - now apply IH.
Qed.

(** X16. One call of [acquireProvider] at a time never loads a provider
    beyond its limit: with provider ids distinct and every load within
    [max_concurrent], a call that no other request interleaves with
    leaves every load within [max_concurrent], whatever is drawn or
    rejected. The bound is not kept across calls in flight together:
    the selection and the increment are two statements, and when two
    requests are both answered by their selection before either sends
    its increment, a lone provider with one place left is given to both
    and ends one above its limit. *)
Theorem acquireProvider_capacity_one_call_at_a_time :
  forall (cfg : config) (groupId : option Z) (excludeId : exclude_value)
         (w : world),
    NoDup (map id (providers w)) ->
    Forall within_capacity (providers w) ->
    Forall within_capacity
      (providers (snd (acquireProvider cfg groupId excludeId w)))
    /\ (forall p,
          providers w = [p] ->
          db_faults w = [] ->
          Provider.available cfg None p = true ->
          current_load p + 1 = max_concurrent p ->
          fst (acquire_twice_interleaved cfg w) = Ok (p, p)
          /\ exists p',
               providers (snd (acquire_twice_interleaved cfg w)) = [p']
               /\ id p' = id p
               /\ max_concurrent p' = max_concurrent p
               /\ current_load p' = max_concurrent p + 1
               /\ ~ within_capacity p').
Proof.
  intros cfg groupId excludeId w Hnodup Hall. split.
  - destruct (acquireProvider_spec cfg groupId excludeId w)
      as [(err & _ & Hp & _) | (p & _ & Hin & Hav & Hp & _)]; rewrite Hp;
      [exact Hall|].
    apply ProviderMoreFacts.Forall_update; [exact Hall|].
    intros q Hq Hid.
    assert (q = p) by (apply (same_id_same_row _ _ _ Hnodup); assumption).
    subst q. unfold within_capacity, Provider.available in *.
    apply andb_prop in Hav as [Hav _]. apply andb_prop in Hav as [_ Hroom].
    apply Z.ltb_lt in Hroom. destruct p. cbn in *. lia.
  - intros p Hp Hf Hav Hload.
    destruct (BalanceFacts.after_draw w) as (Hp1 & Hf1 & _).
    destruct (BalanceFacts.after_draw (snd (Math_random w)))
      as (Hp2 & Hf2 & _).
    rewrite Hp in Hp1. rewrite Hf in Hf1.
    rewrite Hp1 in Hp2. rewrite Hf1 in Hf2.
    unfold acquire_twice_interleaved.
    rewrite (DbFacts.bind_ok _ _ _ _ _
               (BalanceFacts.select_lone cfg ExNull w p Hp Hf Hav eq_refl)).
    rewrite (DbFacts.bind_ok _ _ _ _ _
               (BalanceFacts.select_lone cfg ExNull _ p Hp1 Hf1 Hav eq_refl)).
    unfold Provider.incrementLoad.
    rewrite (DbFacts.bind_ok _ _ _ _ _ (DbFacts.statement_runs _ _ Hf2)).
    cbn [Provider.update_rows fst snd]. rewrite Hp2. cbn [map].
    rewrite Z.eqb_refl.
    erewrite DbFacts.bind_ok
      by (apply DbFacts.statement_runs; cbn [db_faults record_event
                                              set_providers]; exact Hf2).
    cbn [fst snd providers record_event set_providers map ret].
    replace (id (Provider.set_load (fun l => l + 1) p) =? id p) with true
      by (symmetry; destruct p; apply Z.eqb_refl).
    split; [reflexivity|].
    eexists. split; [reflexivity|].
    unfold within_capacity. destruct p. cbn in *. repeat split; lia.
Qed.

Lemma acquireProvider_capacity_one_call_at_a_time_witness :
  NoDup (map id (providers last_place))
  /\ Forall within_capacity (providers last_place)
  /\ Forall within_capacity
       (providers (snd (acquireProvider default_config None ExNull last_place)))
  /\ fst (acquire_twice_interleaved default_config last_place)
     = Ok (mk 1 None active 100 9 10 0 0 0 None None None,
           mk 1 None active 100 9 10 0 0 0 None None None).
Proof.
  assert (Hn : NoDup (map id (providers last_place))).
  { cbn. repeat constructor; cbn; intuition discriminate. }
  assert (Hc : Forall within_capacity (providers last_place)).
  { cbn. repeat constructor; unfold within_capacity; cbn; lia. }
  destruct (acquireProvider_capacity_one_call_at_a_time default_config None
              ExNull last_place Hn Hc) as [Hone Htwo].
  exact (conj Hn (conj Hc (conj Hone
           (proj1 (Htwo (mk 1 None active 100 9 10 0 0 0 None None None)
                     eq_refl eq_refl eq_refl eq_refl))))).
Defined.

(** *** Retries *)

Lemma weightedRandom_some d c cs : exists s, weightedRandom d (c :: cs) = Some s.
Proof.
  unfold weightedRandom.
  destruct (pick _ (c :: cs)) as [s|]; [now exists s | now exists c].
Qed.

(** With nothing rejected, a selection without exclusion succeeds as soon
    as one provider qualifies. *)
Lemma selectProvider_succeeds cfg g w q :
  db_faults w = [] -> In q (providers w) ->
  Provider.available cfg g q = true ->
  exists p w1, selectProvider cfg g ExNull w = (Ok p, w1)
               /\ db_faults w1 = [].
Proof.
  intros Hf Hin Hav. unfold selectProvider, Provider.getAvailableProviders.
  rewrite (DbFacts.bind_ok _ _ _ _ _ (DbFacts.statement_runs _ w Hf)).
  unfold fst, snd. cbn [truthy_exclude].
  assert (Hq : In q (Provider.order_ranked
                       (filter (Provider.available cfg g) (providers w))))
    by (apply order_ranked_In, filter_In; now split).
  destruct (Provider.order_ranked _) as [|c cs]; [destruct Hq|].
  change (firstn 20 (c :: cs)) with (c :: firstn 19 cs).
  unfold bind. pose proof (BalanceFacts.after_draw w) as (_ & Hf1 & _).
  destruct (Math_random w) as [[d|err] w1] eqn:Ed.
  - destruct (weightedRandom_some d c (firstn 19 cs)) as [s ->].
    exists s, w1. split; [reflexivity|]. cbn [snd] in Hf1. congruence.
  - unfold Math_random in Ed. destruct (randoms w); discriminate.
Qed.

(** X17. With no provider that qualifies, [executeWithRetry] gives up at
    once with the error of the scheduler, without running the operation
    and without touching the world; with no attempt allowed it gives up
    with its own error. *)
Theorem executeWithRetry_without_provider :
  forall (cfg : config) (R : Type) (operation : t -> M R) (groupId : option Z)
         (notify : option (Z -> error -> M unit)) (n : nat) (w : world),
    db_faults w = [] ->
    (forall p, In p (providers w) -> Provider.available cfg groupId p = false) ->
    executeWithRetry cfg operation groupId notify (S n) w
    = (Throw (str "No available provider"), w)
    /\ executeWithRetry cfg operation groupId notify 0 w
       = (Throw (str "All providers failed"), w).
Proof.
  intros cfg R operation groupId notify n w Hf Hnone.
  split; [|reflexivity].
  unfold executeWithRetry. cbn [retry_loop].
  assert (Hsel : selectProvider cfg groupId ExNull w
                 = (Throw (str "No available provider"), w)).
  { unfold selectProvider, Provider.getAvailableProviders.
    rewrite (DbFacts.bind_ok _ _ _ _ _ (DbFacts.statement_runs _ w Hf)).
    unfold fst, snd. cbn [truthy_exclude].
    replace (filter (Provider.available cfg groupId) (providers w))
      with (@nil t); [reflexivity|].
    symmetry. induction (providers w) as [|p ps IH]; [reflexivity|].
    cbn [filter]. rewrite (Hnone p) by now left.
    apply IH. intros q Hq. apply Hnone. now right. }
  unfold acquireProvider.
  rewrite (DbFacts.bind_throw _ _ _ _ _
             (DbFacts.bind_throw _ _ _ _ _ Hsel)).
  reflexivity.
Qed.

Lemma executeWithRetry_without_provider_witness :
  db_faults (world_of [ProviderJobs.dead_provider]) = []
  /\ executeWithRetry default_config failing_operation None None 3
       (world_of [ProviderJobs.dead_provider])
     = (Throw (str "No available provider"),
        world_of [ProviderJobs.dead_provider]).
Proof.
  assert (H : forall p, In p (providers (world_of [ProviderJobs.dead_provider])) ->
                        Provider.available default_config None p = false).
  { intros p [<- | []]. reflexivity. }
  exact (conj eq_refl
           (proj1 (executeWithRetry_without_provider default_config unit
                     failing_operation None None 2
                     (world_of [ProviderJobs.dead_provider]) eq_refl H))).
Defined.

Lemma find_distinct (ps : list t) (p : t) :
  NoDup (map id ps) -> In p ps ->
  find (fun q => id q =? id p) ps = Some p.
Proof.
  intros Hn Hin.
  destruct (find (fun q => id q =? id p) ps) as [q|] eqn:E.
  - apply find_some in E as [Hq Hid]. apply Z.eqb_eq in Hid.
    f_equal. now apply (same_id_same_row ps p q Hn).
  - apply (find_none _ _ E) in Hin. rewrite Z.eqb_refl in Hin. discriminate.
Qed.

(** X18. An operation that succeeds is run once: with nothing rejected,
    provider ids distinct and a provider that qualifies,
    [executeWithRetry] returns the result together with the provider it
    selected; afterwards that provider has the load it had before, no
    consecutive failure, one more request counted and its health score
    raised by one up to 100, every other row is as before, and the
    journal holds the acquisition followed by the release. *)
Theorem executeWithRetry_success_restores_load :
  forall (cfg : config) (R : Type) (operation : t -> M R) (result : t -> R)
         (groupId : option Z) (notify : option (Z -> error -> M unit))
         (n : nat) (w : world) (candidate : t),
    db_faults w = [] ->
    NoDup (map id (providers w)) ->
    Forall in_range (providers w) ->
    In candidate (providers w) ->
    Provider.available cfg groupId candidate = true ->
    (forall p w', operation p w' = (Ok (result p), w')) ->
    exists p w3 p',
      executeWithRetry cfg operation groupId notify (S n) w
      = (Ok (result p, p), w3)
      /\ In p (providers w)
      /\ Provider.available cfg groupId p = true
      /\ journal w3 = journal w ++ [Acquired (id p); Released (id p)]
      /\ find (fun q => id q =? id p) (providers w3) = Some p'
      /\ current_load p' = current_load p
      /\ consecutive_failures p' = 0
      /\ total_requests p' = total_requests p + 1
      /\ health_score p' = Z.min 100 (health_score p + 1)
      /\ (forall q, In q (providers w) -> id q <> id p ->
                    In q (providers w3)).
Proof.
  intros cfg R operation result groupId notify n w candidate
    Hf Hnodup Hrange Hin Hav Hop.
  destruct (selectProvider_succeeds cfg groupId w candidate Hf Hin Hav)
    as (p & w0 & Hsel & Hf0).
  destruct (selectProvider_spec cfg groupId ExNull w) as (Hp0 & Hj0 & Hmem).
  rewrite Hsel in Hp0, Hj0, Hmem. cbn [fst snd] in Hp0, Hj0, Hmem.
  destruct (Hmem p eq_refl) as (Hpin & Hpav & _).
  unfold executeWithRetry. cbn [retry_loop]. unfold acquireProvider.
  unfold bind at 1. unfold bind at 1. rewrite Hsel.
  unfold bind at 1. unfold Provider.incrementLoad.
  rewrite (DbFacts.statement_runs _ w0 Hf0).
  cbn [fst snd Provider.update_rows ret].
  unfold bind at 1. unfold try_catch. unfold bind at 1. rewrite Hop.
  unfold recordSuccess, releaseProvider, Provider.recordSuccess,
    Provider.decrementLoad.
  unfold bind at 1. unfold bind at 1.
  rewrite DbFacts.statement_runs by exact Hf0.
  cbn [fst snd Provider.update_rows ret].
  unfold bind at 1. unfold bind at 1.
  rewrite DbFacts.statement_runs by exact Hf0.
  cbn [fst snd Provider.update_rows ret record_event providers set_providers
       journal clock].
  exists p. eexists. eexists.
  split; [reflexivity|].
  cbn [providers journal set_providers record_event].
  split; [exact Hpin|]. split; [exact Hpav|].
  split; [rewrite Hj0, <- app_assoc; reflexivity|].
  rewrite Hp0.
  split.
  { rewrite !ProviderMoreFacts.find_map_same_id
      by (intros q; destruct (id q =? id p); reflexivity).
    rewrite (find_distinct _ _ Hnodup Hpin). cbn [option_map].
    rewrite Z.eqb_refl. cbn [id Provider.set_load]. rewrite Z.eqb_refl.
    cbn [id]. rewrite Z.eqb_refl. reflexivity. }
  rewrite Forall_forall in Hrange. destruct (Hrange p Hpin) as [_ Hload].
  cbn [current_load consecutive_failures total_requests health_score
       Provider.set_load].
  split; [lia|]. split; [reflexivity|]. split; [reflexivity|].
  split; [reflexivity|].
  intros q Hq Hne. rewrite !map_map. apply in_map_iff. exists q.
  split; [|exact Hq]. apply Z.eqb_neq in Hne. now rewrite !Hne.
Qed.

Lemma executeWithRetry_success_restores_load_witness :
  db_faults mixed_pool = []
  /\ exists p w3,
       executeWithRetry default_config (fun p => ret (id p)) None None 3
         mixed_pool
       = (Ok (id p, p), w3)
       /\ journal w3 = [Acquired (id p); Released (id p)].
Proof.
  split; [reflexivity|].
  assert (Hn : NoDup (map id (providers mixed_pool))).
  { cbn. repeat constructor; cbn; intuition discriminate. }
  assert (Hr : Forall in_range (providers mixed_pool)).
  { cbn. repeat constructor; unfold in_range; cbn; lia. }
  destruct (executeWithRetry_success_restores_load default_config Z
              (fun p => ret (id p)) id None None 2 mixed_pool
              (mk 1 None active 60 0 10 0 0 0 None None None)
              eq_refl Hn Hr (or_introl eq_refl) eq_refl
              (fun p w' => eq_refl))
    as (p & w3 & p' & Hrun & _ & _ & Hj & _).
  exists p, w3. split; [exact Hrun | exact Hj].
Defined.

End SelectionFacts.

(** ** Retries: how many attempts, and what each leaves behind *)

Module RetryFacts.
Import Db DbFacts ProviderScheduler.

(** Every attempt acquires one provider and releases it before the next
    attempt starts, and there are no more attempts than turns left. *)
Lemma retry_loop_bounded cfg {R} (operation : ProviderRow.t -> M R) g notify :
  (forall p, calm (operation p)) ->
  (forall f, notify = Some f -> forall i e, calm (f i e)) ->
  forall attempts lastError excludeIds w,
    db_faults w = [] ->
    exists ps,
      (List.length ps <= attempts)%nat
      /\ journal (snd (retry_loop cfg operation g notify
                         attempts lastError excludeIds w))
         = journal w ++ paired ps.
Proof.
  intros Hop Hnotify.
  induction attempts as [|n IH]; intros lastError excludeIds w Hf.
  - exists []. split; [apply Nat.le_refl|]. simpl. now rewrite app_nil_r.
  - cbn [retry_loop].
    set (ex := match excludeIds with [] => _ | _ => _ end).
    destruct (BalanceFacts.acquire_spec cfg g ex w Hf)
      as [(p & w1 & Hacq & _ & Hf1 & Hj1) | (err & w1 & Hacq & Hf1 & Hj1)].
    2:{ exists []. split; [cbn; lia|].
        erewrite bind_throw by exact Hacq.
        simpl. now rewrite app_nil_r. }
    erewrite bind_ok by exact Hacq. cbv zeta.
    destruct (calm_cases _ w1 (Hop p) Hf1) as (r & w2 & Hrun & Hf2 & Hj2).
    destruct r as [result|err].
    + destruct (returning_cases _ w2
                  (BalanceFacts.calm_recordSuccess (ProviderRow.id p))
                  (BalanceFacts.returns_recordSuccess (ProviderRow.id p)) Hf2)
        as ([] & w3 & Hsucc & Hf3 & Hj3).
      destruct (BalanceFacts.release_spec (ProviderRow.id p) w3 Hf3)
        as (w4 & Hrel & Hf4 & Hj4).
      exists [ProviderRow.id p]. split; [cbn; lia|].
      erewrite bind_ok
        by (apply try_ok;
            erewrite bind_ok by exact Hrun;
            erewrite bind_ok by exact Hsucc;
            erewrite bind_ok by exact Hrel;
            reflexivity).
      cbn [ret snd paired flat_map app].
      rewrite Hj4, Hj3, Hj2, Hj1, <- app_assoc. reflexivity.
    + destruct (returning_cases _ w2
                  (BalanceFacts.calm_recordFailure cfg (ProviderRow.id p) err)
                  (BalanceFacts.returns_recordFailure cfg (ProviderRow.id p) err)
                  Hf2)
        as ([] & w3 & Hfail & Hf3 & Hj3).
      destruct (BalanceFacts.release_spec (ProviderRow.id p) w3 Hf3)
        as (w4 & Hrel & Hf4 & Hj4).
      assert (Hcalm_notify :
        calm (match notify with
              | Some f => f (ProviderRow.id p) err
              | None => ret tt
              end)).
      { destruct notify as [f|]; [now apply (Hnotify f) | calm]. }
      destruct (calm_cases _ w4 Hcalm_notify Hf4) as (r & w5 & Hn & Hf5 & Hj5).
      destruct r as [[]|err'].
      * destruct (IH (Some err) (set_add (ProviderRow.id p) excludeIds) w5 Hf5)
          as (ps & Hlen & Hps).
        exists (ProviderRow.id p :: ps). split; [cbn; lia|].
        erewrite bind_ok
          by (erewrite try_throw by (apply bind_throw; exact Hrun);
              erewrite bind_ok by exact Hfail;
              erewrite bind_ok by exact Hrel;
              erewrite bind_ok by exact Hn;
              reflexivity).
        cbv beta iota. rewrite Hps.
        cbn [paired flat_map app].
        rewrite Hj5, Hj4, Hj3, Hj2, Hj1, <- !app_assoc. reflexivity.
      * exists [ProviderRow.id p]. split; [cbn; lia|].
        erewrite bind_throw
          by (erewrite try_throw by (apply bind_throw; exact Hrun);
              erewrite bind_ok by exact Hfail;
              erewrite bind_ok by exact Hrel;
              apply bind_throw; exact Hn).
        cbn [snd paired flat_map app].
        rewrite Hj5, Hj4, Hj3, Hj2, Hj1, <- app_assoc. reflexivity.
Qed.

(** X19. With no statement rejected, and an operation and a callback that
    leave the load counters alone, [executeWithRetry] makes at most
    [maxRetries] attempts, and each attempt's acquisition is followed by
    one release of the same provider before the next attempt starts,
    whether the run ends with a result or with an error. *)
Theorem executeWithRetry_balanced_and_bounded :
  forall (cfg : config) (R : Type) (operation : ProviderRow.t -> M R)
         (groupId : option Z) (notify : option (Z -> error -> M unit))
         (maxRetries : nat) (w : world),
    (forall p, calm (operation p)) ->
    (forall f, notify = Some f -> forall i e, calm (f i e)) ->
    db_faults w = [] ->
    exists ps,
      (List.length ps <= maxRetries)%nat
      /\ journal (snd (executeWithRetry cfg operation groupId notify
                         maxRetries w))
         = journal w ++ paired ps.
Proof.
  intros cfg R operation groupId notify maxRetries w Hop Hnotify Hf.
  now apply retry_loop_bounded.
Qed.

Lemma executeWithRetry_balanced_and_bounded_witness :
  db_faults (world_of [healthy_provider 1; healthy_provider 2]) = []
  /\ exists ps,
       (List.length ps <= 3)%nat
       /\ journal (snd retry_pair)
          = journal (world_of [healthy_provider 1; healthy_provider 2])
            ++ paired ps.
Proof.
  split; [reflexivity|].
  exact (executeWithRetry_balanced_and_bounded default_config unit
           failing_operation None None 3
           (world_of [healthy_provider 1; healthy_provider 2])
           (fun p => calm_throw _)
           (fun f (H : None = Some f) =>
              match H in _ = o return
                    match o with Some _ => _ | None => True end
              with eq_refl => I end)
           eq_refl).
Defined.

(** X20. On a pool of one provider that stays a candidate through n
    failures, every one of the n attempts of [executeWithRetry] acquires
    that same provider, whatever [Math.random] draws: the ids collected
    from failed attempts keep no provider out of the selection. *)
Theorem executeWithRetry_lone_provider_every_attempt :
  forall (cfg : config) (n : nat) (w : world) (p : ProviderRow.t),
    providers w = [p] ->
    db_faults w = [] ->
    fit cfg (Z.of_nat n) p ->
    acquisitions (snd (executeWithRetry cfg failing_operation None None n w))
    = acquisitions w ++ repeat (ProviderRow.id p) n.
Proof.
  intros cfg n w p Hp Hf Hfit. unfold executeWithRetry.
  now apply BalanceFacts.lone_provider_reacquired.
Qed.

Lemma executeWithRetry_lone_provider_every_attempt_witness :
  providers (world_of [healthy_provider 1]) = [healthy_provider 1]
  /\ acquisitions (snd retry_alone) = [] ++ repeat 1 3.
Proof.
  assert (Hfit : fit default_config (Z.of_nat 3) (healthy_provider 1)).
  { unfold fit. cbn. repeat split; lia. }
  exact (conj eq_refl
           (executeWithRetry_lone_provider_every_attempt default_config 3
              (world_of [healthy_provider 1]) (healthy_provider 1)
              eq_refl eq_refl Hfit)).
Defined.

(** X21. With no statement rejected and provider ids as the database
    assigns them (never 0), every run of [generateContent], whether it
    returns a response or throws, either acquires no provider at all or
    acquires one provider and releases it exactly once. *)
Theorem generateContent_releases_what_it_acquires :
  forall (cfg : config) (up : RequestExecutor.upstream)
         (o : RequestExecutor.options) (w : world),
    db_faults w = [] ->
    (forall p, In p (providers w) -> ProviderRow.id p <> 0) ->
    journal (snd (RequestExecutor.generateContent cfg up o w)) = journal w
    \/ exists pid,
         journal (snd (RequestExecutor.generateContent cfg up o w))
         = journal w ++ [Acquired pid; Released pid].
Proof.
  intros cfg up o w Hf Hids.
  exact (BalanceFacts.generateContent_balanced cfg up o w Hf Hids).
Qed.

Lemma generateContent_releases_what_it_acquires_witness :
  db_faults (world_of [healthy_provider 1]) = []
  /\ (journal (snd RequestExecutor.missing_contents)
       = journal (world_of [healthy_provider 1])
       \/ exists pid,
            journal (snd RequestExecutor.missing_contents)
            = journal (world_of [healthy_provider 1])
              ++ [Acquired pid; Released pid]).
Proof.
  assert (Hids : forall p, In p (providers (world_of [healthy_provider 1])) ->
                           ProviderRow.id p <> 0).
  { intros p [<- | []]. discriminate. }
  exact (conj eq_refl
           (generateContent_releases_what_it_acquires default_config
              RequestExecutor.upstream_ok
              (RequestExecutor.request SessionMatcher.CMissing)
              (world_of [healthy_provider 1]) eq_refl Hids)).
Defined.

End RetryFacts.

(** ** Sessions: creation, limits and continuity *)

Module SessionMoreFacts.
Import Db DbFacts SessionRow Session SessionJobs.

Lemma oldest_from (rows : list t) : forall b s,
  fold_left older rows (Some b) = Some s ->
  (s = b \/ In s rows)
  /\ last_accessed_at s <= last_accessed_at b
  /\ (forall s', In s' rows -> last_accessed_at s <= last_accessed_at s').
Proof.
  induction rows as [|r rows IH]; intros b s H; simpl in H.
  - injection H as ->. repeat split; [now left | lia | intros s' []].
  - destruct (last_accessed_at r <? last_accessed_at b) eqn:Hlt;
      apply IH in H as (Hin & Hb & Hall).
    + repeat split.
      * destruct Hin as [-> | Hin]; right; [now left | now right].
      * lia.
      * intros s' [<- | Hs']; [exact Hb | now apply Hall].
    + repeat split.
      * destruct Hin as [-> | Hin]; [now left | right; now right].
      * exact Hb.
      * intros s' [<- | Hs']; [lia | now apply Hall].
Qed.

Lemma oldest_some (rows : list t) (s : t) :
  oldest rows = Some s ->
  In s rows
  /\ (forall s', In s' rows -> last_accessed_at s <= last_accessed_at s').
Proof.
  unfold oldest. destruct rows as [|r rows]; simpl; [discriminate|].
  intros H. apply oldest_from in H as (Hin & Hb & Hall). split.
  - destruct Hin as [-> | Hin]; [now left | now right].
  - intros s' [<- | Hs']; [exact Hb | now apply Hall].
Qed.


Lemma remove_row_In i q l : In q (remove_row i l) -> In q l.
Proof.
  induction l as [|x l IH]; cbn [remove_row]; [tauto|].
  destruct (id x =? i); cbn [In]; tauto.
Qed.


Lemma same_id_same_session (l : list t) (p q : t) :
  NoDup (map id l) -> In p l -> In q l -> id q = id p -> q = p.
Proof.
  induction l as [|x l IH]; [intros _ []|].
  cbn [map]. intros Hn Hp Hq Hid. inversion_clear Hn as [|? ? Hx Hrest].
  destruct Hp as [-> | Hp]; destruct Hq as [-> | Hq].
  - reflexivity.
  - exfalso. apply Hx. rewrite <- Hid. now apply in_map.
  - exfalso. apply Hx. rewrite Hid. now apply in_map.
  - now apply IH.
Qed.




Lemma find_new_row (l : list t) (n : t) :
  (forall q, In q l -> id q <> id n) ->
  find (fun s => id s =? id n) (l ++ [n]) = Some n.
Proof.
  induction l as [|x l IH]; intros H.
  - cbn. now rewrite Z.eqb_refl.
  - cbn [app find].
    assert (Hx : (id x =? id n) = false) by (apply Z.eqb_neq, H; now left).
    rewrite Hx. apply IH. intros q Hq. apply H. now right.
Qed.

Lemma room_made_frame cfg uid w :
  providers (room_made cfg uid w) = providers w
  /\ next_session_id (room_made cfg uid w) = next_session_id w
  /\ clock (room_made cfg uid w) = clock w
  /\ db_faults (room_made cfg uid w) = db_faults w
  /\ journal (room_made cfg uid w) = journal w
  /\ (forall q, In q (sessions (room_made cfg uid w)) -> In q (sessions w)).
Proof.
  unfold room_made, delete_oldest.
  destruct (negb (uid =? 0) && _); [|now repeat split].
  destruct (oldest _) as [s|]; [|now repeat split].
  cbn [snd]. repeat split. intros q. apply remove_row_In.
Qed.

(** What [createSession] does when nothing is rejected. *)
Lemma createSession_runs cfg pid uid h tl w :
  db_faults w = [] ->
  createSession cfg pid uid h tl w
  = (Ok (find (fun s => id s =? next_session_id w)
              (sessions (room_made cfg uid w)
               ++ [new_row cfg pid uid h tl w])),
     set_next_session_id
       (set_sessions (room_made cfg uid w)
          (sessions (room_made cfg uid w) ++ [new_row cfg pid uid h tl w]))
       (next_session_id w + 1)).
Proof.
  intros Hf.
  unfold createSession, room_made, new_row, active_count, delete_oldest,
    findById, bind, statement, now, ret.
  destruct (negb (uid =? 0)); cbn [andb];
    repeat (cbn beta iota delta [fst snd db_faults sessions next_session_id
                                 clock set_sessions set_next_session_id];
            rewrite ?Hf);
    [destruct (maxPerUser cfg <=? _); [destruct (oldest _)|]|];
    repeat (cbn beta iota delta [fst snd db_faults sessions next_session_id
                                 clock set_sessions set_next_session_id];
            rewrite ?Hf);
    reflexivity.
Qed.





(** *** Matching *)

(** What [findMatchingSession] does when nothing is rejected. *)
Lemma findMatchingSession_runs u h tl w :
  db_faults w = [] ->
  findMatchingSession u h tl w
  = match newest (filter (exact_row w u h tl) (sessions w)) with
    | Some s => (Ok (Some s, exact), w)
    | None =>
        match newest (filter (head_row w u h) (sessions w)) with
        | Some s =>
            (Ok (Some s, head),
             set_sessions w
               (map (fun x => if id x =? id s
                              then set_tail tl (clock w) x else x)
                    (sessions w)))
        | None => (Ok (None, none), w)
        end
    end.
Proof.
  intros Hf.
  unfold findMatchingSession, Session.update, update_rows, bind, statement,
    now, ret.
  rewrite Hf. cbn beta iota delta [fst snd].
  destruct (newest (filter (exact_row w u h tl) (sessions w))); [reflexivity|].
  rewrite Hf. cbn beta iota delta [fst snd].
  destruct (newest (filter (head_row w u h) (sessions w))); [|reflexivity].
  cbn beta iota delta [fst snd]. rewrite Hf. reflexivity.
Qed.

(** What [matchOrCreate] does with a request that has a user message. *)
Lemma matchOrCreate_runs cfg u pid ms w :
  (1 <= List.length (filter Hash.is_user ms))%nat ->
  SessionMatcher.matchOrCreate cfg u pid (SessionMatcher.CMessages ms) w
  = match findMatchingSession u
            (Hash.headHash (Hash.generateSessionHashes [] (Some ms)))
            (Hash.tailHash (Hash.generateSessionHashes [] (Some ms))) w with
    | (Ok (Some s, mt), w1) => (Ok (s, false, mt), w1)
    | (Ok (None, _), w1) =>
        if pid =? 0
        then (Throw (str "Provider ID required for new session"), w1)
        else
          match createSession cfg pid u
                  (Hash.headHash (Hash.generateSessionHashes [] (Some ms)))
                  (Hash.tailHash (Hash.generateSessionHashes [] (Some ms)))
                  w1 with
          | (Ok (Some s), w2) => (Ok (s, true, new), w2)
          | (Ok None, w2) =>
              (Throw (str "Cannot read properties of null (reading 'id')"),
               w2)
          | (Throw e, w2) => (Throw e, w2)
          end
    | (Throw e, w1) => (Throw e, w1)
    end.
Proof.
  intros Hn. unfold SessionMatcher.matchOrCreate,
    SessionMatcher.generateSessionHashes, SessionMatcher.messages_length.
  destruct (filter Hash.is_user ms) as [|m0 rest] eqn:Hu; [cbn in Hn; lia|].
  unfold bind at 1. cbn [ret]. unfold bind at 1. cbn [ret]. unfold bind at 1.
  destruct (findMatchingSession _ _ _ w) as [[[[s|] mt]|e] w1];
    [reflexivity | | reflexivity].
  destruct (pid =? 0); [reflexivity|].
  unfold bind.
  destruct (createSession _ _ _ _ _ w1) as [[[s|]|e] w2]; reflexivity.
Qed.

Lemma newest_none (rows : list t) : newest rows = None -> rows = [].
Proof.
  intros H. destruct rows as [|r rows]; [reflexivity|].
  destruct (SessionFacts.newest_of_nonempty (r :: rows)) as [s Hs];
    [discriminate | congruence].
Qed.

Lemma filter_none_In {A} (f : A -> bool) (l : list A) :
  filter f l = [] -> forall a, In a l -> f a = false.
Proof.
  intros H a Ha. destruct (f a) eqn:E; [|reflexivity].
  exfalso. apply (SessionFacts.filter_nonempty f l a Ha E H).
Qed.

(** The store right after a session was created for a request. *)
Lemma created_store cfg u pid ms w s w1 :
  db_faults w = [] -> ids_assigned w ->
  (1 <= List.length (filter Hash.is_user ms))%nat ->
  SessionMatcher.matchOrCreate cfg u pid (SessionMatcher.CMessages ms) w
  = (Ok (s, true, new), w1) ->
  s = new_row cfg pid u
        (Hash.headHash (Hash.generateSessionHashes [] (Some ms)))
        (Hash.tailHash (Hash.generateSessionHashes [] (Some ms))) w
  /\ db_faults w1 = [] /\ providers w1 = providers w /\ clock w1 = clock w
  /\ (exists l, sessions w1 = l ++ [s]
                /\ (forall q, In q l -> In q (sessions w))
                /\ (forall q, In q l -> id q <> id s))
  /\ (forall q, In q (sessions w) ->
        head_row w u
          (Hash.headHash (Hash.generateSessionHashes [] (Some ms))) q = false).
Proof.
  intros Hf [Hnodup Hfresh] Hn H.
  rewrite (matchOrCreate_runs cfg u pid ms w Hn) in H.
  rewrite (findMatchingSession_runs _ _ _ w Hf) in H.
  destruct (newest (filter (exact_row w u _ _) (sessions w))) eqn:Hex;
    [discriminate|].
  destruct (newest (filter (head_row w u _) (sessions w))) eqn:Hhd;
    [discriminate|].
  destruct (pid =? 0); [discriminate|].
  rewrite (createSession_runs cfg pid u _ _ w Hf) in H.
  destruct (room_made_frame cfg u w) as (Hp & Hnx & Hc & Hfm & _ & Hsub).
  rewrite Forall_forall in Hfresh.
  assert (Hfresh' : forall q, In q (sessions (room_made cfg u w)) ->
            id q <> id (new_row cfg pid u
              (Hash.headHash (Hash.generateSessionHashes [] (Some ms)))
              (Hash.tailHash (Hash.generateSessionHashes [] (Some ms))) w)).
  { intros q Hq. apply Hsub, Hfresh in Hq. cbn [new_row id]. lia. }
  change (next_session_id w)
    with (id (new_row cfg pid u
            (Hash.headHash (Hash.generateSessionHashes [] (Some ms)))
            (Hash.tailHash (Hash.generateSessionHashes [] (Some ms))) w))
    in H at 1.
  rewrite (find_new_row _ _ Hfresh') in H.
  injection H as <- <-.
  cbn [db_faults providers clock sessions set_sessions set_next_session_id].
  split; [reflexivity|]. split; [congruence|]. split; [exact Hp|].
  split; [exact Hc|]. split.
  - eexists. split; [reflexivity|]. split; assumption.
  - apply filter_none_In. now apply newest_none.
Qed.

Lemma head_row_frame w w1 u h q :
  providers w1 = providers w -> head_row w1 u h q = head_row w u h q.
Proof.
  intros Hp. unfold head_row, provider_active. now rewrite Hp.
Qed.

Lemma exact_row_frame w w1 u h tl q :
  providers w1 = providers w -> exact_row w1 u h tl q = exact_row w u h tl q.
Proof.
  intros Hp. unfold exact_row, provider_active. now rewrite Hp.
Qed.

Lemma exact_needs_head w u h tl q :
  head_row w u h q = false -> exact_row w u h tl q = false.
Proof.
  intros H. destruct (exact_row w u h tl q) eqn:E; [|reflexivity].
  apply SessionFacts.exact_is_head in E. congruence.
Qed.

Lemma jstring_eqb_refl a : Hash.jstring_eqb a a = true.
Proof. now apply HashFacts.jstring_eqb_eq. Qed.

(** X23. A conversation that was given a new session is recognised the
    next time: when [matchOrCreate] has created a session for a request
    with at least one user message on a provider that is active, the
    same request of the same user is matched exactly to that session and
    the store is not changed, whichever provider is offered. *)
Theorem created_session_is_matched_next_time :
  forall (cfg : config) (userId providerId providerId' : Z)
         (messages : list Hash.message) (w w1 : world) (s : t),
    db_faults w = [] ->
    ids_assigned w ->
    (1 <= List.length (filter Hash.is_user messages))%nat ->
    provider_active w providerId = true ->
    SessionMatcher.matchOrCreate cfg userId providerId
      (SessionMatcher.CMessages messages) w
    = (Ok (s, true, new), w1) ->
    SessionMatcher.matchOrCreate cfg userId providerId'
      (SessionMatcher.CMessages messages) w1
    = (Ok (s, false, exact), w1).
Proof.
  intros cfg u pid pid' ms w w1 s Hf Hids Hn Hact H.
  destruct (created_store cfg u pid ms w s w1 Hf Hids Hn H)
    as (Hs & Hf1 & Hp1 & _ & (l & Hl & Hsub & _) & Hnone).
  rewrite (matchOrCreate_runs cfg u pid' ms w1 Hn).
  rewrite (findMatchingSession_runs _ _ _ w1 Hf1).
  assert (Hfilter :
    filter (exact_row w1 u
              (Hash.headHash (Hash.generateSessionHashes [] (Some ms)))
              (Hash.tailHash (Hash.generateSessionHashes [] (Some ms))))
           (sessions w1) = [s]).
  { rewrite Hl, filter_app.
    rewrite (SessionFacts.filter_all_false _ l).
    - cbn [filter app].
      replace (exact_row w1 u _ _ s) with true; [reflexivity|].
      symmetry. rewrite (exact_row_frame w w1) by exact Hp1.
      subst s. unfold exact_row, user_is, new_row. cbn.
      now rewrite Z.eqb_refl, !jstring_eqb_refl, Hact.
    - intros q Hq. rewrite (exact_row_frame w w1) by exact Hp1.
      apply exact_needs_head, Hnone, Hsub, Hq. }
  rewrite Hfilter. reflexivity.
Qed.

Lemma created_session_is_matched_next_time_witness :
  SessionMatcher.matchOrCreate default_config 7 1
    (SessionMatcher.CMessages [RequestExecutor.hello])
    (ProviderScheduler.world_of [ProviderScheduler.healthy_provider 1])
  = (Ok (first_session [RequestExecutor.hello], true, new),
     store_after_first [RequestExecutor.hello])
  /\ SessionMatcher.matchOrCreate default_config 7 2
       (SessionMatcher.CMessages [RequestExecutor.hello])
       (store_after_first [RequestExecutor.hello])
     = (Ok (first_session [RequestExecutor.hello], false, exact),
        store_after_first [RequestExecutor.hello]).
Proof.
  assert (Hrun : SessionMatcher.matchOrCreate default_config 7 1
                   (SessionMatcher.CMessages [RequestExecutor.hello])
                   (ProviderScheduler.world_of
                      [ProviderScheduler.healthy_provider 1])
                 = (Ok (first_session [RequestExecutor.hello], true, new),
                    store_after_first [RequestExecutor.hello]))
    by (vm_compute; reflexivity).
  assert (Hids : ids_assigned
                   (ProviderScheduler.world_of
                      [ProviderScheduler.healthy_provider 1]))
    by (split; constructor).
  assert (Hn : (1 <= List.length
                      (filter Hash.is_user [RequestExecutor.hello]))%nat)
    by (vm_compute; lia).
  exact (conj Hrun
           (created_session_is_matched_next_time default_config 7 1 2
              [RequestExecutor.hello]
              (ProviderScheduler.world_of
                 [ProviderScheduler.healthy_provider 1])
              (store_after_first [RequestExecutor.hello])
              (first_session [RequestExecutor.hello])
              eq_refl Hids Hn eq_refl Hrun)).
Defined.

Lemma find_session_map (target : Z) (g : t -> t) (l : list t) :
  (forall q, id (g q) = id q) ->
  find (fun q => id q =? target) (map g l)
  = option_map g (find (fun q => id q =? target) l).
Proof.
  intros Hid. induction l as [|q l IH]; [reflexivity|].
  cbn [map find]. rewrite Hid. destruct (id q =? target); [reflexivity|].
  exact IH.
Qed.

(** X24. A conversation keeps its session as it grows: when
    [matchOrCreate] has created a session for a request with at least
    five user messages on a provider that is active, the same
    conversation with further messages appended is matched to that
    session, by its head hash or exactly, and no session is created;
    afterwards the stored session carries the tail hash of the longer
    conversation. *)
Theorem grown_conversation_keeps_its_session :
  forall (cfg : config) (userId providerId providerId' : Z)
         (messages more : list Hash.message) (w w1 : world) (s : t),
    db_faults w = [] ->
    ids_assigned w ->
    (5 <= List.length (filter Hash.is_user messages))%nat ->
    provider_active w providerId = true ->
    SessionMatcher.matchOrCreate cfg userId providerId
      (SessionMatcher.CMessages messages) w
    = (Ok (s, true, new), w1) ->
    exists (mt : match_type) (w2 : world) (s' : t),
      SessionMatcher.matchOrCreate cfg userId providerId'
        (SessionMatcher.CMessages (messages ++ more)) w1
      = (Ok (s, false, mt), w2)
      /\ (mt = exact \/ mt = head)
      /\ List.length (sessions w2) = List.length (sessions w1)
      /\ find (fun q => id q =? id s) (sessions w2) = Some s'
      /\ context_hash_head s' = context_hash_head s
      /\ context_hash_tail s'
         = Hash.tailHash
             (Hash.generateSessionHashes [] (Some (messages ++ more))).
Proof.
  intros cfg u pid pid' ms more w w1 s Hf Hids H5 Hact H.
  assert (Hn : (1 <= List.length (filter Hash.is_user ms))%nat) by lia.
  assert (Hn' : (1 <= List.length (filter Hash.is_user (ms ++ more)))%nat)
    by (rewrite filter_app, length_app; lia).
  destruct (created_store cfg u pid ms w s w1 Hf Hids Hn H)
    as (Hs & Hf1 & Hp1 & _ & (l & Hl & Hsub & Hfresh) & Hnone).
  assert (Hhead : Hash.headHash
                    (Hash.generateSessionHashes [] (Some (ms ++ more)))
                  = Hash.headHash (Hash.generateSessionHashes [] (Some ms))).
  { rewrite !AnchorFacts.hashes_of_users by assumption.
    cbn [Hash.headHash]. rewrite filter_app.
    now rewrite AnchorFacts.slice_first5_app. }
  rewrite (matchOrCreate_runs cfg u pid' (ms ++ more) w1 Hn').
  rewrite (findMatchingSession_runs _ _ _ w1 Hf1).
  rewrite Hhead.
  set (h := Hash.headHash (Hash.generateSessionHashes [] (Some ms))) in *.
  set (tl' := Hash.tailHash
                (Hash.generateSessionHashes [] (Some (ms ++ more)))) in *.
  assert (Hold : forall q, In q l -> head_row w1 u h q = false).
  { intros q Hq. rewrite (head_row_frame w w1) by exact Hp1.
    apply Hnone, Hsub, Hq. }
  assert (Hnew : head_row w1 u h s = true).
  { rewrite (head_row_frame w w1) by exact Hp1.
    subst s. unfold head_row, user_is, new_row. cbn.
    now rewrite Z.eqb_refl, jstring_eqb_refl, Hact. }
  assert (Hheads : filter (head_row w1 u h) (sessions w1) = [s]).
  { rewrite Hl, filter_app, (SessionFacts.filter_all_false _ l Hold).
    cbn [filter app]. now rewrite Hnew. }
  assert (Hfind : find (fun q => id q =? id s) (sessions w1) = Some s)
    by (rewrite Hl; now apply find_new_row).
  destruct (exact_row w1 u h tl' s) eqn:Hex.
  - assert (Hexacts : filter (exact_row w1 u h tl') (sessions w1) = [s]).
    { rewrite Hl, filter_app, (SessionFacts.filter_all_false _ l).
      - cbn [filter app]. now rewrite Hex.
      - intros q Hq. now apply exact_needs_head, Hold. }
    rewrite Hexacts. cbn [newest fold_left newer].
    exists exact, w1, s. repeat split; try assumption; [now left|].
    unfold exact_row in Hex. rewrite !andb_true_iff in Hex.
    destruct Hex as [[[[_ _] Ht] _] _].
    now apply HashFacts.jstring_eqb_eq in Ht.
  - assert (Hexacts : filter (exact_row w1 u h tl') (sessions w1) = []).
    { rewrite Hl, filter_app, (SessionFacts.filter_all_false _ l).
      - cbn [filter app]. now rewrite Hex.
      - intros q Hq. now apply exact_needs_head, Hold. }
    rewrite Hexacts, Hheads. cbn [newest fold_left newer].
    exists head. eexists. exists (set_tail tl' (clock w1) s).
    split; [reflexivity|]. split; [now right|].
    cbn [sessions set_sessions]. split; [apply length_map|].
    split.
    + rewrite find_session_map
        by (intros q; destruct (id q =? id s); reflexivity).
      rewrite Hfind. cbn [option_map]. now rewrite Z.eqb_refl.
    + split; reflexivity.
Qed.

Lemma grown_conversation_keeps_its_session_witness :
  SessionMatcher.matchOrCreate default_config 7 1
    (SessionMatcher.CMessages Conversation.five_turns)
    (ProviderScheduler.world_of [ProviderScheduler.healthy_provider 1])
  = (Ok (first_session Conversation.five_turns, true, new),
     store_after_first Conversation.five_turns)
  /\ exists (mt : match_type) (w2 : world),
       SessionMatcher.matchOrCreate default_config 7 1
         (SessionMatcher.CMessages
            (Conversation.five_turns ++ [Conversation.user_text "six"]))
         (store_after_first Conversation.five_turns)
       = (Ok (first_session Conversation.five_turns, false, mt), w2).
Proof.
  assert (Hrun : SessionMatcher.matchOrCreate default_config 7 1
                   (SessionMatcher.CMessages Conversation.five_turns)
                   (ProviderScheduler.world_of
                      [ProviderScheduler.healthy_provider 1])
                 = (Ok (first_session Conversation.five_turns, true, new),
                    store_after_first Conversation.five_turns))
    by (vm_compute; reflexivity).
  assert (Hids : ids_assigned
                   (ProviderScheduler.world_of
                      [ProviderScheduler.healthy_provider 1]))
    by (split; constructor).
  assert (Hn : (5 <= List.length
                      (filter Hash.is_user Conversation.five_turns))%nat)
    by (vm_compute; lia).
  split; [exact Hrun|].
  destruct (grown_conversation_keeps_its_session default_config 7 1 1
              Conversation.five_turns [Conversation.user_text "six"]
              (ProviderScheduler.world_of
                 [ProviderScheduler.healthy_provider 1])
              (store_after_first Conversation.five_turns)
              (first_session Conversation.five_turns)
              eq_refl Hids Hn eq_refl Hrun)
    as (mt & w2 & s' & Hsecond & _).
  exists mt, w2. exact Hsecond.
Defined.

(** *** Upkeep *)

Lemma stale_iff stamp s :
  stale stamp s = false
  <-> status s = active
      /\ (forall e, expires_at s = Some e -> stamp <= e).
Proof.
  unfold stale. rewrite !orb_false_iff. split.
  - intros [[He Hx] Hm]. split.
    + destruct (status s); [reflexivity | discriminate | discriminate].
    + intros e Hs. rewrite Hs in He. now apply Z.ltb_ge in He.
  - intros [Hs He]. rewrite Hs. repeat split.
    destruct (expires_at s) as [e|]; [|reflexivity].
    apply Z.ltb_ge. now apply He.
Qed.

Lemma cleanup_runs w :
  db_faults w = [] ->
  cleanupExpired w
  = (Ok (Z.of_nat (List.length (filter (stale (clock w)) (sessions w)))),
     set_sessions w
       (filter (fun s => negb (stale (clock w) s)) (sessions w))).
Proof.
  intros Hf. unfold cleanupExpired. now rewrite (statement_runs _ w Hf).
Qed.

Lemma filter_split_length {A} (f : A -> bool) (l : list A) :
  (List.length (filter f l)
   + List.length (filter (fun a => negb (f a)) l))%nat = List.length l.
Proof.
  induction l as [|a l IH]; [reflexivity|].
  cbn [filter]. destruct (f a); cbn [negb Datatypes.length]; lia.
Qed.

(** X25. With nothing rejected, a cleanup run deletes exactly the sessions
    that are past their expiry or marked expired or migrated: a session
    is in the table afterwards if and only if it was there before, is
    active and has no expiry before the current time; the sessions that
    remain keep their order, and the number returned is the number of
    sessions deleted. *)
Theorem cleanupExpired_deletes_exactly_the_stale :
  forall (w : world),
    db_faults w = [] ->
    fst (cleanupExpired w)
    = Ok (Z.of_nat (List.length (sessions w))
          - Z.of_nat (List.length (sessions (snd (cleanupExpired w)))))
    /\ (forall s, In s (sessions (snd (cleanupExpired w)))
                  <-> In s (sessions w) /\ status s = active
                      /\ (forall e, expires_at s = Some e -> clock w <= e))
    /\ (exists keep, sessions (snd (cleanupExpired w))
                     = filter keep (sessions w)).
Proof.
  intros w Hf. rewrite (cleanup_runs w Hf).
  cbn [fst snd sessions set_sessions]. split; [|split].
  - f_equal.
    pose proof (filter_split_length (stale (clock w)) (sessions w)). lia.
  - intros s. rewrite filter_In, negb_true_iff, stale_iff. tauto.
  - eexists. reflexivity.
Qed.

Lemma cleanupExpired_deletes_exactly_the_stale_witness :
  db_faults (at_time 1700003600001 full_store) = []
  /\ fst (cleanupExpired (at_time 1700003600001 full_store))
     = Ok (Z.of_nat (List.length (sessions (at_time 1700003600001 full_store)))
           - Z.of_nat (List.length
                         (sessions
                            (snd (cleanupExpired
                                    (at_time 1700003600001 full_store)))))).
Proof.
  exact (conj eq_refl
           (proj1 (cleanupExpired_deletes_exactly_the_stale
                     (at_time 1700003600001 full_store) eq_refl))).
Defined.

(** X26. Recording a message keeps a session alive: with nothing
    rejected, after [recordMessage] at time t on an active session, a
    cleanup run at any time up to t plus the session lifetime keeps the
    session, with one more message counted. *)
Theorem recorded_session_survives_cleanup :
  forall (cfg : config) (w : world) (sessionId later : Z) (s : t),
    db_faults w = [] ->
    find (fun q => id q =? sessionId) (sessions w) = Some s ->
    status s = active ->
    later <= clock w + session_ttl cfg ->
    exists s',
      In s' (sessions
               (snd (cleanupExpired
                       (at_time later
                          (snd (SessionMatcher.recordMessage cfg sessionId w))))))
      /\ id s' = sessionId
      /\ message_count s' = message_count s + 1
      /\ expires_at s' = Some (clock w + session_ttl cfg)
      /\ last_accessed_at s' = clock w.
Proof.
  intros cfg w sid later s Hf Hfind Hact Hlater.
  unfold SessionMatcher.recordMessage, incrementMessageCount.
  rewrite (bind_ok _ _ _ _ _ (statement_runs _ w Hf)).
  cbn [fst snd ret update_rows].
  rewrite cleanup_runs by exact Hf.
  cbn [snd sessions set_sessions at_time clock].
  apply find_some in Hfind as [Hin Hid].
  eexists. split.
  - apply filter_In. split.
    + apply in_map_iff. exists s. split; [|exact Hin]. rewrite Hid. reflexivity.
    + apply negb_true_iff, stale_iff. cbn [status expires_at]. split; [exact Hact|].
      intros e [= <-]. exact Hlater.
  - cbn. apply Z.eqb_eq in Hid. repeat split. exact Hid.
Qed.

Lemma recorded_session_survives_cleanup_witness :
  db_faults full_store = []
  /\ exists s',
       In s' (sessions
                (snd (cleanupExpired
                        (at_time 1700003600000
                           (snd (SessionMatcher.recordMessage default_config 1
                                   full_store))))))
       /\ id s' = 1 /\ message_count s' = 2.
Proof.
  split; [reflexivity|].
  destruct (recorded_session_survives_cleanup default_config full_store 1
              1700003600000 (session_of 1 (str "tail-a") 100)
              eq_refl eq_refl eq_refl)
    as (s' & Hin & Hid & Hcount & _).
  { cbn. lia. }
  exists s'. repeat split; assumption.
Defined.

Lemma find_remove_other (target i : Z) (l : list t) :
  i <> target ->
  find (fun q => id q =? target) (remove_row i l)
  = find (fun q => id q =? target) l.
Proof.
  intros Hne. induction l as [|x l IH]; [reflexivity|].
  cbn [remove_row find]. destruct (id x =? i) eqn:Ei.
  - apply Z.eqb_eq in Ei.
    assert (Hx : (id x =? target) = false) by (apply Z.eqb_neq; lia).
    now rewrite Hx.
  - cbn [find]. destruct (id x =? target); [reflexivity | exact IH].
Qed.

Lemma find_app_found (target : Z) (l more : list t) (s : t) :
  find (fun q => id q =? target) l = Some s ->
  find (fun q => id q =? target) (l ++ more) = Some s.
Proof.
  induction l as [|x l IH]; cbn [app find]; [discriminate|].
  destruct (id x =? target); [trivial | exact IH].
Qed.

(** X27. Migration moves a conversation to another provider: with nothing
    rejected, session ids as the database assigns them and a session
    that belongs to a user, [migrateToProvider] marks the old session as
    migrated, keeps it in the table, and returns a new active session on
    the new provider with the same user and the same head and tail
    hashes, a fresh expiry, no message counted and no upstream session. *)
Theorem migrateToProvider_moves_the_conversation :
  forall (cfg : config) (w : world) (sessionId newProviderId userId : Z)
         (old : t),
    db_faults w = [] ->
    ids_assigned w ->
    find (fun q => id q =? sessionId) (sessions w) = Some old ->
    user_id old = Some userId ->
    fst (migrateToProvider cfg sessionId newProviderId w)
    = Ok (Some (mk (next_session_id w) newProviderId (Some userId)
                   (context_hash_head old) (context_hash_tail old) None 0
                   active (Some (clock w + session_ttl cfg)) (clock w)))
    /\ In (mk (next_session_id w) newProviderId (Some userId)
              (context_hash_head old) (context_hash_tail old) None 0
              active (Some (clock w + session_ttl cfg)) (clock w))
          (sessions (snd (migrateToProvider cfg sessionId newProviderId w)))
    /\ find (fun q => id q =? sessionId)
            (sessions (snd (migrateToProvider cfg sessionId newProviderId w)))
       = Some (set_status migrated old).
Proof.
  intros cfg w sid pid uid old Hf [Hnodup Hfresh] Hfind Huser.
  unfold migrateToProvider, Session.update.
  rewrite (bind_ok _ _ _ _ _
             (bind_ok _ _ _ _ _ (statement_runs _ w Hf))).
  cbn [fst snd ret update_rows].
  set (w1 := set_sessions w _).
  assert (Hf1 : db_faults w1 = []) by exact Hf.
  assert (Hfind1 : find (fun q => id q =? sid) (sessions w1)
                   = Some (set_status migrated old)).
  { subst w1. cbn [sessions set_sessions].
    rewrite find_session_map
      by (intros q; destruct (id q =? sid); reflexivity).
    rewrite Hfind. cbn [option_map].
    apply find_some in Hfind as [_ Hid]. now rewrite Hid. }
  unfold findById.
  rewrite (bind_ok _ _ _ _ _ (statement_runs _ w1 Hf1)).
  cbn [fst snd]. rewrite Hfind1.
  cbn [user_id set_status context_hash_head context_hash_tail].
  rewrite Huser.
  rewrite (createSession_runs cfg pid uid _ _ w1 Hf1).
  cbn [fst snd sessions set_sessions set_next_session_id].
  destruct (room_made_frame cfg uid w1) as (_ & _ & _ & _ & _ & Hsub).
  rewrite Forall_forall in Hfresh.
  assert (Hids1 : forall q, In q (sessions w1) -> id q < next_session_id w).
  { intros q Hq. subst w1. cbn [sessions set_sessions] in Hq.
    apply in_map_iff in Hq as (x & <- & Hx). apply Hfresh in Hx.
    destruct (id x =? sid); exact Hx. }
  assert (Hnew : forall q, In q (sessions (room_made cfg uid w1)) ->
            id q <> id (new_row cfg pid uid (context_hash_head old)
                          (context_hash_tail old) w1)).
  { intros q Hq. apply Hsub, Hids1 in Hq. cbn [new_row id]. subst w1.
    cbn [next_session_id set_sessions]. lia. }
  change (next_session_id w1)
    with (id (new_row cfg pid uid (context_hash_head old)
                (context_hash_tail old) w1)).
  rewrite (find_new_row _ _ Hnew).
  split; [reflexivity|]. split; [apply in_or_app; right; now left|].
  apply find_app_found.
  unfold room_made, delete_oldest.
  destruct (negb (uid =? 0) && _); [|exact Hfind1].
  destruct (oldest _) as [d|] eqn:Hd; [|exact Hfind1].
  cbn [snd sessions set_sessions].
  rewrite find_remove_other; [exact Hfind1|].
  apply oldest_some in Hd as [Hd _]. apply filter_In in Hd as [Hdin Hdact].
  intros Heq.
  assert (Hnodup1 : NoDup (map id (sessions w1))).
  { subst w1. cbn [sessions set_sessions]. rewrite map_map.
    erewrite map_ext; [exact Hnodup|].
    intros q. cbn. destruct (id q =? sid); reflexivity. }
  apply find_some in Hfind1 as [Hin1 Hid1]. apply Z.eqb_eq in Hid1.
  assert (d = set_status migrated old)
    by (apply (same_id_same_session _ _ _ Hnodup1 Hin1 Hdin); congruence).
  subst d. unfold active_of in Hdact. cbn in Hdact.
  rewrite andb_false_r in Hdact. discriminate.
Qed.

Lemma migrateToProvider_moves_the_conversation_witness :
  db_faults full_store = []
  /\ find (fun q => id q =? 1)
          (sessions (snd (migrateToProvider default_config 1 9 full_store)))
     = Some (set_status migrated (session_of 1 (str "tail-a") 100)).
Proof.
  assert (Hids : ids_assigned full_store).
  { split.
    - cbn. repeat constructor; cbn; intuition discriminate.
    - cbn. repeat constructor; cbn; lia. }
  exact (conj eq_refl
           (proj2 (proj2
              (migrateToProvider_moves_the_conversation default_config
                 full_store 1 9 7 (session_of 1 (str "tail-a") 100)
                 eq_refl Hids eq_refl eq_refl)))).
Defined.

End SessionMoreFacts.

(** ** Streaming and the one-piece answer agree *)

Module StreamingFacts.
Import RequestExecutor Streaming.

Lemma plain_texts_app a b : plain_texts (a ++ b) = plain_texts a ++ plain_texts b.
Proof. unfold plain_texts. now rewrite filter_app, map_app. Qed.

Lemma thought_texts_app a b :
  thought_texts (a ++ b) = thought_texts a ++ thought_texts b.
Proof. unfold thought_texts. now rewrite filter_app, map_app. Qed.

Lemma truthy_or_empty t : truthy t = true -> Some (or_empty t) = t.
Proof. destruct t as [[|c t]|]; try discriminate. reflexivity. Qed.

(** *** What [parseResponse] collects *)

Lemma parse_reply_collects reply acc :
  content (parse_reply acc reply)
  = content acc ++ concat (plain_texts (push_reply reply))
  /\ filter truthy (thoughts (parse_reply acc reply))
     = filter truthy (thoughts acc)
       ++ map Some (thought_texts (push_reply reply)).
Proof.
  unfold parse_reply, push_reply, plain_texts, thought_texts.
  destruct reply as [c|]; [|cbn; now rewrite !app_nil_r].
  destruct (thought c) eqn:Ht; destruct (truthy (text c)) eqn:Etext;
    cbn [content thoughts filter map concat negb pushed_thought pushed_text app];
    rewrite ?filter_app; cbn [filter]; rewrite ?Etext, ?app_nil_r;
    rewrite ?truthy_or_empty by assumption; split; reflexivity.
Qed.

Lemma parse_replies_collect rs : forall acc,
  content (fold_left parse_reply rs acc)
  = content acc ++ concat (plain_texts (flat_map push_reply rs))
  /\ filter truthy (thoughts (fold_left parse_reply rs acc))
     = filter truthy (thoughts acc)
       ++ map Some (thought_texts (flat_map push_reply rs)).
Proof.
  induction rs as [|r rs IH]; intros acc; cbn [fold_left flat_map].
  - cbn. now rewrite !app_nil_r.
  - destruct (IH (parse_reply acc r)) as [Hc Ht].
    destruct (parse_reply_collects r acc) as [Hc1 Ht1].
    rewrite Hc, Ht, Hc1, Ht1, plain_texts_app, thought_texts_app,
      concat_app, map_app, <- !app_assoc.
    split; reflexivity.
Qed.

Lemma parse_chunk_collects c acc :
  content (parse_chunk acc c)
  = content acc ++ concat (plain_texts (_extractAndPushContent c))
  /\ filter truthy (thoughts (parse_chunk acc c))
     = filter truthy (thoughts acc)
       ++ map Some (thought_texts (_extractAndPushContent c)).
Proof.
  unfold parse_chunk, _extractAndPushContent.
  destruct (streamAssistResponse c) as [response|];
    [|cbn; now rewrite !app_nil_r].
  destruct (answer response) as [a|]; [|cbn; now rewrite !app_nil_r].
  destruct (replies a) as [rs|].
  - match goal with
    | |- context [fold_left parse_reply rs ?acc'] =>
        destruct (parse_replies_collect rs acc') as [Hc Ht]
    end.
    rewrite Hc, Ht.
    destruct (truthy (state a)); destruct (truthy (sessionInfo response));
      split; reflexivity.
  - destruct (truthy (state a)); destruct (truthy (sessionInfo response));
      cbn; now rewrite !app_nil_r.
Qed.

Lemma parse_chunks_collect cs : forall acc,
  content (fold_left parse_chunk cs acc)
  = content acc ++ concat (plain_texts (flat_map _extractAndPushContent cs))
  /\ filter truthy (thoughts (fold_left parse_chunk cs acc))
     = filter truthy (thoughts acc)
       ++ map Some (thought_texts (flat_map _extractAndPushContent cs)).
Proof.
  induction cs as [|c cs IH]; intros acc; cbn [fold_left flat_map].
  - cbn. now rewrite !app_nil_r.
  - destruct (IH (parse_chunk acc c)) as [Hc Ht].
    destruct (parse_chunk_collects c acc) as [Hc1 Ht1].
    rewrite Hc, Ht, Hc1, Ht1, plain_texts_app, thought_texts_app,
      concat_app, map_app, <- !app_assoc.
    split; reflexivity.
Qed.

(** *** What the handler collects and passes on *)

Lemma texts_of_app a b : texts_of (a ++ b) = texts_of a ++ texts_of b.
Proof. unfold texts_of. apply flat_map_app. Qed.

Lemma thoughts_of_app a b : thoughts_of (a ++ b) = thoughts_of a ++ thoughts_of b.
Proof. unfold thoughts_of. apply flat_map_app. Qed.

Lemma feed_step include acc p :
  fullContent (fst (feed include acc p))
  = fullContent (fst acc) ++ concat (plain_texts [p])
  /\ concat (texts_of (snd (feed include acc p)))
     = concat (texts_of (snd acc)) ++ concat (plain_texts [p])
  /\ thoughtContent (fst (feed include acc p))
     = thoughtContent (fst acc)
       ++ (if include then concat (thought_texts [p]) else [])
  /\ thoughts_of (snd (feed include acc p))
     = thoughts_of (snd acc)
       ++ (if include then map Some (thought_texts [p]) else [])
  /\ (forall e, In e (snd (feed include acc p)) ->
        In e (snd acc)
        \/ (emitted_finish e = None /\ emitted_usage e = None)).
Proof.
  destruct acc as [st outs]. destruct p as [[|c t] [|]]; destruct include;
    unfold feed, streamChunkHandler, plain_texts, thought_texts;
    cbn [fst snd pushed_thought pushed_text andb negb truthy filter map concat
         fullContent thoughtContent];
    rewrite ?texts_of_app, ?thoughts_of_app, ?concat_app, ?app_nil_r;
    cbn [texts_of thoughts_of flat_map emitted_parts app concat];
    rewrite ?app_nil_r;
    (split; [reflexivity|]); (split; [reflexivity|]);
    (split; [reflexivity|]); (split; [reflexivity|]);
    intros e He; try (now left);
    (apply in_app_or in He as [He | [<- | []]];
     [now left | right; split; reflexivity]).
Qed.

Lemma feed_collects include ps : forall acc,
  fullContent (fst (fold_left (feed include) ps acc))
  = fullContent (fst acc) ++ concat (plain_texts ps)
  /\ concat (texts_of (snd (fold_left (feed include) ps acc)))
     = concat (texts_of (snd acc)) ++ concat (plain_texts ps)
  /\ thoughtContent (fst (fold_left (feed include) ps acc))
     = thoughtContent (fst acc)
       ++ (if include then concat (thought_texts ps) else [])
  /\ thoughts_of (snd (fold_left (feed include) ps acc))
     = thoughts_of (snd acc)
       ++ (if include then map Some (thought_texts ps) else [])
  /\ (forall e, In e (snd (fold_left (feed include) ps acc)) ->
        In e (snd acc)
        \/ (emitted_finish e = None /\ emitted_usage e = None)).
Proof.
  induction ps as [|p ps IH]; intros acc; cbn [fold_left].
  - cbn. rewrite !app_nil_r. destruct include; rewrite ?app_nil_r;
      repeat split; auto.
  - destruct (IH (feed include acc p)) as (H1 & H2 & H3 & H4 & H5).
    destruct (feed_step include acc p) as (S1 & S2 & S3 & S4 & S5).
    rewrite H1, H2, H3, H4, S1, S2, S3, S4.
    change (p :: ps) with ([p] ++ ps).
    rewrite plain_texts_app, thought_texts_app, !concat_app, map_app.
    destruct include; rewrite <- ?app_assoc, ?app_nil_r;
      (split; [reflexivity|]); (split; [reflexivity|]);
      (split; [reflexivity|]); (split; [reflexivity|]);
      intros e He; destruct (H5 e He) as [Hin | Hnone]; auto.
Qed.

Lemma or_empty_some l : map or_empty (map Some l) = l.
Proof. rewrite map_map. apply map_id. Qed.

(** X28. A streaming client and a one-piece client get the same answer
    from the same upstream objects: the texts of the chunks written by
    the streaming handler, joined, are the content that [parseResponse]
    extracts; the thoughts written are the non-empty thoughts of
    [parseResponse] when thoughts are asked for and none otherwise; every
    chunk but the last has no finish reason and no usage; the last chunk
    finishes with STOP and reports the estimate of the query as prompt
    tokens and the estimates of that content and of the joined thoughts
    written as candidate tokens. *)
Theorem streamed_text_is_the_parsed_content :
  forall (includeThoughts : bool) (query : jstring) (chunks : list chunk),
    concat (texts_of (stream_chunks includeThoughts query chunks))
    = content (parseResponse chunks)
    /\ thoughts_of (stream_chunks includeThoughts query chunks)
       = (if includeThoughts
          then filter truthy (thoughts (parseResponse chunks)) else [])
    /\ (forall e,
          In e (removelast (stream_chunks includeThoughts query chunks)) ->
          emitted_finish e = None /\ emitted_usage e = None)
    /\ emitted_finish
         (last (stream_chunks includeThoughts query chunks)
               (mkEmitted [] None None)) = Some STOP
    /\ emitted_usage
         (last (stream_chunks includeThoughts query chunks)
               (mkEmitted [] None None))
       = Some (mkUsage
                 (_estimateTokens (Some query))
                 (_estimateTokens (Some (content (parseResponse chunks)))
                  + _estimateTokens
                      (Some (concat
                               (map or_empty
                                  (thoughts_of
                                     (stream_chunks includeThoughts query
                                        chunks))))))
                 (_estimateTokens (Some query)
                  + _estimateTokens (Some (content (parseResponse chunks)))
                  + _estimateTokens
                      (Some (concat
                               (map or_empty
                                  (thoughts_of
                                     (stream_chunks includeThoughts query
                                        chunks))))))).
Proof.
  intros include query chunks.
  unfold stream_chunks, streamed, parseResponse.
  destruct (feed_collects include (flat_map _extractAndPushContent chunks)
              (mkCollected [] [], []))
    as (H1 & H2 & H3 & H4 & H5).
  destruct (parse_chunks_collect chunks (mkParsed [] [] (str "UNKNOWN") None))
    as [P1 P2].
  cbn [fst snd fullContent thoughtContent content thoughts filter app
       texts_of thoughts_of flat_map concat] in H1, H2, H3, H4, H5, P1, P2.
  rewrite removelast_last, last_last, texts_of_app, thoughts_of_app,
    concat_app.
  cbn [texts_of thoughts_of flat_map final_chunk emitted_parts
       emitted_finish emitted_usage app concat].
  rewrite !app_nil_r, H2, H4, P1, P2.
  assert (Hthoughts :
    concat (map or_empty
              (if include
               then map Some
                      (thought_texts (flat_map _extractAndPushContent chunks))
               else []))
    = thoughtContent
        (fst (fold_left (feed include)
                (flat_map _extractAndPushContent chunks)
                (mkCollected [] [], [])))).
  { rewrite H3. destruct include; [now rewrite or_empty_some | reflexivity]. }
  split; [reflexivity|]. split; [now destruct include|].
  split.
  { intros e He. destruct (H5 e He) as [[] | Hnone]. exact Hnone. }
  split; [reflexivity|].
  now rewrite Hthoughts, H1.
Qed.

End StreamingFacts.

(** ** Token estimates *)

Module TokenFacts.
Import RequestExecutor.

Lemma ceiling_bounds (c o : Z) :
  0 <= c -> 0 <= o -> 1 <= c + o ->
  1 <= Qceiling (inject_Z c / (3 # 2) + inject_Z o / 4)%Q <= c + o.
Proof.
  intros Hc Ho Hn.
  assert (Hc' : (0 <= inject_Z c)%Q) by (rewrite <- (Zle_Qle 0); exact Hc).
  assert (Ho' : (0 <= inject_Z o)%Q) by (rewrite <- (Zle_Qle 0); exact Ho).
  assert (Hn' : (1 <= inject_Z c + inject_Z o)%Q).
  { rewrite <- inject_Z_plus. rewrite <- (Zle_Qle 1). exact Hn. }
  set (x := (inject_Z c / (3 # 2) + inject_Z o / 4)%Q).
  assert (Hpos : (0 < x)%Q)
    by (unfold x, Qdiv; cbn [Qinv Qnum Qden]; lra).
  assert (Hle : (x <= inject_Z (c + o))%Q)
    by (unfold x, Qdiv; cbn [Qinv Qnum Qden]; rewrite inject_Z_plus; lra).
  split.
  - pose proof (Qle_ceiling x) as H.
    assert (H0 : (0 < inject_Z (Qceiling x))%Q) by lra.
    rewrite <- (Zlt_Qlt 0) in H0. lia.
  - apply Qceiling_resp_le in Hle. now rewrite Qceiling_Z in Hle.
Qed.

Lemma ceiling_of_quarters (n : Z) :
  0 <= n ->
  Qceiling (inject_Z 0 / (3 # 2) + inject_Z n / 4)%Q = (n + 3) / 4.
Proof.
  intros Hn.
  set (x := (inject_Z 0 / (3 # 2) + inject_Z n / 4)%Q).
  pose proof (Qle_ceiling x) as Hup. pose proof (Qceiling_lt x) as Hlo.
  set (k := Qceiling x) in *.
  assert (H1 : (inject_Z n <= inject_Z (4 * k))%Q).
  { rewrite inject_Z_mult. unfold x, Qdiv in Hup; cbn [Qinv Qnum Qden] in Hup.
    change (inject_Z 4) with 4%Q. change (inject_Z 0) with 0%Q in Hup. lra. }
  assert (H2 : (inject_Z (4 * (k - 1)) < inject_Z n)%Q).
  { rewrite inject_Z_mult. unfold x, Qdiv in Hlo; cbn [Qinv Qnum Qden] in Hlo.
    change (inject_Z 4) with 4%Q. change (inject_Z 0) with 0%Q in Hlo. lra. }
  rewrite <- Zle_Qle in H1. rewrite <- Zlt_Qlt in H2.
  apply Z.div_unique with (r := n + 3 - 4 * k); lia.
Qed.

Lemma code_units_nonempty (text : jstring) :
  text <> [] -> (1 <= List.length (Utf16.code_units text))%nat.
Proof.
  destruct text as [|c text]; [congruence|]. intros _.
  unfold Utf16.code_units. cbn [map].
  assert (Hunits : forall cp rest,
            (1 <= List.length (flat_map Utf16.units_of (cp :: rest)))%nat).
  { intros cp rest. cbn [flat_map]. rewrite length_app.
    unfold Utf16.units_of.
    destruct (cp <? 0x10000); cbn [Datatypes.length]; lia. }
  cbn [Utf16.code_points].
  destruct (MD5.byte_of c <? 0x80); [apply Hunits|].
  destruct (MD5.byte_of c <? 0xE0).
  { destruct (map MD5.byte_of text) as [|b1 r]; apply Hunits. }
  destruct (MD5.byte_of c <? 0xF0).
  { destruct (map MD5.byte_of text) as [|b1 [|b2 r]]; apply Hunits. }
  destruct (map MD5.byte_of text) as [|b1 [|b2 [|b3 r]]]; apply Hunits.
Qed.

Lemma ascii_units (text : jstring) :
  Forall (fun c => (nat_of_ascii c < 128)%nat) text ->
  Utf16.code_units text = map MD5.byte_of text
  /\ filter is_chinese (map MD5.byte_of text) = [].
Proof.
  unfold Utf16.code_units.
  induction 1 as [|c text Hc _ [IH1 IH2]]; [split; reflexivity|].
  cbn [map Utf16.code_points].
  assert (Hb : 0 <= MD5.byte_of c < 128) by (unfold MD5.byte_of; lia).
  assert (H80 : (MD5.byte_of c <? 0x80) = true) by (apply Z.ltb_lt; lia).
  rewrite H80. cbn [flat_map]. rewrite IH1. split.
  - unfold Utf16.units_of.
    assert (H1 : (MD5.byte_of c <? 0x10000) = true) by (apply Z.ltb_lt; lia).
    now rewrite H1.
  - cbn [filter]. unfold is_chinese at 1.
    assert (H4 : (0x4e00 <=? MD5.byte_of c) = false) by (apply Z.leb_gt; lia).
    now rewrite H4.
Qed.

(** X29. The token estimate of no text and of the empty text is 0; the
    estimate of a non-empty text is at least 1 and at most its length in
    UTF-16 code units; and a text of n ASCII characters is estimated at
    n / 4 tokens, rounded up. *)
Theorem estimateTokens_bounds :
  forall (text : jstring),
    _estimateTokens None = 0
    /\ _estimateTokens (Some []) = 0
    /\ (text <> [] ->
        1 <= _estimateTokens (Some text)
          <= Z.of_nat (List.length (Utf16.code_units text)))
    /\ (Forall (fun c => (nat_of_ascii c < 128)%nat) text ->
        _estimateTokens (Some text) = (Z.of_nat (List.length text) + 3) / 4).
Proof.
  intros text. split; [reflexivity|]. split; [reflexivity|]. split.
  - intros Hne. pose proof (code_units_nonempty text Hne) as Hlen.
    unfold _estimateTokens. destruct text as [|c text]; [congruence|].
    cbn [truthy or_empty].
    set (units := Utf16.code_units (c :: text)) in *.
    pose proof (filter_length_le is_chinese units) as Hfilter.
    pose proof (ceiling_bounds
                  (Z.of_nat (List.length (filter is_chinese units)))
                  (Z.of_nat (List.length units)
                   - Z.of_nat (List.length (filter is_chinese units)))
                  ltac:(lia) ltac:(lia) ltac:(lia)) as H.
    lia.
  - intros Hascii. destruct (ascii_units text Hascii) as [Hunits Hnone].
    unfold _estimateTokens. destruct text as [|c text]; [reflexivity|].
    cbn [truthy or_empty]. rewrite Hunits, Hnone, length_map.
    cbn [Datatypes.length filter]. rewrite Z.sub_0_r.
    apply ceiling_of_quarters. lia.
Qed.

Lemma estimateTokens_bounds_witness :
  str "Hello" <> []
  /\ 1 <= _estimateTokens (Some (str "Hello"))
       <= Z.of_nat (List.length (Utf16.code_units (str "Hello"))).
Proof.
  assert (H : str "Hello" <> []) by discriminate.
  exact (conj H
           (proj1 (proj2 (proj2 (estimateTokens_bounds (str "Hello")))) H)).
Defined.

End TokenFacts.

(** ** One row of the request log for every request *)

Module LoggingFacts.
Import Db DbFacts RequestExecutor Logging.

Lemma silent_ret {A} (a : A) : silent (ret a).
Proof. intros w Hf. now split. Qed.

Lemma silent_throw {A} e : silent (@throw A e).
Proof. intros w Hf. now split. Qed.

Lemma silent_lift {A} (o : outcome A) : silent (lift o).
Proof. intros w Hf. now split. Qed.

Lemma silent_bind {A B} (c : M A) (k : A -> M B) :
  silent c -> (forall a, silent (k a)) -> silent (bind c k).
Proof.
  intros Hc Hk w Hf. unfold bind. specialize (Hc w Hf).
  destruct (c w) as [[a|e] w1]; simpl in *; [|exact Hc].
  destruct Hc as [Hf1 Hj1]. destruct (Hk a w1 Hf1) as [Hf2 Hj2].
  split; congruence.
Qed.

Lemma silent_try_catch {A} (c : M A) (h : error -> M A) :
  silent c -> (forall e, silent (h e)) -> silent (try_catch c h).
Proof.
  intros Hc Hh w Hf. unfold try_catch. specialize (Hc w Hf).
  destruct (c w) as [[a|e] w1]; simpl in *; [exact Hc|].
  destruct Hc as [Hf1 Hj1]. destruct (Hh e w1 Hf1) as [Hf2 Hj2].
  split; congruence.
Qed.

Lemma silent_statement {A} (run : world -> A * world) :
  mute run -> silent (statement run).
Proof.
  intros Hq w Hf. rewrite (statement_runs run w Hf). simpl.
  destruct (Hq w) as [H1 H2]. split; congruence.
Qed.

Lemma silent_now : silent now.
Proof. intros w Hf. now split. Qed.

Lemma silent_Math_random : silent Math_random.
Proof. intros w Hf. unfold Math_random. now destruct (randoms w). Qed.

Lemma silent_randomString : silent randomString.
Proof. intros w Hf. unfold randomString. now destruct (entropy w). Qed.

Lemma silent_cases {A} (c : M A) w :
  silent c -> db_faults w = [] ->
  exists r w1, c w = (r, w1) /\ db_faults w1 = []
               /\ request_logs w1 = request_logs w.
Proof.
  intros Hc Hf. destruct (Hc w Hf) as [H1 H2].
  exists (fst (c w)), (snd (c w)). now destruct (c w).
Qed.

Ltac silence :=
  repeat first
    [ assumption
    | apply silent_ret | apply silent_throw | apply silent_lift
    | apply silent_now | apply silent_Math_random | apply silent_randomString
    | apply silent_bind; [|intros ?]
    | apply silent_try_catch; [|intros ?]
    | apply silent_statement; intros ?; split; reflexivity
    | match goal with
      | |- silent (match ?x with _ => _ end) => destruct x
      end ].

Lemma silent_acquireProvider cfg g e :
  silent (ProviderScheduler.acquireProvider cfg g e).
Proof.
  unfold ProviderScheduler.acquireProvider, ProviderScheduler.selectProvider,
    Provider.getAvailableProviders, Provider.incrementLoad.
  silence.
Qed.

Lemma silent_releaseProvider i : silent (ProviderScheduler.releaseProvider i).
Proof.
  unfold ProviderScheduler.releaseProvider, Provider.decrementLoad. silence.
Qed.

Lemma silent_recordSuccess i : silent (ProviderScheduler.recordSuccess i).
Proof.
  unfold ProviderScheduler.recordSuccess, Provider.recordSuccess. silence.
Qed.

Lemma silent_recordFailure cfg i m :
  silent (ProviderScheduler.recordFailure cfg i m).
Proof.
  unfold ProviderScheduler.recordFailure, Provider.recordFailure,
    Provider.findById, Provider.update.
  silence.
Qed.

Lemma mute_delete_oldest u : mute (Session.delete_oldest u).
Proof.
  intros w. unfold Session.delete_oldest.
  destruct (Session.oldest _); split; reflexivity.
Qed.

Lemma silent_createSession cfg p u h t :
  silent (Session.createSession cfg p u h t).
Proof.
  unfold Session.createSession, Session.findById.
  apply silent_bind; [|intros; silence].
  destruct (negb (u =? 0)); [|silence].
  apply silent_bind; [silence | intros count].
  destruct (maxPerUser cfg <=? count); [|silence].
  apply silent_bind; [|intros; silence].
  apply silent_statement, mute_delete_oldest.
Qed.

Lemma silent_matchOrCreate cfg u p c :
  silent (SessionMatcher.matchOrCreate cfg u p c).
Proof.
  unfold SessionMatcher.matchOrCreate.
  apply silent_bind.
  { unfold SessionMatcher.generateSessionHashes. silence. }
  intros hashes. apply silent_bind.
  { unfold SessionMatcher.messages_length. silence. }
  intros _. apply silent_bind.
  { unfold Session.findMatchingSession, Session.update. silence. }
  intros [[s|] mt]; [silence|].
  destruct (p =? 0); [silence|].
  apply silent_bind; [apply silent_createSession | intros; silence].
Qed.

Lemma silent_updateGeminiSession i g :
  silent (SessionMatcher.updateGeminiSession i g).
Proof.
  unfold SessionMatcher.updateGeminiSession, Session.updateGeminiSessionId,
    Session.update.
  silence.
Qed.

Lemma silent_recordMessage cfg i : silent (SessionMatcher.recordMessage cfg i).
Proof.
  unfold SessionMatcher.recordMessage, Session.incrementMessageCount. silence.
Qed.

(** Writing the log adds the row. *)
Lemma log_appends row w :
  db_faults w = [] ->
  exists w1, RequestLog_log row w = (Ok tt, w1)
             /\ db_faults w1 = []
             /\ request_logs w1 = request_logs w ++ [row].
Proof.
  intros Hf. unfold RequestLog_log, bind.
  rewrite (statement_runs _ w Hf). cbn [fst snd].
  rewrite statement_runs by exact Hf. cbn [fst snd].
  eexists. split; [reflexivity|]. split; [exact Hf | reflexivity].
Qed.

Lemma silent_returning_cases {A} (c : M A) w :
  silent c -> returns c -> db_faults w = [] ->
  exists a w1, c w = (Ok a, w1) /\ db_faults w1 = []
               /\ request_logs w1 = request_logs w.
Proof.
  intros Hc Hr Hf. destruct (Hc w Hf) as [H1 H2]. destruct (Hr w Hf) as [a Ha].
  exists a, (snd (c w)). destruct (c w) as [r w1]; simpl in *. now subst r.
Qed.

Lemma returns_releaseProvider i : returns (ProviderScheduler.releaseProvider i).
Proof.
  intros w Hf. destruct (BalanceFacts.release_spec i w Hf) as (w1 & -> & _).
  now exists tt.
Qed.

(** The [catch] block writes one row with status 500 and throws the
    error it was given. *)
Lemma failed_logs cfg o pid sid {A} e w :
  db_faults w = [] ->
  exists w1,
    @failed cfg o pid sid A e w = (Throw e, w1)
    /\ db_faults w1 = []
    /\ request_logs w1
       = request_logs w
         ++ [LogRow.mk (userId o) (apiKeyId o) pid sid (model o)
                       (str "generateContent") 0 0 0 500 (Some e)].
Proof.
  intros Hf. unfold failed.
  assert (Hfirst : exists w0,
            (match pid with
             | Some pid =>
                 if negb (pid =? 0)
                 then bind (ProviderScheduler.releaseProvider pid)
                        (fun _ => ProviderScheduler.recordFailure cfg pid e)
                 else ret tt
             | None => ret tt
             end) w = (Ok tt, w0)
            /\ db_faults w0 = [] /\ request_logs w0 = request_logs w).
  { destruct pid as [pid|]; [|now exists w].
    destruct (negb (pid =? 0)); [|now exists w].
    destruct (silent_returning_cases _ w (silent_releaseProvider pid)
                (returns_releaseProvider pid) Hf)
      as ([] & w0 & Hrel & Hf0 & Hl0).
    destruct (silent_returning_cases _ w0 (silent_recordFailure cfg pid e)
                (BalanceFacts.returns_recordFailure cfg pid e) Hf0)
      as ([] & w0' & Hrec & Hf0' & Hl0').
    exists w0'. rewrite (bind_ok _ _ _ _ _ Hrel), Hrec.
    split; [reflexivity|]. split; [exact Hf0' | congruence]. }
  destruct Hfirst as (w0 & Hfirst & Hf0 & Hl0).
  rewrite (bind_ok _ _ _ _ _ Hfirst).
  match goal with
  | |- context [RequestLog_log ?row] =>
      destruct (log_appends row w0 Hf0) as (w1 & Hlog & Hf1 & Hl1)
  end.
  rewrite (bind_ok _ _ _ _ _ Hlog). cbn [throw].
  exists w1. split; [reflexivity|]. split; [exact Hf1|]. now rewrite Hl1, Hl0.
Qed.

(** X30. With no statement rejected, every call of [generateContent]
    adds exactly one row to the request log, carrying the user, the API
    key, the model and the request type: with status 200, no error and
    the prompt and candidate token counts of the response when the call
    returns a response, and with status 500 and the message of the
    error, if it has one, when the call throws. *)
Theorem generateContent_logs_every_request :
  forall (cfg : config) (up : upstream) (o : options) (w : world),
    db_faults w = [] ->
    exists row,
      request_logs (snd (generateContent cfg up o w)) = request_logs w ++ [row]
      /\ LogRow.user_id row = userId o
      /\ LogRow.api_key_id row = apiKeyId o
      /\ LogRow.model row = model o
      /\ LogRow.request_type row = str "generateContent"
      /\ match fst (generateContent cfg up o w) with
         | Ok response =>
             LogRow.status_code row = 200
             /\ LogRow.error_message row = None
             /\ LogRow.input_tokens row
                = promptTokenCount (usageMetadata response)
             /\ LogRow.output_tokens row
                = candidatesTokenCount (usageMetadata response)
         | Throw e =>
             LogRow.status_code row = 500
             /\ (e <> [] -> LogRow.error_message row = Some e)
         end.
Proof.
  intros cfg up o w Hf.
  change (logged_one o w (generateContent cfg up o w)).
  assert (Hhandler : forall pid sid err w',
            db_faults w' = [] -> request_logs w' = request_logs w ->
            logged_one o w (@failed cfg o pid sid response err w')).
  { intros pid sid err w' Hf' Hl'.
    destruct (failed_logs cfg o pid sid (A := response) err w' Hf')
      as (w1 & Hfail & _ & Hl1).
    rewrite Hfail. eexists. cbn [fst snd]. rewrite Hl1, Hl'.
    split; [reflexivity|]. cbn. repeat split. }
  unfold generateContent.
  destruct (silent_cases _ w
              (silent_acquireProvider cfg None ProviderScheduler.ExNull) Hf)
    as (r & w1 & Hacq & Hf1 & Hl1).
  destruct r as [p|err].
  2:{ destruct (failed_logs cfg o None None (A := ProviderRow.t) err w1 Hf1)
        as (w2 & Hfail & _ & Hl2).
      erewrite bind_throw
        by (erewrite try_throw by exact Hacq; exact Hfail).
      eexists. cbn [fst snd]. rewrite Hl2, Hl1.
      split; [reflexivity|]. cbn. repeat split. }
  erewrite bind_ok by (apply try_ok; exact Hacq).
  destruct (silent_cases _ w1
              (silent_matchOrCreate cfg (userId o) (ProviderRow.id p)
                 (contents o)) Hf1)
    as (r & w2 & Hmatch & Hf2 & Hl2).
  destruct r as [[[session isNew] mt]|err].
  2:{ destruct (failed_logs cfg o (Some (ProviderRow.id p)) None
                  (A := SessionRow.t * bool * Session.match_type) err w2 Hf2)
        as (w3 & Hfail & _ & Hl3).
      erewrite bind_throw
        by (erewrite try_throw by exact Hmatch; exact Hfail).
      eexists. cbn [fst snd]. rewrite Hl3, Hl2, Hl1.
      split; [reflexivity|]. cbn. repeat split. }
  erewrite bind_ok by (apply try_ok; exact Hmatch).
  cbv beta iota.
  assert (Hsilent_session :
    silent (if truthy (SessionRow.gemini_session_id session)
            then ret (or_empty (SessionRow.gemini_session_id session))
            else bind (lift (createSession up))
                   (fun name =>
                      bind (SessionMatcher.updateGeminiSession
                              (SessionRow.id session) name)
                        (fun _ => ret name)))).
  { destruct (truthy _); [silence|].
    apply silent_bind; [apply silent_lift | intros name].
    apply silent_bind; [apply silent_updateGeminiSession | intros; silence]. }
  assert (Hsilent_image :
    silent (if _wantsImage (responseModalities o)
                 (Hash.getLastMessageText (contents_messages (contents o)))
            then _fetchImage up else ret None)).
  { destruct (_wantsImage _ _); [|silence].
    unfold _fetchImage. destruct (fetchedImage up); silence. }
  destruct (silent_cases _ w2 Hsilent_session Hf2) as (r & w3 & Hgid & Hf3 & Hl3).
  destruct r as [gid|err].
  2:{ erewrite try_throw by (apply bind_throw; exact Hgid).
      apply Hhandler; congruence. }
  unfold lift at 1.
  destruct (sendMessage up) as [raw|err] eqn:Hsend.
  2:{ erewrite try_throw
        by (erewrite bind_ok by exact Hgid; apply bind_throw; reflexivity).
      apply Hhandler; congruence. }
  destruct (silent_cases _ w3 Hsilent_image Hf3) as (r & w4 & Himg & Hf4 & Hl4).
  destruct r as [img|err].
  2:{ erewrite try_throw
        by (erewrite bind_ok by exact Hgid;
            erewrite bind_ok by reflexivity;
            apply bind_throw; exact Himg).
      apply Hhandler; congruence. }
  destruct (silent_cases _ w4
              (silent_recordMessage cfg (SessionRow.id session)) Hf4)
    as (r & w5 & Hmsg & Hf5 & Hl5).
  destruct r as [[]|err].
  2:{ erewrite try_throw
        by (erewrite bind_ok by exact Hgid;
            erewrite bind_ok by reflexivity;
            erewrite bind_ok by exact Himg;
            apply bind_throw; exact Hmsg).
      apply Hhandler; congruence. }
  destruct (silent_returning_cases _ w5
              (silent_releaseProvider (ProviderRow.id p))
              (returns_releaseProvider (ProviderRow.id p)) Hf5)
    as ([] & w6 & Hrel & Hf6 & Hl6).
  destruct (silent_returning_cases _ w6
              (silent_recordSuccess (ProviderRow.id p))
              (BalanceFacts.returns_recordSuccess (ProviderRow.id p)) Hf6)
    as ([] & w7 & Hsucc & Hf7 & Hl7).
  assert (Hlog : forall row,
            RequestLog_log row w7 = (Ok tt, snd (RequestLog_log row w7))
            /\ request_logs (snd (RequestLog_log row w7))
               = request_logs w7 ++ [row]).
  { intros row. destruct (log_appends row w7 Hf7) as (w8 & Hl & _ & Hl8).
    rewrite Hl. split; [reflexivity | exact Hl8]. }
  erewrite try_ok
    by (erewrite bind_ok by exact Hgid;
        erewrite bind_ok by reflexivity;
        erewrite bind_ok by exact Himg;
        erewrite bind_ok by exact Hmsg;
        erewrite bind_ok by exact Hrel;
        erewrite bind_ok by exact Hsucc;
        erewrite bind_ok by (apply (proj1 (Hlog _)));
        reflexivity).
  eexists. cbn [fst snd].
  rewrite (proj2 (Hlog _)), Hl7, Hl6, Hl5, Hl4, Hl3, Hl2, Hl1.
  split; [reflexivity|]. cbn. repeat split.
Qed.

Lemma generateContent_logs_every_request_witness :
  db_faults (ProviderScheduler.world_of [ProviderScheduler.healthy_provider 1])
  = []
  /\ exists row,
       request_logs (snd fresh_conversation)
       = request_logs
           (ProviderScheduler.world_of [ProviderScheduler.healthy_provider 1])
         ++ [row]
       /\ LogRow.user_id row = 7.
Proof.
  split; [reflexivity|].
  destruct (generateContent_logs_every_request default_config upstream_ok
              (request (SessionMatcher.CMessages [hello]))
              (ProviderScheduler.world_of [ProviderScheduler.healthy_provider 1])
              eq_refl)
    as (row & Hlogs & Huser & _).
  exists row. split; [exact Hlogs | exact Huser].
Defined.

End LoggingFacts.

(** ** Model names *)

Module ModelNamesFacts.
Import RequestExecutor ModelNames.

Lemma starts_with_app p s : starts_with p (p ++ s) = true.
Proof.
  induction p as [|c p IH]; [reflexivity|].
  cbn [app starts_with]. unfold ch_eqb. now rewrite Ascii.eqb_refl, IH.
Qed.

Lemma skipn_prefix {A} (p s : list A) : skipn (List.length p) (p ++ s) = s.
Proof. induction p as [|c p IH]; [reflexivity | exact IH]. Qed.

Lemma remove_first_prefix p s : remove_first p (p ++ s) = s.
Proof.
  destruct p as [|c p]; [destruct s; reflexivity|].
  cbn [app remove_first].
  change (c :: p ++ s) with ((c :: p) ++ s).
  now rewrite starts_with_app, skipn_prefix.
Qed.

Lemma remove_first_absent p s :
  includes s p = false -> remove_first p s = s.
Proof.
  induction s as [|c s IH]; cbn [includes remove_first]; intros H;
    apply orb_false_elim in H as [H1 H2]; rewrite H1; [reflexivity|].
  f_equal. now apply IH.
Qed.

Lemma own_values key v :
  own key modelMap = Some v -> In v upstream_models.
Proof.
  unfold modelMap. cbn [own].
  repeat (destruct (Hash.jstring_eqb key _);
          [intros [= <-]; cbn; tauto|]).
  discriminate.
Qed.

Lemma cleanModel_not_empty model : cleanModel model <> [].
Proof.
  unfold cleanModel. destruct model as [m|]; [|discriminate].
  destruct (remove_first (str "models/") m); discriminate.
Qed.

(** X4. [_mapModel] never yields an empty model id; a missing model, the
    empty name and the bare prefix give the default model; the five
    documented names give one of the two upstream models, and each
    upstream model is mapped to itself; the first occurrence of the
    prefix models/ is dropped, so a name with the prefix is mapped like
    the name without it when that name does not contain the prefix
    again. *)
Theorem mapModel_names :
  forall (model : option jstring) (name : jstring),
    (_mapModel model = ModelId name -> name <> [])
    /\ _mapModel None = ModelId (str "gemini-2.0-flash-exp")
    /\ _mapModel (Some []) = ModelId (str "gemini-2.0-flash-exp")
    /\ _mapModel (Some (str "models/")) = ModelId (str "gemini-2.0-flash-exp")
    /\ (forall key v, own key modelMap = Some v ->
          _mapModel (Some key) = ModelId v
          /\ In v upstream_models
          /\ _mapModel (Some v) = ModelId v)
    /\ (includes name (str "models/") = false ->
        _mapModel (Some (str "models/" ++ name)) = _mapModel (Some name)).
Proof.
  intros model name. split; [|split; [|split; [|split; [|split]]]];
    try reflexivity.
  - unfold _mapModel. destruct (own (cleanModel model) modelMap) as [v|] eqn:E.
    + intros [= <-]. apply own_values in E.
      destruct E as [<- | [<- | []]]; discriminate.
    + destruct (existsb _ inherited); [discriminate|].
      intros [= <-]. apply cleanModel_not_empty.
  - intros key v Hown. pose proof (own_values key v Hown) as Hin.
    split; [|split; [exact Hin|]].
    + unfold modelMap in Hown. cbn [own] in Hown.
      repeat (destruct (Hash.jstring_eqb key _) eqn:E;
              [apply HashFacts.jstring_eqb_eq in E; subst key;
               injection Hown as <-; reflexivity|]; clear E).
      discriminate.
    + destruct Hin as [<- | [<- | []]]; reflexivity.
  - intros Habsent. unfold _mapModel, cleanModel.
    now rewrite remove_first_prefix, (remove_first_absent _ _ Habsent).
Qed.

Lemma mapModel_names_witness :
  str "gemini-2.0-flash-exp" <> []
  /\ _mapModel (Some (str "gemini-2.5-pro"))
     = ModelId (str "gemini-3-pro-preview")
  /\ _mapModel (Some (str "models/" ++ str "gemini-2.0-flash-exp"))
     = _mapModel (Some (str "gemini-2.0-flash-exp")).
Proof.
  destruct (mapModel_names (Some (str "gemini-pro"))
              (str "gemini-2.0-flash-exp"))
    as (Hname & _ & _ & _ & Hkey & Hprefix).
  split; [exact (Hname eq_refl)|].
  split; [exact (proj1 (Hkey (str "gemini-2.5-pro")
                          (str "gemini-3-pro-preview") eq_refl))|].
  exact (Hprefix eq_refl).
Defined.

End ModelNamesFacts.
